(** * RakshaSetu blockchain module: ledger, identity registry and QR codec

    A shallow embedding of
    - [blockchain/src/services/simpleBlockchain.ts] (hash chain, mining,
      digital-ID store),
    - [blockchain/contracts/DigitalID.sol] (on-chain identity registry),
    - [blockchain/src/services/DigitalIDService.ts] and
      [BlockchainService.ts] (service layer over the contract),
    - [blockchain/src/services/qrService.ts] (QR token codec),
    - [blockchain/src/models/DigitalID.ts] (durable schema),
    together with the properties stated about them. *)

From Stdlib Require Import ZArith NArith Ascii String List Bool Lia.
From Stdlib Require Import DecimalString DecimalPos DecimalZ.
From stdpp Require Import base option list gmap strings.

Local Open Scope string_scope.

(** String concatenation unfolds on a literal prefix. *)
Arguments String.append !s1 s2 : simpl nomatch.

(* ===================================================================== *)
(** ** Text helpers: the JavaScript renderings used by the sources        *)
(* ===================================================================== *)

(** [String(n)] for a non-negative integer below 1e21: plain decimal. *)
Definition N_to_string (n : N) : string :=
  NilZero.string_of_uint (N.to_uint n).

(** [String(z)] for an integer: a minus sign and the decimal digits. *)
Definition Z_to_string (z : Z) : string :=
  NilZero.string_of_int (Z.to_int z).

(** [c.repeat(n)] *)
Fixpoint repeat_char (c : ascii) (n : nat) : string :=
  match n with
  | O => EmptyString
  | S k => String c (repeat_char c k)
  end.

(** [s.substring(0, n)]: the first [n] characters, fewer if [s] is short. *)
Fixpoint substring0 (n : nat) (s : string) : string :=
  match n, s with
  | S k, String c r => String c (substring0 k r)
  | _, _ => EmptyString
  end.

Definition hex_digit (n : N) : ascii :=
  match n with
  | 0%N => "0" | 1%N => "1" | 2%N => "2" | 3%N => "3"
  | 4%N => "4" | 5%N => "5" | 6%N => "6" | 7%N => "7"
  | 8%N => "8" | 9%N => "9" | 10%N => "a" | 11%N => "b"
  | 12%N => "c" | 13%N => "d" | 14%N => "e" | _ => "f"
  end%char.

(* ===================================================================== *)
(** ** SHA-256 ([crypto.createHash('sha256').update(s).digest('hex')])    *)
(* ===================================================================== *)

Module Sha256.
Local Open Scope N_scope.

Definition mask32 : N := 0xFFFFFFFF.
Definition w32 (x : N) : N := N.land x mask32.
Definition add32 (a b : N) : N := w32 (a + b).
Definition rotr (n x : N) : N :=
  N.lor (N.shiftr x n) (w32 (N.shiftl x (32 - n))).
Definition shr (n x : N) : N := N.shiftr x n.
Definition not32 (x : N) : N := N.lxor x mask32.

Definition Ch (x y z : N) : N :=
  N.lxor (N.land x y) (N.land (not32 x) z).
Definition Maj (x y z : N) : N :=
  N.lxor (N.lxor (N.land x y) (N.land x z)) (N.land y z).
Definition Sigma0 (x : N) := N.lxor (N.lxor (rotr 2 x) (rotr 13 x)) (rotr 22 x).
Definition Sigma1 (x : N) := N.lxor (N.lxor (rotr 6 x) (rotr 11 x)) (rotr 25 x).
Definition sigma0 (x : N) := N.lxor (N.lxor (rotr 7 x) (rotr 18 x)) (shr 3 x).
Definition sigma1 (x : N) := N.lxor (N.lxor (rotr 17 x) (rotr 19 x)) (shr 10 x).

(** The constants of FIPS 180-4, derived as the standard defines them:
    the round constants are the first 32 bits of the fractional parts of
    the cube roots of the first 64 primes, the initial hash value those
    of the square roots of the first 8 primes. *)
Definition is_prime (n : nat) : bool :=
  Nat.leb 2 n
  && forallb (fun d => negb (Nat.eqb (n mod d) 0)) (seq 2 (n - 2)).

Definition primes_below (n : nat) : list N :=
  map N.of_nat (filter is_prime (seq 0 n)).

(** The largest [r] with [r^3 <= n], found bit by bit from bit [k] down. *)
Fixpoint cube_root_bits (k : nat) (n r : N) : N :=
  match k with
  | O => r
  | S j =>
      let r' := N.lor r (N.shiftl 1 (N.of_nat j)) in
      cube_root_bits j n (if r' * r' * r' <=? n then r' else r)
  end.

Definition cube_root (n : N) : N := cube_root_bits 40 n 0.

Definition K : list N :=
  Eval vm_compute in
    map (fun p => w32 (cube_root (N.shiftl p 96))) (primes_below 312).

Definition H0 : list N :=
  Eval vm_compute in
    map (fun p => w32 (N.sqrt (N.shiftl p 64))) (primes_below 20).

(** Message padding: a [0x80] byte, zeros up to 56 mod 64, then the bit
    length as a big-endian 64-bit integer. *)
Definition be_bytes (k : nat) (x : N) : list N :=
  map (fun i => N.land (N.shiftr x (8 * N.of_nat i)) 0xFF) (rev (seq 0 k)).

Definition pad (msg : list N) : list N :=
  let len := N.of_nat (length msg) in
  let zeros := N.to_nat ((64 - ((len + 9) mod 64)) mod 64) in
  msg ++ 0x80 :: repeat 0 zeros ++ be_bytes 8 (8 * len).

Fixpoint words_of_bytes (fuel : nat) (bs : list N) : list N :=
  match fuel, bs with
  | S f, b0 :: b1 :: b2 :: b3 :: rest =>
      (b0 * 0x1000000 + b1 * 0x10000 + b2 * 0x100 + b3)
        :: words_of_bytes f rest
  | _, _ => []
  end.

(** The message schedule, kept newest-first: the head is [W(t-1)]. *)
Fixpoint schedule (n : nat) (rw : list N) : list N :=
  match n with
  | O => rw
  | S k =>
      let w := add32 (add32 (sigma1 (nth 1 rw 0)) (nth 6 rw 0))
                     (add32 (sigma0 (nth 14 rw 0)) (nth 15 rw 0)) in
      schedule k (w :: rw)
  end.

Record regs := Regs { ra : N; rb : N; rc : N; rd : N;
                      re : N; rf : N; rg : N; rh : N }.

Definition round (r : regs) (kw : N * N) : regs :=
  let '(k, w) := kw in
  let t1 := add32 (add32 (add32 (rh r) (Sigma1 (re r)))
                         (add32 (Ch (re r) (rf r) (rg r)) k)) w in
  let t2 := add32 (Sigma0 (ra r)) (Maj (ra r) (rb r) (rc r)) in
  Regs (add32 t1 t2) (ra r) (rb r) (rc r) (add32 (rd r) t1) (re r) (rf r) (rg r).

Definition regs_of (h : list N) : regs :=
  Regs (nth 0 h 0) (nth 1 h 0) (nth 2 h 0) (nth 3 h 0)
       (nth 4 h 0) (nth 5 h 0) (nth 6 h 0) (nth 7 h 0).

Definition compress (h : list N) (block : list N) : list N :=
  let w := rev (schedule 48 (rev block)) in
  let r0 := regs_of h in
  let r := fold_left round (combine K w) r0 in
  [ add32 (ra r0) (ra r); add32 (rb r0) (rb r); add32 (rc r0) (rc r);
    add32 (rd r0) (rd r); add32 (re r0) (re r); add32 (rf r0) (rf r);
    add32 (rg r0) (rg r); add32 (rh r0) (rh r) ].

Fixpoint blocks (fuel : nat) (h : list N) (ws : list N) : list N :=
  match fuel with
  | O => h
  | S f =>
      match ws with
      | [] => h
      | _ => blocks f (compress h (firstn 16 ws)) (skipn 16 ws)
      end
  end.

Definition hex32 (x : N) : string :=
  fold_right (fun i acc => String (hex_digit (N.land (N.shiftr x (4 * N.of_nat i)) 0xF)) acc)
             EmptyString (rev (seq 0 8)).

Definition bytes_of_string (s : string) : list N :=
  map N_of_ascii (list_ascii_of_string s).

Definition digest_words (s : string) : list N :=
  let p := pad (bytes_of_string s) in
  let ws := words_of_bytes (length p) p in
  blocks (length ws) H0 ws.

(** The lower-case hexadecimal digest, 64 characters. *)
Definition hex (s : string) : string :=
  fold_right (fun w acc => hex32 w ++ acc) EmptyString (digest_words s).
End Sha256.

(* ===================================================================== *)
(** ** JSON values, [JSON.stringify] and [JSON.parse]                     *)
(* ===================================================================== *)

(** Strings are modelled as sequences of 8-bit characters, which is exact
    for ASCII text (wallet addresses, hashes, decimal numbers, the keys
    of every object the sources build).  Numbers are the integers: every
    number the modelled code serialises is a clock reading, a counter or
    an identifier. *)

Module Json.

#[local] Set Warnings "-register-all".
Inductive json : Type :=
| JNull
| JBool (b : bool)
| JNum (z : Z)
| JStr (s : string)
| JArr (l : list json)
| JObj (kv : list (string * json)).

Definition dq : ascii := ascii_of_nat 34.
Definition bslash : ascii := ascii_of_nat 92.

(** *** Serialisation *)

Definition escape_char (c : ascii) : string :=
  let n := nat_of_ascii c in
  if Nat.eqb n 34 then String bslash (String dq EmptyString)
  else if Nat.eqb n 92 then String bslash (String bslash EmptyString)
  else if Nat.eqb n 8 then String bslash "b"
  else if Nat.eqb n 12 then String bslash "f"
  else if Nat.eqb n 10 then String bslash "n"
  else if Nat.eqb n 13 then String bslash "r"
  else if Nat.eqb n 9 then String bslash "t"
  else if Nat.ltb n 32 then
    String bslash (String "u" (String "0" (String "0"
      (String (hex_digit (N.of_nat (n / 16)))
         (String (hex_digit (N.of_nat (n mod 16))) EmptyString)))))
  else String c EmptyString.

Fixpoint quote_body (s : string) : string :=
  match s with
  | EmptyString => EmptyString
  | String c r => escape_char c ++ quote_body r
  end.

Definition quote (s : string) : string :=
  String dq (quote_body s ++ String dq EmptyString).

Definition comma (first : bool) : string := if first then "" else ",".

Fixpoint stringify (v : json) : string :=
  match v with
  | JNull => "null"
  | JBool true => "true"
  | JBool false => "false"
  | JNum z => Z_to_string z
  | JStr s => quote s
  | JArr l =>
      "[" ++ (fix elems (first : bool) (l : list json) : string :=
                match l with
                | [] => "]"
                | x :: r => comma first ++ stringify x ++ elems false r
                end) true l
  | JObj kv =>
      "{" ++ (fix members (first : bool) (kv : list (string * json)) : string :=
                match kv with
                | [] => "}"
                | (k, x) :: r =>
                    comma first ++ quote k ++ ":" ++ stringify x ++ members false r
                end) true kv
  end.

Fixpoint stringify_elems (first : bool) (l : list json) : string :=
  match l with
  | [] => "]"
  | x :: r => comma first ++ stringify x ++ stringify_elems false r
  end.

Fixpoint stringify_members (first : bool) (kv : list (string * json)) : string :=
  match kv with
  | [] => "}"
  | (k, x) :: r =>
      comma first ++ quote k ++ ":" ++ stringify x ++ stringify_members false r
  end.

(** *** Parsing *)

Definition is_ws (c : ascii) : bool :=
  let n := nat_of_ascii c in
  Nat.eqb n 32 || Nat.eqb n 9 || Nat.eqb n 10 || Nat.eqb n 13.

Fixpoint skip_ws (s : string) : string :=
  match s with
  | String c r => if is_ws c then skip_ws r else s
  | EmptyString => EmptyString
  end.

Fixpoint strip_prefix (p s : string) : option string :=
  match p, s with
  | EmptyString, _ => Some s
  | String a p', String b s' =>
      if Ascii.eqb a b then strip_prefix p' s' else None
  | String _ _, EmptyString => None
  end.

Definition is_digit (c : ascii) : bool :=
  let n := nat_of_ascii c in Nat.leb 48 n && Nat.leb n 57.

Fixpoint span_digits (s : string) : string * string :=
  match s with
  | String c r =>
      if is_digit c then
        let '(d, rest) := span_digits r in (String c d, rest)
      else (EmptyString, s)
  | EmptyString => (EmptyString, EmptyString)
  end.

Definition span_number (s : string) : string * string :=
  match s with
  | String c r =>
      if Ascii.eqb c "-" then
        let '(d, rest) := span_digits r in (String c d, rest)
      else span_digits s
  | EmptyString => (EmptyString, EmptyString)
  end.

Definition parse_number (s : string) : option (Z * string) :=
  let '(txt, rest) := span_number s in
  match NilZero.int_of_string txt with
  | Some i => Some (Z.of_int i, rest)
  | None => None
  end.

Definition hex_value (c : ascii) : option nat :=
  let n := nat_of_ascii c in
  if Nat.leb 48 n && Nat.leb n 57 then Some (n - 48)
  else if Nat.leb 97 n && Nat.leb n 102 then Some (n - 87)
  else if Nat.leb 65 n && Nat.leb n 70 then Some (n - 55)
  else None.

(** [\uXXXX]: only code points below 256 are inside the modelled
    alphabet. *)
Definition unicode_escape (h1 h2 h3 h4 : ascii) : option ascii :=
  match hex_value h1, hex_value h2, hex_value h3, hex_value h4 with
  | Some a, Some b, Some c, Some d =>
      let n := ((a * 16 + b) * 16 + c) * 16 + d in
      if Nat.ltb n 256 then Some (ascii_of_nat n) else None
  | _, _, _, _ => None
  end.

Definition simple_escape (e : ascii) : option ascii :=
  let n := nat_of_ascii e in
  if Nat.eqb n 34 then Some dq
  else if Nat.eqb n 92 then Some bslash
  else if Nat.eqb n 47 then Some "/"%char
  else if Nat.eqb n 98 then Some (ascii_of_nat 8)
  else if Nat.eqb n 102 then Some (ascii_of_nat 12)
  else if Nat.eqb n 110 then Some (ascii_of_nat 10)
  else if Nat.eqb n 114 then Some (ascii_of_nat 13)
  else if Nat.eqb n 116 then Some (ascii_of_nat 9)
  else None.

Definition push_char (c : ascii) (r : option (string * string)) : option (string * string) :=
  match r with
  | Some (b, rest) => Some (String c b, rest)
  | None => None
  end.

(** The characters after an opening quote, up to the closing one. *)
Fixpoint parse_string_body (s : string) : option (string * string) :=
  match s with
  | EmptyString => None
  | String c r =>
      if Ascii.eqb c dq then Some (EmptyString, r)
      else if Ascii.eqb c bslash then
        match r with
        | String e r1 =>
            if Ascii.eqb e "u" then
              match r1 with
              | String h1 (String h2 (String h3 (String h4 r5))) =>
                  match unicode_escape h1 h2 h3 h4 with
                  | Some x => push_char x (parse_string_body r5)
                  | None => None
                  end
              | _ => None
              end
            else
              match simple_escape e with
              | Some x => push_char x (parse_string_body r1)
              | None => None
              end
        | EmptyString => None
        end
      else if Nat.ltb (nat_of_ascii c) 32 then None
      else push_char c (parse_string_body r)
  end.

(** Property assignment on a parsed object: a repeated key keeps its
    first position and takes the later value. *)
Fixpoint obj_set (kv : list (string * json)) (k : string) (v : json)
  : list (string * json) :=
  match kv with
  | [] => [(k, v)]
  | (k', v') :: r =>
      if String.eqb k' k then (k', v) :: r else (k', v') :: obj_set r k v
  end.

Fixpoint parse_value (fuel : nat) (s : string) : option (json * string) :=
  match fuel with
  | O => None
  | S f =>
      match skip_ws s with
      | EmptyString => None
      | String c r =>
          if Ascii.eqb c "n" then
            option_map (fun rest => (JNull, rest)) (strip_prefix "ull" r)
          else if Ascii.eqb c "t" then
            option_map (fun rest => (JBool true, rest)) (strip_prefix "rue" r)
          else if Ascii.eqb c "f" then
            option_map (fun rest => (JBool false, rest)) (strip_prefix "alse" r)
          else if Ascii.eqb c dq then
            match parse_string_body r with
            | Some (b, rest) => Some (JStr b, rest)
            | None => None
            end
          else if Ascii.eqb c "[" then
            match skip_ws r with
            | String c' r' =>
                if Ascii.eqb c' "]" then Some (JArr [], r')
                else parse_elems f r []
            | EmptyString => None
            end
          else if Ascii.eqb c "{" then
            match skip_ws r with
            | String c' r' =>
                if Ascii.eqb c' "}" then Some (JObj [], r')
                else parse_members f r []
            | EmptyString => None
            end
          else
            match parse_number (String c r) with
            | Some (z, rest) => Some (JNum z, rest)
            | None => None
            end
      end
  end
with parse_elems (fuel : nat) (s : string) (acc : list json)
  : option (json * string) :=
  match fuel with
  | O => None
  | S f =>
      match parse_value f s with
      | Some (v, rest) =>
          match skip_ws rest with
          | String c r =>
              if Ascii.eqb c "," then parse_elems f r (acc ++ [v])
              else if Ascii.eqb c "]" then Some (JArr (acc ++ [v]), r)
              else None
          | EmptyString => None
          end
      | None => None
      end
  end
with parse_members (fuel : nat) (s : string) (acc : list (string * json))
  : option (json * string) :=
  match fuel with
  | O => None
  | S f =>
      match skip_ws s with
      | String c0 r0 =>
          if Ascii.eqb c0 dq then
            match parse_string_body r0 with
            | Some (k, rest0) =>
                match skip_ws rest0 with
                | String c1 r1 =>
                    if Ascii.eqb c1 ":" then
                      match parse_value f r1 with
                      | Some (v, rest) =>
                          match skip_ws rest with
                          | String c r =>
                              if Ascii.eqb c "," then
                                parse_members f r (obj_set acc k v)
                              else if Ascii.eqb c "}" then
                                Some (JObj (obj_set acc k v), r)
                              else None
                          | EmptyString => None
                          end
                      | None => None
                      end
                    else None
                | EmptyString => None
                end
            | None => None
            end
          else None
      | EmptyString => None
      end
  end.

(** [JSON.parse]: [None] stands for the [SyntaxError] it throws. *)
Definition parse (s : string) : option json :=
  match parse_value (S (String.length s)) s with
  | Some (v, rest) =>
      match skip_ws rest with
      | EmptyString => Some v
      | String _ _ => None
      end
  | None => None
  end.

(** *** Property access and truthiness on parsed values *)

(** [v.k] on an object; [None] is [undefined].  Objects built by
    [obj_set] or by the sources' object literals have distinct keys. *)
Fixpoint assoc (k : string) (kv : list (string * json)) : option json :=
  match kv with
  | [] => None
  | (k', v) :: r => if String.eqb k' k then Some v else assoc k r
  end.

(** [!x] for a property read ([None] is [undefined]). *)
Definition falsy (x : option json) : bool :=
  match x with
  | None => true
  | Some JNull => true
  | Some (JBool b) => negb b
  | Some (JNum z) => Z.eqb z 0
  | Some (JStr s) => String.eqb s ""
  | Some (JArr _) => false
  | Some (JObj _) => false
  end.

(** Objects whose keys are pairwise distinct, at every depth. *)
Fixpoint keys_distinct (kv : list (string * json)) : bool :=
  match kv with
  | [] => true
  | (k, _) :: r =>
      negb (existsb (fun p => String.eqb (fst p) k) r) && keys_distinct r
  end.

Fixpoint wf (v : json) : bool :=
  match v with
  | JArr l => forallb wf l
  | JObj kv =>
      keys_distinct kv &&
      (fix all (kv : list (string * json)) : bool :=
         match kv with
         | [] => true
         | (_, x) :: r => wf x && all r
         end) kv
  | _ => true
  end.

Fixpoint weight (v : json) : nat :=
  match v with
  | JArr l => S (fold_right (fun x n => S (weight x + n)) 0 l)
  | JObj kv =>
      S ((fix sum (kv : list (string * json)) : nat :=
            match kv with
            | [] => 0
            | (_, x) :: r => S (weight x + sum r)
            end) kv)
  | _ => 1
  end.

End Json.

Import Json.


(* ===================================================================== *)
(** ** Outcomes of calls                                                  *)
(* ===================================================================== *)

(** A TypeScript call either returns, throws an [Error] with a message,
    or is still looping when the fuel given to its loops runs out. *)
Inductive outcome (A : Type) : Type :=
| Done (a : A)
| Thrown (msg : string)
| OutOfFuel.
Arguments Done {A} a.
Arguments Thrown {A} msg.
Arguments OutOfFuel {A}.

(* ===================================================================== *)
(** ** Regular expressions of the durable schema ([regex.test])           *)
(* ===================================================================== *)

Module Regex.

Inductive re : Type :=
| Void
| Eps
| Cls (f : ascii -> bool)
| Cat (r1 r2 : re)
| Alt (r1 r2 : re)
| Star (r : re).

Fixpoint nullable (r : re) : bool :=
  match r with
  | Void => false
  | Eps => true
  | Cls _ => false
  | Cat a b => nullable a && nullable b
  | Alt a b => nullable a || nullable b
  | Star _ => true
  end.

Definition cat (a b : re) : re :=
  match a, b with
  | Void, _ => Void
  | _, Void => Void
  | Eps, _ => b
  | _, _ => Cat a b
  end.

Definition alt (a b : re) : re :=
  match a, b with
  | Void, _ => b
  | _, Void => a
  | _, _ => Alt a b
  end.

(** Brzozowski derivative. *)
Fixpoint deriv (c : ascii) (r : re) : re :=
  match r with
  | Void => Void
  | Eps => Void
  | Cls f => if f c then Eps else Void
  | Cat a b =>
      if nullable a then alt (cat (deriv c a) b) (deriv c b)
      else cat (deriv c a) b
  | Alt a b => alt (deriv c a) (deriv c b)
  | Star a => cat (deriv c a) (Star a)
  end.

(** [/^r$/.test(s)] *)
Fixpoint test (r : re) (s : string) : bool :=
  match s with
  | EmptyString => nullable r
  | String c t => test (deriv c r) t
  end.

Definition chr (c : ascii) : re := Cls (Ascii.eqb c).
Definition plus (r : re) : re := Cat r (Star r).
Definition opt (r : re) : re := Alt Eps r.
Fixpoint rep (n : nat) (r : re) : re :=
  match n with
  | O => Eps
  | S k => Cat r (rep k r)
  end.

Definition in_range (lo hi : nat) (c : ascii) : bool :=
  Nat.leb lo (nat_of_ascii c) && Nat.leb (nat_of_ascii c) hi.

(** [\w]: letters, digits and the underscore. *)
Definition word_char (c : ascii) : bool :=
  in_range 97 122 c || in_range 65 90 c || in_range 48 57 c
  || Nat.eqb (nat_of_ascii c) 95.

(** [[a-fA-F0-9]] *)
Definition hex_char (c : ascii) : bool :=
  in_range 97 102 c || in_range 65 70 c || in_range 48 57 c.

Definition dot_or_dash (c : ascii) : bool :=
  Ascii.eqb c "." || Ascii.eqb c "-".

(** [/^\w+([.-]?\w+)*@\w+([.-]?\w+)*(\.\w{2,3})+$/] *)
Definition email_re : re :=
  let w := Cls word_char in
  let part := Cat (plus w) (Star (Cat (opt (Cls dot_or_dash)) (plus w))) in
  Cat part
      (Cat (chr "@")
           (Cat part
                (plus (Cat (chr ".") (Cat w (Cat w (opt w))))))).

(** [/^0x[a-fA-F0-9]{40}$/] *)
Definition wallet_re : re :=
  Cat (chr "0") (Cat (chr "x") (rep 40 (Cls hex_char))).

End Regex.

(* ===================================================================== *)
(** ** [simpleBlockchain.ts]: the hash chain and its digital-ID store     *)
(* ===================================================================== *)

Module SimpleBlockchain.

(** [interface Block].  Numbers are non-negative integers within the
    safe-integer range. *)
Record Block : Type := mkBlock {
  index : N;
  timestamp : N;
  data : json;
  previousHash : string;
  hash : string;
  nonce : N
}.

(** [interface DigitalID] *)
Record DigitalID : Type := mkDigitalID {
  did_id : string;
  did_userId : string;
  did_name : string;
  did_email : string;
  did_role : string;
  did_walletAddress : string;
  did_timestamp : N;
  did_hash : string;
  did_verified : bool
}.

(** A document of the MongoDB [DigitalID] collection. *)
Record Doc : Type := mkDoc {
  doc_id : string;
  doc_userId : string;
  doc_name : string;
  doc_email : string;
  doc_role : string;
  doc_walletAddress : string;
  doc_timestamp : N;
  doc_hash : string;
  doc_verified : bool;
  doc_additionalData : json
}.

(** The instance, together with the database collection it writes to. *)
Record State : Type := mkState {
  chain : list Block;
  digitalIDs : list DigitalID;
  difficulty : nat;
  db : list Doc
}.

(** [calculateHash]: [index + timestamp] is a numeric sum; the other
    [+] are string concatenations. *)
Definition calculateHash (index timestamp : N) (data : json)
           (previousHash : string) (nonce : N) : string :=
  Sha256.hex (N_to_string (index + timestamp) ++ stringify data
                ++ previousHash ++ N_to_string nonce).

Definition genesisData : json :=
  JObj [("message", JStr "RakshaSetu Genesis Block")].

(** [createGenesisBlock]: the clock is read twice, [t1] for the
    [timestamp] field and [t2] inside the hash. *)
Definition createGenesisBlock (t1 t2 : N) : Block :=
  {| index := 0;
     timestamp := t1;
     data := genesisData;
     previousHash := "0";
     hash := calculateHash 0 t2 genesisData "0" 0;
     nonce := 0 |}.

(** [constructor] *)
Definition init (t1 t2 : N) : State :=
  {| chain := [createGenesisBlock t1 t2];
     digitalIDs := [];
     difficulty := 2;
     db := [] |}.

(** The admission test of [mineBlock]:
    [block.hash.substring(0, difficulty) === '0'.repeat(difficulty)]. *)
Definition meetsTarget (difficulty : nat) (h : string) : bool :=
  String.eqb (substring0 difficulty h) (repeat_char "0" difficulty).

Definition rehash (block : Block) (n : N) : Block :=
  {| index := index block;
     timestamp := timestamp block;
     data := data block;
     previousHash := previousHash block;
     hash := calculateHash (index block) (timestamp block) (data block)
                           (previousHash block) n;
     nonce := n |}.

(** [mineBlock]: the [while] loop, one iteration per unit of fuel. *)
Fixpoint mineBlock (fuel : nat) (difficulty : nat) (block : Block)
  : option Block :=
  match fuel with
  | O => None
  | S f =>
      if meetsTarget difficulty (hash block) then Some block
      else mineBlock f difficulty (rehash block (nonce block + 1))
  end.

(** [addBlock]; [now] is the reading of [Date.now()]. *)
Definition addBlock (fuel : nat) (now : N) (d : json) (s : State)
  : outcome (Block * State) :=
  match last (chain s) with
  | None => Thrown "TypeError"
  | Some previousBlock =>
      let newBlock :=
        rehash {| index := index previousBlock + 1;
                  timestamp := now;
                  data := d;
                  previousHash := hash previousBlock;
                  hash := "";
                  nonce := 0 |} 0 in
      match mineBlock fuel (difficulty s) newBlock with
      | None => OutOfFuel
      | Some minedBlock =>
          Done (minedBlock,
                {| chain := chain s ++ [minedBlock];
                   digitalIDs := digitalIDs s;
                   difficulty := difficulty s;
                   db := db s |})
      end
  end.

(** The two checks [validateChain] makes at position [i]. *)
Definition linkOk (c : list Block) (i : nat) : bool :=
  match c !! i, c !! (i - 1)%nat with
  | Some currentBlock, Some previousBlock =>
      String.eqb (hash currentBlock)
        (calculateHash (index currentBlock) (timestamp currentBlock)
           (data currentBlock) (previousHash currentBlock) (nonce currentBlock))
      && String.eqb (previousHash currentBlock) (hash previousBlock)
  | _, _ => false
  end.

(** [validateChain]: [for (let i = 1; i < chain.length; i++)]. *)
Definition validateChainOf (c : list Block) : bool :=
  forallb (linkOk c) (seq 1 (length c - 1)).

Definition validateChain (s : State) : bool := validateChainOf (chain s).

Definition getLastBlock (s : State) : option Block := last (chain s).
Definition getBlockByIndex (s : State) (i : nat) : option Block := chain s !! i.

(** *** The durable schema of [models/DigitalID.ts] *)

Definition is_space (c : ascii) : bool :=
  let n := nat_of_ascii c in
  Nat.eqb n 32 || (Nat.leb 9 n && Nat.leb n 13).

Fixpoint trim_left (s : string) : string :=
  match s with
  | String c r => if is_space c then trim_left r else s
  | EmptyString => EmptyString
  end.

Fixpoint trim_right (s : string) : string :=
  match s with
  | EmptyString => EmptyString
  | String c r =>
      match trim_right r with
      | EmptyString => if is_space c then EmptyString else String c EmptyString
      | r' => String c r'
      end
  end.

Definition trim (s : string) : string := trim_right (trim_left s).

Definition lower_char (c : ascii) : ascii :=
  if Regex.in_range 65 90 c then ascii_of_nat (nat_of_ascii c + 32) else c.

Fixpoint toLowerCase (s : string) : string :=
  match s with
  | EmptyString => EmptyString
  | String c r => String (lower_char c) (toLowerCase r)
  end.

Definition nonempty (s : string) : bool := negb (String.eqb s "").

Definition roleEnum : list string := ["admin"; "police"; "tourism"; "tourist"].

(** The field setters ([trim], [lowercase]) run before validation. *)
Definition applySetters (d : Doc) : Doc :=
  {| doc_id := doc_id d;
     doc_userId := doc_userId d;
     doc_name := trim (doc_name d);
     doc_email := trim (toLowerCase (doc_email d));
     doc_role := doc_role d;
     doc_walletAddress := doc_walletAddress d;
     doc_timestamp := doc_timestamp d;
     doc_hash := doc_hash d;
     doc_verified := doc_verified d;
     doc_additionalData := doc_additionalData d |}.

(** The validators: [required] rejects the empty string. *)
Definition validators (d : Doc) : bool :=
  nonempty (doc_userId d)
  && nonempty (doc_name d) && Nat.leb (String.length (doc_name d)) 100
  && nonempty (doc_email d) && Regex.test Regex.email_re (doc_email d)
  && nonempty (doc_role d) && existsb (String.eqb (doc_role d)) roleEnum
  && nonempty (doc_walletAddress d)
  && Regex.test Regex.wallet_re (doc_walletAddress d)
  && nonempty (doc_hash d).

(** The unique index on [hash]. *)
Definition hashTaken (h : string) (docs : list Doc) : bool :=
  existsb (fun d => String.eqb (doc_hash d) h) docs.

(** [DigitalID.create(doc)]: validation error, duplicate-key error, or
    the stored document. *)
Definition modelCreate (d : Doc) (docs : list Doc) : outcome (Doc * list Doc) :=
  let d' := applySetters d in
  if negb (validators d') then Thrown "ValidationError"
  else if hashTaken (doc_hash d') docs then Thrown "E11000 duplicate key error"
  else Done (d', (docs ++ [d'])%list).

(** *** [createDigitalID] *)

(** [userData] *)
Record UserData : Type := mkUserData {
  userId : string;
  name : string;
  email : string;
  role : string;
  walletAddress : string;
  additionalData : option json
}.

(** What one call reads from its environment:
    [mongoose.connection.readyState === 1], the three readings of
    [Date.now()], the fresh [_id] (an ObjectId or a random UUID), and
    the fuel of the mining loop. *)
Record CallEnv : Type := mkCallEnv {
  connected : bool;
  nowHash : N;
  nowRecord : N;
  nowBlock : N;
  freshId : string;
  fuel : nat
}.

Definition contentHash (u : UserData) (now : N) : string :=
  Sha256.hex (stringify (JObj [
    ("userId", JStr (userId u));
    ("name", JStr (name u));
    ("email", JStr (email u));
    ("role", JStr (role u));
    ("walletAddress", JStr (walletAddress u));
    ("timestamp", JNum (Z.of_N now))])).

Definition docOf (u : UserData) (e : CallEnv) (h : string) : Doc :=
  {| doc_id := freshId e;
     doc_userId := userId u;
     doc_name := name u;
     doc_email := email u;
     doc_role := role u;
     doc_walletAddress := walletAddress u;
     doc_timestamp := nowRecord e;
     doc_hash := h;
     doc_verified := false;
     doc_additionalData := default (JObj []) (additionalData u) |}.

Definition recordOf (d : Doc) : DigitalID :=
  {| did_id := doc_id d;
     did_userId := doc_userId d;
     did_name := doc_name d;
     did_email := doc_email d;
     did_role := doc_role d;
     did_walletAddress := doc_walletAddress d;
     did_timestamp := doc_timestamp d;
     did_hash := doc_hash d;
     did_verified := doc_verified d |}.

Definition blockPayload (d : Doc) : json :=
  JObj [("type", JStr "digital_id");
        ("digitalID", JStr (doc_id d));
        ("hash", JStr (doc_hash d));
        ("verified", JBool (doc_verified d))].

(** The part after the backend branch: push the record, mint the
    block, return the record. *)
Definition commit (e : CallEnv) (d : Doc) (s : State)
  : outcome (DigitalID * State) :=
  let s1 := {| chain := chain s;
               digitalIDs := digitalIDs s ++ [recordOf d];
               difficulty := difficulty s;
               db := db s |} in
  match addBlock (fuel e) (nowBlock e) (blockPayload d) s1 with
  | Done (_, s2) => Done (recordOf d, s2)
  | Thrown _ => Thrown "Failed to create digital ID"
  | OutOfFuel => OutOfFuel
  end.

(** [createDigitalID]: the backend is chosen by the connection state
    read during the call; every error is rethrown as
    ['Failed to create digital ID']. *)
Definition createDigitalID (e : CallEnv) (u : UserData) (s : State)
  : outcome (DigitalID * State) :=
  let h := contentHash u (nowHash e) in
  if connected e then
    match modelCreate (docOf u e h) (db s) with
    | Done (d, docs) =>
        commit e d {| chain := chain s;
                      digitalIDs := digitalIDs s;
                      difficulty := difficulty s;
                      db := docs |}
    | Thrown _ => Thrown "Failed to create digital ID"
    | OutOfFuel => OutOfFuel
    end
  else
    commit e (docOf u e h) s.

(** [verifyDigitalID]: marks the first record with that hash. *)
Fixpoint markVerified (h : string) (l : list DigitalID)
  : option (DigitalID * list DigitalID) :=
  match l with
  | [] => None
  | d :: r =>
      if String.eqb (did_hash d) h then
        let d' := {| did_id := did_id d;
                     did_userId := did_userId d;
                     did_name := did_name d;
                     did_email := did_email d;
                     did_role := did_role d;
                     did_walletAddress := did_walletAddress d;
                     did_timestamp := did_timestamp d;
                     did_hash := did_hash d;
                     did_verified := true |} in
        Some (d', d' :: r)
      else
        match markVerified h r with
        | Some (d', r') => Some (d', d :: r')
        | None => None
        end
  end.

Definition verifyDigitalID (h : string) (s : State)
  : option DigitalID * State :=
  match markVerified h (digitalIDs s) with
  | Some (d, l) =>
      (Some d, {| chain := chain s;
                  digitalIDs := l;
                  difficulty := difficulty s;
                  db := db s |})
  | None => (None, s)
  end.

Definition getDigitalIDByHash (h : string) (s : State) : option DigitalID :=
  find (fun d => String.eqb (did_hash d) h) (digitalIDs s).

(** [getDigitalIDById] *)
Definition getDigitalIDById (i : string) (s : State) : option DigitalID :=
  find (fun d => String.eqb (did_id d) i) (digitalIDs s).

(** [getChain], [getDigitalIDs] *)
Definition getChain (s : State) : list Block := chain s.
Definition getDigitalIDs (s : State) : list DigitalID := digitalIDs s.

End SimpleBlockchain.

(* ===================================================================== *)
(** ** [inMemoryStorage.ts]: the digital-ID map of the in-memory storage  *)
(* ===================================================================== *)

Module InMemoryStorage.

(** The fields of [digitalIDData] the methods read; an empty [_id]
    stands for an absent one. *)
Record DigitalIDData : Type := mkData {
  _id : string;
  userId : string;
  hash : string
}.

(** A stored entry: the data with its [_id] and [createdAt] set. *)
Record Entry : Type := mkEntry {
  entry : DigitalIDData;
  createdAt : N
}.

(** [private digitalIDs: Map<string, any>] *)
Definition Store : Type := gmap string Entry.

(** [createDigitalID]: [id = digitalIDData._id || digitalIDData.hash],
    then [Map.set], which replaces an entry already stored under [id]. *)
Definition createDigitalID (d : DigitalIDData) (now : N) (m : gmap string Entry)
  : Entry * gmap string Entry :=
  let id := if String.eqb (_id d) "" then hash d else _id d in
  let e := {| entry := {| _id := id; userId := userId d; hash := hash d |};
              createdAt := now |} in
  (e, <[id := e]> m).

(** [findDigitalIDs] *)
Definition findDigitalIDs (m : gmap string Entry) : list Entry :=
  map snd (map_to_list m).

(** [findDigitalIDByHash] *)
Definition findDigitalIDByHash (h : string) (m : gmap string Entry) : option Entry :=
  find (fun e => String.eqb (hash (entry e)) h) (findDigitalIDs m).

(** [getDigitalIDCount] *)
Definition getDigitalIDCount (m : gmap string Entry) : nat := size m.

End InMemoryStorage.

(* ===================================================================== *)
(** ** [contracts/DigitalID.sol]: the on-chain identity registry          *)
(* ===================================================================== *)

Module DigitalIDContract.

Local Open Scope N_scope.

(** [address]: a 160-bit number; [address(0)] is [0]. *)
Abbreviation address := N.

Definition uint256_max : N := 2 ^ 256 - 1.

(** [struct Identity] *)
Record Identity : Type := mkIdentity {
  id : N;
  name : string;
  email : string;
  nationality : string;
  aadhaarHash : string;
  passportHash : string;
  emergencyContact : string;
  createdAt : N;
  updatedAt : N;
  isActive : bool;
  isVerified : bool;
  walletAddress : address;
  roles : list string
}.

(** The value of a mapping slot that was never written. *)
Definition zeroIdentity : Identity :=
  mkIdentity 0 "" "" "" "" "" "" 0 0 false false 0 [].

Inductive Event : Type :=
| IdentityCreated (id : N) (wallet : address) (name email : string) (timestamp : N)
| IdentityUpdated (id : N) (wallet : address) (timestamp : N)
| IdentityVerified (id : N) (verifier : address) (timestamp : N)
| IdentityDeactivated (id : N) (wallet : address) (timestamp : N)
| RoleAdded (id : N) (role : string) (timestamp : N)
| RoleRemoved (id : N) (role : string) (timestamp : N).

(** Contract storage, and the log of emitted events. *)
Record State : Type := mkState {
  owner : address;
  idCounter : N;
  walletToIdentity : gmap N N;
  identities : gmap N Identity;
  emailToIdentity : gmap string N;
  aadhaarToIdentity : gmap string N;
  passportToIdentity : gmap string N;
  events : list Event
}.

(** [msg.sender] and [block.timestamp] of a transaction. *)
Record Msg : Type := mkMsg { sender : address; now : N }.

(** A transaction commits with a value and a new state, or reverts
    (a failed [require], or a panic: [0x11] arithmetic overflow,
    [0x32] array index out of bounds) and leaves the state as it was. *)
Inductive tx (A : Type) : Type :=
| Success (a : A) (s : State)
| Revert (reason : string)
| Panic (code : N).
Arguments Success {A} a s.
Arguments Revert {A} reason.
Arguments Panic {A} code.

(** Reads of mappings: absent slots read as zero. *)
Definition identityAt (s : State) (i : N) : Identity :=
  default zeroIdentity (identities s !! i).
Definition walletId (s : State) (a : address) : N :=
  default 0 (walletToIdentity s !! a).
Definition emailId (s : State) (e : string) : N :=
  default 0 (emailToIdentity s !! e).

Definition setIdentity (s : State) (i : N) (x : Identity) : State :=
  {| owner := owner s;
     idCounter := idCounter s;
     walletToIdentity := walletToIdentity s;
     identities := <[i := x]> (identities s);
     emailToIdentity := emailToIdentity s;
     aadhaarToIdentity := aadhaarToIdentity s;
     passportToIdentity := passportToIdentity s;
     events := events s |}.

Definition emit (s : State) (e : Event) : State :=
  {| owner := owner s;
     idCounter := idCounter s;
     walletToIdentity := walletToIdentity s;
     identities := identities s;
     emailToIdentity := emailToIdentity s;
     aadhaarToIdentity := aadhaarToIdentity s;
     passportToIdentity := passportToIdentity s;
     events := events s ++ [e] |}.

(** [constructor] *)
Definition deploy (m : Msg) : State :=
  {| owner := sender m;
     idCounter := 0;
     walletToIdentity := ∅;
     identities := ∅;
     emailToIdentity := ∅;
     aadhaarToIdentity := ∅;
     passportToIdentity := ∅;
     events := [] |}.

Definition nonempty (s : string) : bool := negb (String.eqb s "").

(** [createIdentity] *)
Definition createIdentity (m : Msg)
           (_name _email _nationality _aadhaarHash _passportHash
              _emergencyContact : string)
           (_roles : list string) (s : State) : tx unit :=
  if negb (walletId s (sender m) =? 0) then Revert "Identity already exists"
  else if negb (emailId s _email =? 0) then Revert "Email already registered"
  else if negb (nonempty _name) then Revert "Name cannot be empty"
  else if negb (nonempty _email) then Revert "Email cannot be empty"
  else if idCounter s =? uint256_max then Panic 0x11
  else
    let newId := idCounter s + 1 in
    let old := identityAt s newId in
    let newIdentity :=
      {| id := newId;
         name := _name;
         email := _email;
         nationality := _nationality;
         aadhaarHash := _aadhaarHash;
         passportHash := _passportHash;
         emergencyContact := _emergencyContact;
         createdAt := now m;
         updatedAt := now m;
         isActive := true;
         isVerified := false;
         walletAddress := sender m;
         roles := roles old ++ _roles |} in
    let s1 :=
      {| owner := owner s;
         idCounter := newId;
         walletToIdentity := <[sender m := newId]> (walletToIdentity s);
         identities := <[newId := newIdentity]> (identities s);
         emailToIdentity := <[_email := newId]> (emailToIdentity s);
         aadhaarToIdentity :=
           (if nonempty _aadhaarHash
            then <[_aadhaarHash := newId]> (aadhaarToIdentity s)
            else aadhaarToIdentity s);
         passportToIdentity :=
           (if nonempty _passportHash
            then <[_passportHash := newId]> (passportToIdentity s)
            else passportToIdentity s);
         events := events s |} in
    Success tt (emit s1 (IdentityCreated newId (sender m) _name _email (now m))).

(** The modifiers, in the order the functions list them. *)
Definition onlyIdentityOwner (m : Msg) (_id : N) (s : State) : bool :=
  walletAddress (identityAt s _id) =? sender m.
Definition identityExists (_id : N) (s : State) : bool :=
  negb (walletAddress (identityAt s _id) =? 0).
Definition onlyOwner (m : Msg) (s : State) : bool :=
  sender m =? owner s.

Definition withEmail (x : Identity) (_name _email _nationality _emergencyContact : string)
           (t : N) : Identity :=
  {| id := id x;
     name := _name;
     email := _email;
     nationality := _nationality;
     aadhaarHash := aadhaarHash x;
     passportHash := passportHash x;
     emergencyContact := _emergencyContact;
     createdAt := createdAt x;
     updatedAt := t;
     isActive := isActive x;
     isVerified := isVerified x;
     walletAddress := walletAddress x;
     roles := roles x |}.

Definition setEmails (s : State) (em : gmap string N) : State :=
  {| owner := owner s;
     idCounter := idCounter s;
     walletToIdentity := walletToIdentity s;
     identities := identities s;
     emailToIdentity := em;
     aadhaarToIdentity := aadhaarToIdentity s;
     passportToIdentity := passportToIdentity s;
     events := events s |}.

(** [updateIdentity].  The comparison of the two [keccak256] digests is
    modelled as the comparison of the strings. *)
Definition updateIdentity (m : Msg) (_id : N)
           (_name _email _nationality _emergencyContact : string)
           (s : State) : tx unit :=
  if negb (onlyIdentityOwner m _id s) then Revert "Not identity owner"
  else if negb (identityExists _id s) then Revert "Identity does not exist"
  else
    let identity := identityAt s _id in
    let changed := negb (String.eqb (email identity) _email) in
    if changed && negb (emailId s _email =? 0) then Revert "Email already registered"
    else
      let s1 :=
        if changed
        then setEmails s (<[_email := _id]> (<[email identity := 0]> (emailToIdentity s)))
        else s in
      let s2 :=
        setIdentity s1 _id
          (withEmail identity _name _email _nationality _emergencyContact (now m)) in
      Success tt (emit s2 (IdentityUpdated _id (sender m) (now m))).

Definition withVerified (x : Identity) (v : bool) : Identity :=
  {| id := id x; name := name x; email := email x;
     nationality := nationality x; aadhaarHash := aadhaarHash x;
     passportHash := passportHash x; emergencyContact := emergencyContact x;
     createdAt := createdAt x; updatedAt := updatedAt x;
     isActive := isActive x; isVerified := v;
     walletAddress := walletAddress x; roles := roles x |}.

Definition withActive (x : Identity) (a : bool) : Identity :=
  {| id := id x; name := name x; email := email x;
     nationality := nationality x; aadhaarHash := aadhaarHash x;
     passportHash := passportHash x; emergencyContact := emergencyContact x;
     createdAt := createdAt x; updatedAt := updatedAt x;
     isActive := a; isVerified := isVerified x;
     walletAddress := walletAddress x; roles := roles x |}.

Definition withRoles (x : Identity) (r : list string) : Identity :=
  {| id := id x; name := name x; email := email x;
     nationality := nationality x; aadhaarHash := aadhaarHash x;
     passportHash := passportHash x; emergencyContact := emergencyContact x;
     createdAt := createdAt x; updatedAt := updatedAt x;
     isActive := isActive x; isVerified := isVerified x;
     walletAddress := walletAddress x; roles := r |}.

(** [verifyIdentity] *)
Definition verifyIdentity (m : Msg) (_id : N) (s : State) : tx unit :=
  if negb (onlyOwner m s) then Revert "Not the owner"
  else if negb (identityExists _id s) then Revert "Identity does not exist"
  else
    let s1 := setIdentity s _id (withVerified (identityAt s _id) true) in
    Success tt (emit s1 (IdentityVerified _id (sender m) (now m))).

(** [deactivateIdentity] *)
Definition deactivateIdentity (m : Msg) (_id : N) (s : State) : tx unit :=
  if negb (onlyIdentityOwner m _id s) then Revert "Not identity owner"
  else if negb (identityExists _id s) then Revert "Identity does not exist"
  else
    let s1 := setIdentity s _id (withActive (identityAt s _id) false) in
    Success tt (emit s1 (IdentityDeactivated _id (sender m) (now m))).

(** [addRole] *)
Definition addRole (m : Msg) (_id : N) (_role : string) (s : State) : tx unit :=
  if negb (onlyIdentityOwner m _id s) then Revert "Not identity owner"
  else if negb (identityExists _id s) then Revert "Identity does not exist"
  else
    let x := identityAt s _id in
    let s1 := setIdentity s _id (withRoles x (roles x ++ [_role])) in
    Success tt (emit s1 (RoleAdded _id _role (now m))).

(** [roles.pop()] *)
Definition pop (l : list string) : list string := removelast l.

(** [removeRole]: overwrite position [_roleIndex] with the last
    element, pop, then read position [_roleIndex] again for the
    event; that read is bounds-checked against the shortened array. *)
Definition removeRole (m : Msg) (_id : N) (_roleIndex : nat) (s : State)
  : tx unit :=
  if negb (onlyIdentityOwner m _id s) then Revert "Not identity owner"
  else if negb (identityExists _id s) then Revert "Identity does not exist"
  else
    let x := identityAt s _id in
    if negb (Nat.ltb _roleIndex (length (roles x))) then Revert "Invalid role index"
    else
      match roles x !! (length (roles x) - 1)%nat with
      | None => Panic 0x32
      | Some lastRole =>
          let swapped := <[_roleIndex := lastRole]> (roles x) in
          let popped := pop swapped in
          match popped !! _roleIndex with
          | None => Panic 0x32
          | Some reported =>
              let s1 := setIdentity s _id (withRoles x popped) in
              Success tt (emit s1 (RoleRemoved _id reported (now m)))
          end
      end.

(** Views. *)
Definition getIdentityByWallet (_walletAddress : address) (s : State)
  : tx Identity :=
  let i := walletId s _walletAddress in
  if i =? 0 then Revert "Identity not found"
  else Success (identityAt s i) s.

Definition getIdentityById (_id : N) (s : State) : tx Identity :=
  if negb (identityExists _id s) then Revert "Identity does not exist"
  else Success (identityAt s _id) s.

Definition hasIdentity (_walletAddress : address) (s : State) : bool :=
  negb (walletId s _walletAddress =? 0).

Definition getTotalIdentities (s : State) : N := idCounter s.

Definition getIdentityRoles (_id : N) (s : State) : tx (list string) :=
  if negb (identityExists _id s) then Revert "Identity does not exist"
  else Success (roles (identityAt s _id)) s.

Definition hasRole (_id : N) (_role : string) (s : State) : tx bool :=
  if negb (identityExists _id s) then Revert "Identity does not exist"
  else Success (existsb (String.eqb _role) (roles (identityAt s _id))) s.

(** The externally callable, state-changing functions. *)
Inductive Call : Type :=
| CreateIdentity (_name _email _nationality _aadhaarHash _passportHash
                    _emergencyContact : string) (_roles : list string)
| UpdateIdentity (_id : N) (_name _email _nationality _emergencyContact : string)
| VerifyIdentity (_id : N)
| DeactivateIdentity (_id : N)
| AddRole (_id : N) (_role : string)
| RemoveRole (_id : N) (_roleIndex : nat).

Definition exec (m : Msg) (c : Call) (s : State) : tx unit :=
  match c with
  | CreateIdentity n e na a p ec r => createIdentity m n e na a p ec r s
  | UpdateIdentity i n e na ec => updateIdentity m i n e na ec s
  | VerifyIdentity i => verifyIdentity m i s
  | DeactivateIdentity i => deactivateIdentity m i s
  | AddRole i r => addRole m i r s
  | RemoveRole i k => removeRole m i k s
  end.

(** The state after a transaction: a revert or panic changes nothing. *)
Definition after (m : Msg) (c : Call) (s : State) : State :=
  match exec m c s with
  | Success _ s' => s'
  | _ => s
  end.

(** A history of transactions applied to a state, oldest first. *)
Fixpoint run (h : list (Msg * Call)) (s : State) : State :=
  match h with
  | [] => s
  | (m, c) :: r => run r (after m c s)
  end.

End DigitalIDContract.

(* ===================================================================== *)
(** ** [BlockchainService.ts] and [DigitalIDService.ts]                   *)
(* ===================================================================== *)

Module Service.

Import DigitalIDContract.

(** [IdentityData]: the contract's struct as the services see it.
    Dates are milliseconds since the epoch. *)
Record IdentityData : Type := mkIdentityData {
  d_id : N;
  d_name : string;
  d_email : string;
  d_nationality : string;
  d_aadhaarHash : string;
  d_passportHash : string;
  d_emergencyContact : string;
  d_createdAt : N;
  d_updatedAt : N;
  d_isActive : bool;
  d_isVerified : bool;
  d_walletAddress : string;
  d_roles : list string
}.

Fixpoint hex_digits (k : nat) (x : N) : string :=
  match k with
  | O => EmptyString
  | S j => String (hex_digit (N.land (N.shiftr x (4 * N.of_nat j)) 0xF))
                  (hex_digits j x)
  end.

(** How the provider renders an address: [0x] and forty hexadecimal
    digits.  (The letter case the provider picks is not modelled;
    lower case is used throughout.) *)
Definition addressString (a : address) : string :=
  String "0" (String "x" (hex_digits 40 a)).

Fixpoint hex_number (s : string) (acc : N) : option N :=
  match s with
  | EmptyString => Some acc
  | String c r =>
      match Json.hex_value c with
      | Some v => hex_number r (acc * 16 + N.of_nat v)%N
      | None => None
      end
  end.

(** How the provider reads an address argument. *)
Definition parseAddress (w : string) : option address :=
  if Regex.test Regex.wallet_re w then
    match w with
    | String _ (String _ digits) => hex_number digits 0%N
    | _ => None
    end
  else None.

(** [mapContractIdentityToData] *)
Definition mapContractIdentityToData (x : Identity) : IdentityData :=
  {| d_id := id x;
     d_name := name x;
     d_email := email x;
     d_nationality := nationality x;
     d_aadhaarHash := aadhaarHash x;
     d_passportHash := passportHash x;
     d_emergencyContact := emergencyContact x;
     d_createdAt := (createdAt x * 1000)%N;
     d_updatedAt := (updatedAt x * 1000)%N;
     d_isActive := isActive x;
     d_isVerified := isVerified x;
     d_walletAddress := addressString (walletAddress x);
     d_roles := roles x |}.

Inductive VerificationStatus : Type := pending | approved | rejected.

(** [IdentityVerification]: an entry of the verification queue. *)
Record IdentityVerification : Type := mkVerification {
  identityId : N;
  verifierAddress : string;
  verificationDate : N;
  status : VerificationStatus
}.

(** [CreateIdentityRequest] *)
Record CreateIdentityRequest : Type := mkCreateRequest {
  rq_name : string;
  rq_email : string;
  rq_nationality : string;
  rq_aadhaarHash : string;
  rq_passportHash : string;
  rq_emergencyContact : string;
  rq_roles : list string
}.

(** [UpdateIdentityRequest] *)
Record UpdateIdentityRequest : Type := mkUpdateRequest {
  up_name : string;
  up_email : string;
  up_nationality : string;
  up_emergencyContact : string
}.

(** The service object: the contract it talks to (every transaction is
    signed by the one wallet the service was constructed with) and its
    in-process verification queue. *)
Record State : Type := mkState {
  contract : DigitalIDContract.State;
  signer : address;
  contractAddress : string;
  verificationQueue : gmap N IdentityVerification
}.

(** What a call reads from outside: the timestamp of the block its
    transaction lands in, the transaction hash of the receipt, and the
    process clock ([new Date()]). *)
Record Env : Type := mkEnv {
  blockTime : N;
  receiptHash : string;
  clock : N
}.

Definition setContract (s : State) (c : DigitalIDContract.State) : State :=
  {| contract := c;
     signer := signer s;
     contractAddress := contractAddress s;
     verificationQueue := verificationQueue s |}.

Definition setQueue (s : State) (q : gmap N IdentityVerification) : State :=
  {| contract := contract s;
     signer := signer s;
     contractAddress := contractAddress s;
     verificationQueue := q |}.

Definition msgOf (s : State) (e : Env) : Msg :=
  {| sender := signer s; now := blockTime e |}.

(** The message of the error a failed transaction raises. *)
Definition txError {A} (t : tx A) : string :=
  match t with
  | Success _ _ => ""
  | Revert reason => "execution reverted: " ++ reason
  | Panic _ => "execution reverted: Panic"
  end.

(** A [BlockchainService] write: send the transaction, wait for the
    receipt, return its hash; a failure is rethrown with [prefix]. *)
Definition send (prefix : string) (c : Call) (e : Env) (s : State)
  : outcome string * State :=
  match exec (msgOf s e) c (contract s) with
  | Success _ c' => (Done (receiptHash e), setContract s c')
  | t => (Thrown (prefix ++ txError t), s)
  end.

(** [BlockchainService.getIdentityById]: [null] when the contract says
    the identity does not exist. *)
Definition getIdentityById (i : N) (s : State) : outcome (option IdentityData) :=
  match DigitalIDContract.getIdentityById i (contract s) with
  | Success x _ => Done (Some (mapContractIdentityToData x))
  | Revert "Identity does not exist" => Done None
  | t => Thrown ("Failed to fetch identity: " ++ txError t)
  end.

(** [BlockchainService.getIdentityByWallet] *)
Definition getIdentityByWallet (w : string) (s : State)
  : outcome (option IdentityData) :=
  match parseAddress w with
  | None => Thrown "Failed to fetch identity: invalid address"
  | Some a =>
      match DigitalIDContract.getIdentityByWallet a (contract s) with
      | Success x _ => Done (Some (mapContractIdentityToData x))
      | Revert "Identity not found" => Done None
      | t => Thrown ("Failed to fetch identity: " ++ txError t)
      end
  end.

(** [hashData] *)
Definition hashData (d : string) : string := Sha256.hex d.

Definition rethrow {A} (prefix : string) (r : outcome A * State)
  : outcome A * State :=
  match r with
  | (Thrown msg, s) => (Thrown (prefix ++ msg), s)
  | _ => r
  end.

(** [createDigitalIdentity] *)
Definition createDigitalIdentity (rq : CreateIdentityRequest) (w : string)
           (e : Env) (s : State) : outcome (IdentityData * string) * State :=
  rethrow "Failed to create digital identity: "
    (let aadhaar := if String.eqb (rq_aadhaarHash rq) "" then ""
                    else hashData (rq_aadhaarHash rq) in
     let passport := if String.eqb (rq_passportHash rq) "" then ""
                     else hashData (rq_passportHash rq) in
     match send "Blockchain transaction failed: "
             (CreateIdentity (rq_name rq) (rq_email rq) (rq_nationality rq)
                aadhaar passport (rq_emergencyContact rq) (rq_roles rq)) e s with
     | (Done txHash, s1) =>
         match getIdentityByWallet w s1 with
         | Done (Some ident) =>
             let entry := {| identityId := d_id ident;
                             verifierAddress := "";
                             verificationDate := clock e;
                             status := pending |} in
             (Done (ident, txHash),
              setQueue s1 (<[d_id ident := entry]> (verificationQueue s1)))
         | Done None => (Thrown "Failed to retrieve created identity", s1)
         | Thrown msg => (Thrown msg, s1)
         | OutOfFuel => (OutOfFuel, s1)
         end
     | (Thrown msg, s1) => (Thrown msg, s1)
     | (OutOfFuel, s1) => (OutOfFuel, s1)
     end).

(** The ownership check shared by the mutating methods. *)
Definition checkOwner (i : N) (w : string) (s : State) : outcome unit :=
  match getIdentityById i s with
  | Done (Some existing) =>
      if String.eqb (d_walletAddress existing) w then Done tt
      else Thrown "Unauthorized: Not the identity owner"
  | Done None => Thrown "Unauthorized: Not the identity owner"
  | Thrown msg => Thrown msg
  | OutOfFuel => OutOfFuel
  end.

(** [updateDigitalIdentity] *)
Definition updateDigitalIdentity (i : N) (rq : UpdateIdentityRequest)
           (w : string) (e : Env) (s : State)
  : outcome (IdentityData * string) * State :=
  rethrow "Failed to update digital identity: "
    (match checkOwner i w s with
     | Done _ =>
         match send "Blockchain transaction failed: "
                 (UpdateIdentity i (up_name rq) (up_email rq)
                    (up_nationality rq) (up_emergencyContact rq)) e s with
         | (Done txHash, s1) =>
             match getIdentityById i s1 with
             | Done (Some ident) => (Done (ident, txHash), s1)
             | Done None => (Thrown "Failed to retrieve updated identity", s1)
             | Thrown msg => (Thrown msg, s1)
             | OutOfFuel => (OutOfFuel, s1)
             end
         | (Thrown msg, s1) => (Thrown msg, s1)
         | (OutOfFuel, s1) => (OutOfFuel, s1)
         end
     | Thrown msg => (Thrown msg, s)
     | OutOfFuel => (OutOfFuel, s)
     end).

(** [verifyDigitalIdentity]: the transaction, then the queue entry of
    [id], if there is one, is marked approved with the verifier and
    the current date. *)
Definition verifyDigitalIdentity (i : N) (verifier : string)
           (e : Env) (s : State) : outcome string * State :=
  rethrow "Failed to verify digital identity: "
    (match send "Failed to verify identity: " (VerifyIdentity i) e s with
     | (Done txHash, s1) =>
         match verificationQueue s1 !! i with
         | Some verification =>
             let v := {| identityId := identityId verification;
                         verifierAddress := verifier;
                         verificationDate := clock e;
                         status := approved |} in
             (Done txHash, setQueue s1 (<[i := v]> (verificationQueue s1)))
         | None => (Done txHash, s1)
         end
     | r => r
     end).

(** [deactivateDigitalIdentity] *)
Definition deactivateDigitalIdentity (i : N) (w : string) (e : Env) (s : State)
  : outcome string * State :=
  rethrow "Failed to deactivate digital identity: "
    (match checkOwner i w s with
     | Done _ => send "Failed to deactivate identity: " (DeactivateIdentity i) e s
     | Thrown msg => (Thrown msg, s)
     | OutOfFuel => (OutOfFuel, s)
     end).

(** [addRoleToIdentity] *)
Definition addRoleToIdentity (i : N) (r : string) (w : string) (e : Env) (s : State)
  : outcome string * State :=
  rethrow "Failed to add role: "
    (match checkOwner i w s with
     | Done _ => send "Failed to add role: " (AddRole i r) e s
     | Thrown msg => (Thrown msg, s)
     | OutOfFuel => (OutOfFuel, s)
     end).

(** [removeRoleFromIdentity] *)
Definition removeRoleFromIdentity (i : N) (roleIndex : nat) (w : string)
           (e : Env) (s : State) : outcome string * State :=
  rethrow "Failed to remove role: "
    (match checkOwner i w s with
     | Done _ => send "Failed to remove role: " (RemoveRole i roleIndex) e s
     | Thrown msg => (Thrown msg, s)
     | OutOfFuel => (OutOfFuel, s)
     end).

(** [getVerificationQueue] *)
Definition getVerificationQueue (s : State) : list IdentityVerification :=
  map snd (map_to_list (verificationQueue s)).

(** *** QR data of an identity *)

Definition qrObject (ident : IdentityData) (s : State) (iso : string) : json :=
  JObj [("id", JNum (Z.of_N (d_id ident)));
        ("name", JStr (d_name ident));
        ("email", JStr (d_email ident));
        ("walletAddress", JStr (d_walletAddress ident));
        ("isVerified", JBool (d_isVerified ident));
        ("roles", JArr (map JStr (d_roles ident)));
        ("contractAddress", JStr (contractAddress s));
        ("timestamp", JStr iso)].

(** [generateQRCodeData]; [iso] is [new Date().toISOString()]. *)
Definition generateQRCodeData (ident : IdentityData) (s : State)
           (iso : string) : string :=
  stringify (qrObject ident s iso).

(** [{ valid, identity? }] *)
Record QRValidation : Type := mkQRValidation {
  valid : bool;
  identity : option IdentityData
}.

Definition invalid : QRValidation := {| valid := false; identity := None |}.

(** [data.k] on a parsed value other than [null]. *)
Definition prop (data : json) (k : string) : option json :=
  match data with
  | JObj kv => Json.assoc k kv
  | _ => None
  end.

(** How the provider encodes a JavaScript value as a [uint256]
    argument: a non-negative integer, or a string of decimal digits;
    anything else makes the call throw. *)
Definition toUint256 (v : json) : option N :=
  match v with
  | JNum z => if (0 <=? z)%Z && (z <=? Z.of_N uint256_max)%Z
              then Some (Z.to_N z) else None
  | JStr t =>
      match NilZero.uint_of_string t with
      | Some d => if (N.of_uint d <=? uint256_max)%N
                  then Some (N.of_uint d) else None
      | None => None
      end
  | _ => None
  end.

(** [x !== w] for a parsed value [x] and a string [w]. *)
Definition isString (x : option json) (w : string) : bool :=
  match x with
  | Some (JStr t) => String.eqb t w
  | _ => false
  end.

(** [validateQRCodeData]: everything thrown inside is caught and
    answered with [{ valid: false }]. *)
Definition validateQRCodeData (qrData : string) (s : State) : QRValidation :=
  match Json.parse qrData with
  | None => invalid
  | Some JNull => invalid
  | Some data =>
      if Json.falsy (prop data "id") || Json.falsy (prop data "walletAddress")
      then invalid
      else
        match prop data "id" with
        | Some idv =>
            match toUint256 idv with
            | Some i =>
                match getIdentityById i s with
                | Done (Some found) =>
                    if isString (prop data "walletAddress") (d_walletAddress found)
                    then {| valid := true; identity := Some found |}
                    else invalid
                | _ => invalid
                end
            | None => invalid
            end
        | None => invalid
        end
  end.

(** *** The read-only methods: every error is caught and answered with
    a default *)

(** [getDigitalIdentity] *)
Definition getDigitalIdentity (w : string) (s : State) : option IdentityData :=
  match getIdentityByWallet w s with
  | Done x => x
  | _ => None
  end.

(** [getDigitalIdentityById] *)
Definition getDigitalIdentityById (i : N) (s : State) : option IdentityData :=
  match getIdentityById i s with
  | Done x => x
  | _ => None
  end.

(** [hasDigitalIdentity] *)
Definition hasDigitalIdentity (w : string) (s : State) : bool :=
  match parseAddress w with
  | Some a => hasIdentity a (contract s)
  | None => false
  end.

(** [getDigitalIdentityRoles] *)
Definition getDigitalIdentityRoles (i : N) (s : State) : list string :=
  match getIdentityRoles i (contract s) with
  | Success r _ => r
  | _ => []
  end.

(** [hasDigitalIdentityRole] *)
Definition hasDigitalIdentityRole (i : N) (r : string) (s : State) : bool :=
  match hasRole i r (contract s) with
  | Success b _ => b
  | _ => false
  end.

End Service.

(* ===================================================================== *)
(** ** [qrService.ts]: the QR token codec                                 *)
(* ===================================================================== *)

Module QRService.

(** [type: 'digital_id' | 'wallet' | 'transaction'] *)
Inductive QRType : Type := digital_id | wallet | transaction.

Definition typeName (t : QRType) : string :=
  match t with
  | digital_id => "digital_id"
  | wallet => "wallet"
  | transaction => "transaction"
  end.

(** [interface QRCodeData]; [data] is [None] when the property is
    [undefined]. *)
Record QRCodeData : Type := mkQRCodeData {
  userId : string;
  walletAddress : string;
  timestamp : N;
  type : QRType;
  data : option json
}.

(** The object of the token as a JSON value: an [undefined] property
    has no place in it. *)
Definition toJson (x : QRCodeData) : json :=
  JObj ([("userId", JStr (userId x));
         ("walletAddress", JStr (walletAddress x));
         ("timestamp", JNum (Z.of_N (timestamp x)));
         ("type", JStr (typeName (type x)))]
        ++ match data x with
           | Some d => [("data", d)]
           | None => []
           end).

(** [JSON.stringify(qrData)], the string the QR image carries. *)
Definition encode (x : QRCodeData) : string := stringify (toJson x).

(** The tokens the three generators build; [now] is [Date.now()]. *)
Definition digitalIDToken (userId walletAddress : string)
           (additionalData : option json) (now : N) : QRCodeData :=
  {| userId := userId; walletAddress := walletAddress; timestamp := now;
     type := digital_id; data := additionalData |}.

Definition walletToken (walletAddress : string) (now : N) : QRCodeData :=
  {| userId := ""; walletAddress := walletAddress; timestamp := now;
     type := wallet; data := None |}.

Definition transactionToken (transactionHash walletAddress : string) (now : N)
  : QRCodeData :=
  {| userId := ""; walletAddress := walletAddress; timestamp := now;
     type := transaction;
     data := Some (JObj [("transactionHash", JStr transactionHash)]) |}.

(** The tokens some generator can build. *)
Inductive constructible : QRCodeData -> Prop :=
| c_digital_id u w d now :
    match d with Some v => Json.wf v = true | None => True end ->
    constructible (digitalIDToken u w d now)
| c_wallet w now : constructible (walletToken w now)
| c_transaction h w now : constructible (transactionToken h w now).

(** [parseQRCode]: [None] is the [null] it returns after catching. *)
Definition parseQRCode (qrString : string) : option json :=
  match Json.parse qrString with
  | None => None
  | Some JNull => None
  | Some qrData =>
      if Json.falsy (Service.prop qrData "userId")
         && Json.falsy (Service.prop qrData "walletAddress")
      then None
      else Some qrData
  end.

End QRService.

(* ===================================================================== *)
(** * Properties                                                          *)
(* ===================================================================== *)

(** ** SHA-256 test vectors (FIPS 180-4) *)

Example sha256_constants :
  length Sha256.K = 64%nat /\ length Sha256.H0 = 8%nat
  /\ hd 0%N Sha256.K = 0x428a2f98%N /\ last Sha256.K = Some 0xc67178f2%N
  /\ hd 0%N Sha256.H0 = 0x6a09e667%N /\ last Sha256.H0 = Some 0x5be0cd19%N.
Proof. vm_compute. repeat split; reflexivity. Qed.

Example sha256_abc :
  Sha256.hex "abc" = "ba7816bf8f01cfea414140de5dae2223b00361a396177a9cb410ff61f20015ad".
Proof. vm_compute. reflexivity. Qed.

Example sha256_empty :
  Sha256.hex "" = "e3b0c44298fc1c149afbf4c8996fb92427ae41e4649b934ca495991b7852b855".
Proof. vm_compute. reflexivity. Qed.

Example sha256_two_blocks :
  Sha256.hex "abcdbcdecdefdefgefghfghighijhijkijkljklmklmnlmnomnopnopq"
  = "248d6a61d20638b8e5c026930c3e6039a33ce45964ff2167f6ecedd419db06c1".
Proof. vm_compute. reflexivity. Qed.


(** ** The patterns of the durable schema, on a few strings *)

Example email_pattern :
  Regex.test Regex.email_re "asha@x.com" = true
  /\ Regex.test Regex.email_re "a.b-c@mail.example.in" = true
  /\ Regex.test Regex.email_re "asha@x" = false
  /\ Regex.test Regex.email_re "asha..b@x.com" = false
  /\ Regex.test Regex.email_re "@x.com" = false
  /\ Regex.test Regex.email_re "asha@x.company" = false.
Proof. vm_compute. repeat split; reflexivity. Qed.

Example wallet_pattern :
  Regex.test Regex.wallet_re "0xAAAAAAAAAAAAAAAAAAAAAAAAAAAAAAAAAAAAAAA1" = true
  /\ Regex.test Regex.wallet_re "0xAAA1" = false
  /\ Regex.test Regex.wallet_re "AAAAAAAAAAAAAAAAAAAAAAAAAAAAAAAAAAAAAAAAA1" = false
  /\ Regex.test Regex.wallet_re "0xGAAAAAAAAAAAAAAAAAAAAAAAAAAAAAAAAAAAAAA1" = false.
Proof. vm_compute. repeat split; reflexivity. Qed.

(** ** Strings *)

Lemma append_assoc (a b c : string) : (a ++ b) ++ c = a ++ (b ++ c).
Proof. induction a as [|x a IH]; simpl; [reflexivity | now rewrite IH]. Qed.

Lemma append_nil_r (a : string) : a ++ "" = a.
Proof. induction a as [|x a IH]; simpl; [reflexivity | now rewrite IH]. Qed.

Lemma length_append (a b : string) :
  String.length (a ++ b) = (String.length a + String.length b)%nat.
Proof. induction a as [|x a IH]; simpl; [reflexivity | now rewrite IH]. Qed.

(** Case analysis on a character by its eight bits. *)
Ltac ascii_cases c :=
  destruct c as [[] [] [] [] [] [] [] []].

(** Right-associate concatenations and push literal prefixes outwards. *)
Ltac str_norm :=
  repeat (progress (simpl String.append; rewrite ?append_assoc)).

(** ** JSON: parsing undoes serialisation *)

Module JsonFacts.

(** An induction principle that reaches inside arrays and objects. *)
Section json_rect.
Variable P : json -> Prop.
Hypothesis Hnull : P JNull.
Hypothesis Hbool : forall b, P (JBool b).
Hypothesis Hnum : forall z, P (JNum z).
Hypothesis Hstr : forall s, P (JStr s).
Hypothesis Harr : forall l, Forall P l -> P (JArr l).
Hypothesis Hobj : forall kv, Forall (fun p => P (snd p)) kv -> P (JObj kv).

Lemma json_nested_ind : forall v, P v.
Proof.
  fix IH 1. intros [ |b|z|s|l|kv].
  - exact Hnull.
  - apply Hbool.
  - apply Hnum.
  - apply Hstr.
  - apply Harr. induction l as [|x r IHr]; constructor; [apply IH | exact IHr].
  - apply Hobj. induction kv as [|[k x] r IHr]; constructor; [apply IH | exact IHr].
Qed.
End json_rect.

Lemma stringify_arr l : stringify (JArr l) = "[" ++ stringify_elems true l.
Proof. reflexivity. Qed.

Lemma stringify_obj kv : stringify (JObj kv) = "{" ++ stringify_members true kv.
Proof. reflexivity. Qed.

(** *** String literals *)

Lemma parse_escape_char c t :
  parse_string_body (escape_char c ++ t) = push_char c (parse_string_body t).
Proof. ascii_cases c; reflexivity. Qed.

Lemma parse_quote_body s rest :
  parse_string_body (quote_body s ++ String dq rest) = Some (s, rest).
Proof.
  induction s as [|c s IH].
  - reflexivity.
  - cbn [quote_body]. rewrite append_assoc, parse_escape_char, IH. reflexivity.
Qed.

Lemma quote_app s rest :
  quote s ++ rest = String dq (quote_body s ++ String dq rest).
Proof. unfold quote. simpl. now rewrite append_assoc. Qed.

(** *** Numbers *)

Fixpoint all_digits (s : string) : bool :=
  match s with
  | EmptyString => true
  | String c r => is_digit c && all_digits r
  end.

(** What may follow a number: anything but a digit. *)
Definition num_end (rest : string) : Prop :=
  match rest with
  | EmptyString => True
  | String c _ => is_digit c = false
  end.

Lemma all_digits_uint d : all_digits (NilEmpty.string_of_uint d) = true.
Proof. induction d; simpl; auto. Qed.

Lemma all_digits_uint0 d : all_digits (NilZero.string_of_uint d) = true.
Proof. destruct d; try apply (all_digits_uint (_ _)); reflexivity. Qed.

Lemma span_digits_app ds rest :
  all_digits ds = true -> num_end rest ->
  span_digits (ds ++ rest) = (ds, rest).
Proof.
  intros Hd Hr. induction ds as [|c ds IH]; simpl in *.
  - destruct rest as [|c r]; simpl in *; [reflexivity | now rewrite Hr].
  - apply andb_true_iff in Hd as [Hc Hd]. now rewrite Hc, IH.
Qed.

Lemma uint0_nonempty d : NilZero.string_of_uint d <> "".
Proof. destruct d; discriminate. Qed.

Lemma to_int_shape z :
  (exists d, Z.to_int z = Decimal.Pos d /\ d <> Decimal.Nil) \/
  (exists d, Z.to_int z = Decimal.Neg d /\ d <> Decimal.Nil).
Proof.
  destruct z as [|p|p]; simpl.
  - left. eexists. split; [reflexivity | discriminate].
  - left. eexists. split; [reflexivity | apply DecimalPos.Unsigned.to_uint_nonnil].
  - right. eexists. split; [reflexivity | apply DecimalPos.Unsigned.to_uint_nonnil].
Qed.

(** The first character of a rendered integer. *)
Definition num_start (c : ascii) : bool := is_digit c || Ascii.eqb c "-".

Lemma Z_to_string_head z :
  exists c t, Z_to_string z = String c t /\ num_start c = true.
Proof.
  unfold Z_to_string.
  destruct (to_int_shape z) as [(d & -> & Hd) | (d & -> & Hd)]; simpl.
  - pose proof (all_digits_uint0 d) as Ha.
    destruct (NilZero.string_of_uint d) as [|c t] eqn:E.
    + now apply uint0_nonempty in E.
    + exists c, t. split; [reflexivity|]. simpl in Ha.
      apply andb_true_iff in Ha as [Hc _]. unfold num_start. now rewrite Hc.
  - eexists _, _. split; reflexivity.
Qed.

Lemma digit_not_minus c : is_digit c = true -> Ascii.eqb c "-" = false.
Proof. ascii_cases c; simpl; intros H; try discriminate H; reflexivity. Qed.

Lemma span_number_Z z rest :
  num_end rest -> span_number (Z_to_string z ++ rest) = (Z_to_string z, rest).
Proof.
  intros Hr. unfold Z_to_string.
  destruct (to_int_shape z) as [(d & -> & Hd) | (d & -> & Hd)]; simpl.
  - pose proof (all_digits_uint0 d) as Ha.
    destruct (NilZero.string_of_uint d) as [|c t] eqn:E.
    + now apply uint0_nonempty in E.
    + pose proof Ha as Ha'. simpl in Ha'. apply andb_true_iff in Ha' as [Hc _].
      cbn [String.append span_number]. rewrite (digit_not_minus _ Hc).
      change (String c (t ++ rest)) with (String c t ++ rest).
      now apply span_digits_app.
  - rewrite span_digits_app; auto using all_digits_uint0.
Qed.

Lemma int_of_string_Z z :
  NilZero.int_of_string (Z_to_string z) = Some (Z.to_int z).
Proof.
  unfold Z_to_string. apply NilZero.isi.
  - destruct (to_int_shape z) as [(d & E & Hd) | (d & E & Hd)]; rewrite E; congruence.
  - destruct (to_int_shape z) as [(d & E & Hd) | (d & E & Hd)]; rewrite E; congruence.
Qed.

Lemma parse_number_Z z rest :
  num_end rest -> parse_number (Z_to_string z ++ rest) = Some (z, rest).
Proof.
  intros Hr. unfold parse_number.
  rewrite span_number_Z by assumption.
  rewrite int_of_string_Z. now rewrite DecimalZ.of_to.
Qed.

(** *** Values *)

Lemma parse_value_S f s :
  parse_value (S f) s =
  match skip_ws s with
  | EmptyString => None
  | String c r =>
      if Ascii.eqb c "n" then
        option_map (fun rest => (JNull, rest)) (strip_prefix "ull" r)
      else if Ascii.eqb c "t" then
        option_map (fun rest => (JBool true, rest)) (strip_prefix "rue" r)
      else if Ascii.eqb c "f" then
        option_map (fun rest => (JBool false, rest)) (strip_prefix "alse" r)
      else if Ascii.eqb c dq then
        match parse_string_body r with
        | Some (b, rest) => Some (JStr b, rest)
        | None => None
        end
      else if Ascii.eqb c "[" then
        match skip_ws r with
        | String c' r' =>
            if Ascii.eqb c' "]" then Some (JArr [], r')
            else parse_elems f r []
        | EmptyString => None
        end
      else if Ascii.eqb c "{" then
        match skip_ws r with
        | String c' r' =>
            if Ascii.eqb c' "}" then Some (JObj [], r')
            else parse_members f r []
        | EmptyString => None
        end
      else
        match parse_number (String c r) with
        | Some (z, rest) => Some (JNum z, rest)
        | None => None
        end
  end.
Proof. reflexivity. Qed.

Lemma parse_elems_S f s acc :
  parse_elems (S f) s acc =
  match parse_value f s with
  | Some (v, rest) =>
      match skip_ws rest with
      | String c r =>
          if Ascii.eqb c "," then parse_elems f r (acc ++ [v])
          else if Ascii.eqb c "]" then Some (JArr (acc ++ [v]), r)
          else None
      | EmptyString => None
      end
  | None => None
  end.
Proof. reflexivity. Qed.

Lemma parse_members_S f s acc :
  parse_members (S f) s acc =
  match skip_ws s with
  | String c0 r0 =>
      if Ascii.eqb c0 dq then
        match parse_string_body r0 with
        | Some (k, rest0) =>
            match skip_ws rest0 with
            | String c1 r1 =>
                if Ascii.eqb c1 ":" then
                  match parse_value f r1 with
                  | Some (v, rest) =>
                      match skip_ws rest with
                      | String c r =>
                          if Ascii.eqb c "," then
                            parse_members f r (obj_set acc k v)
                          else if Ascii.eqb c "}" then
                            Some (JObj (obj_set acc k v), r)
                          else None
                      | EmptyString => None
                      end
                  | None => None
                  end
                else None
            | EmptyString => None
            end
        | None => None
        end
      else None
  | EmptyString => None
  end.
Proof. reflexivity. Qed.

(** The characters a serialised value can begin with. *)
Definition value_start (c : ascii) : bool :=
  num_start c || Ascii.eqb c "n" || Ascii.eqb c "t" || Ascii.eqb c "f"
  || Ascii.eqb c dq || Ascii.eqb c "[" || Ascii.eqb c "{".

Lemma stringify_head v :
  exists c t, stringify v = String c t /\ value_start c = true.
Proof.
  destruct v as [ |[]|z|s|l|kv]; try (eexists _, _; split; reflexivity).
  destruct (Z_to_string_head z) as (c & t & E & Hc).
  exists c, t. split; [exact E|]. unfold value_start. now rewrite Hc.
Qed.

Lemma value_start_facts c :
  value_start c = true ->
  is_ws c = false /\ Ascii.eqb c "]" = false /\ Ascii.eqb c "}" = false.
Proof. ascii_cases c; simpl; intros H; try discriminate H; auto. Qed.

Lemma num_start_facts c :
  num_start c = true ->
  is_ws c = false /\ Ascii.eqb c "n" = false /\ Ascii.eqb c "t" = false
  /\ Ascii.eqb c "f" = false /\ Ascii.eqb c dq = false
  /\ Ascii.eqb c "[" = false /\ Ascii.eqb c "{" = false.
Proof. ascii_cases c; simpl; intros H; try discriminate H; auto 10. Qed.

Lemma skip_ws_stringify v rest :
  skip_ws (stringify v ++ rest) = stringify v ++ rest.
Proof.
  destruct (stringify_head v) as (c & t & -> & Hc).
  apply value_start_facts in Hc as (Hw & _). simpl. now rewrite Hw.
Qed.

Definition elems_fuel (l : list json) : nat :=
  fold_right (fun x n => S (weight x + n)) 0%nat l.

Fixpoint members_fuel (kv : list (string * json)) : nat :=
  match kv with
  | [] => 0
  | (_, x) :: r => S (weight x + members_fuel r)
  end.

Fixpoint members_wf (kv : list (string * json)) : bool :=
  match kv with
  | [] => true
  | (_, x) :: r => wf x && members_wf r
  end.

Lemma size_arr l : weight (JArr l) = S (elems_fuel l).
Proof. reflexivity. Qed.

Lemma size_obj kv : weight (JObj kv) = S (members_fuel kv).
Proof. reflexivity. Qed.

Lemma wf_obj kv : wf (JObj kv) = keys_distinct kv && members_wf kv.
Proof. reflexivity. Qed.

(** One value, serialised and followed by [rest], parses back. *)
Definition parses_back (v : json) : Prop :=
  wf v = true ->
  forall f rest, (weight v <= f)%nat -> num_end rest ->
    parse_value f (stringify v ++ rest) = Some (v, rest).

Lemma num_end_elems r rest : num_end (stringify_elems false r ++ rest).
Proof. destruct r; reflexivity. Qed.

Lemma num_end_members r rest : num_end (stringify_members false r ++ rest).
Proof. destruct r as [|[k x] r]; reflexivity. Qed.

Lemma parse_elems_back r : forall x acc f rest,
  Forall parses_back (x :: r) ->
  forallb wf (x :: r) = true ->
  (elems_fuel (x :: r) <= f)%nat -> num_end rest ->
  parse_elems f (stringify x ++ stringify_elems false r ++ rest) acc
  = Some (JArr (acc ++ x :: r), rest).
Proof.
  induction r as [|y r IH]; intros x acc f rest HP Hwf Hf Hr;
    inversion HP as [|? ? Px HP']; subst;
    cbn [forallb] in Hwf; apply andb_true_iff in Hwf as [Hx Hwf];
    cbn [elems_fuel fold_right] in Hf;
    (destruct f as [|f]; [lia|]); rewrite parse_elems_S.
  - rewrite (Px Hx) by (try reflexivity; lia). reflexivity.
  - rewrite (Px Hx) by (try apply num_end_elems; fold (elems_fuel r) in Hf; lia).
    cbn [stringify_elems comma]. simpl String.append at 1.
    cbn [skip_ws]. change (is_ws ",") with false. cbv iota.
    change (Ascii.eqb "," ",") with true. cbv iota.
    rewrite append_assoc.
    rewrite (IH y (acc ++ [x])%list f rest HP' Hwf); try assumption.
    + now rewrite <- app_assoc.
    + fold (elems_fuel r) in Hf. cbn [elems_fuel fold_right]. fold (elems_fuel r). lia.
Qed.

Lemma keys_distinct_app_cons acc k x r :
  keys_distinct (acc ++ (k, x) :: r) = true ->
  existsb (fun p => String.eqb (fst p) k) acc = false.
Proof.
  induction acc as [|[k' v'] acc IH]; cbn [app keys_distinct existsb fst]; intros H.
  - reflexivity.
  - apply andb_true_iff in H as [Hk Hd].
    rewrite (IH Hd), orb_false_r.
    apply negb_true_iff in Hk. rewrite existsb_app in Hk.
    apply orb_false_iff in Hk as [_ Hk]. cbn [existsb fst] in Hk.
    apply orb_false_iff in Hk as [Hk _]. now rewrite String.eqb_sym.
Qed.

Lemma obj_set_fresh acc k x :
  existsb (fun p => String.eqb (fst p) k) acc = false ->
  obj_set acc k x = (acc ++ [(k, x)])%list.
Proof.
  induction acc as [|[k' v'] acc IH]; cbn [app obj_set existsb fst]; intros H.
  - reflexivity.
  - apply orb_false_iff in H as [Hk H]. rewrite Hk. now rewrite IH.
Qed.

Lemma parse_members_back r : forall k x acc f rest,
  Forall (fun p => parses_back (snd p)) ((k, x) :: r) ->
  members_wf ((k, x) :: r) = true ->
  keys_distinct (acc ++ (k, x) :: r) = true ->
  (members_fuel ((k, x) :: r) <= f)%nat -> num_end rest ->
  parse_members f
    (quote k ++ ":" ++ stringify x ++ stringify_members false r ++ rest) acc
  = Some (JObj (acc ++ (k, x) :: r), rest).
Proof.
  induction r as [|[k' y] r IH]; intros k x acc f rest HP Hwf Hd Hf Hr;
    inversion HP as [|? ? Px HP']; subst; cbn [snd] in Px;
    cbn [members_wf] in Hwf; apply andb_true_iff in Hwf as [Hx Hwf];
    cbn [members_fuel] in Hf;
    (destruct f as [|f]; [lia|]); rewrite parse_members_S;
    rewrite quote_app; cbn [skip_ws]; change (is_ws dq) with false; cbv iota;
    change (Ascii.eqb dq dq) with true; cbv iota;
    rewrite parse_quote_body;
    simpl String.append at 1; cbn [skip_ws]; change (is_ws ":") with false;
    cbv iota; change (Ascii.eqb ":" ":") with true; cbv iota;
    pose proof (obj_set_fresh _ _ x (keys_distinct_app_cons _ _ _ _ Hd)) as Hset.
  - rewrite (Px Hx) by (try reflexivity; lia).
    cbn [stringify_members String.append skip_ws].
    change (is_ws "}") with false. cbv iota.
    change (Ascii.eqb "}" ",") with false. change (Ascii.eqb "}" "}") with true.
    cbv iota. now rewrite Hset.
  - rewrite (Px Hx) by (try reflexivity; lia).
    cbn [skip_ws]. change (is_ws ",") with false. cbv iota.
    change (Ascii.eqb "," ",") with true. cbv iota.
    rewrite Hset.
    transitivity (parse_members f
      (quote k' ++ ":" ++ stringify y ++ stringify_members false r ++ rest)
      (acc ++ [(k, x)])%list).
    { f_equal. unfold quote. now str_norm. }
    rewrite (IH k' y (acc ++ [(k, x)])%list f rest HP' Hwf); try assumption.
    + now rewrite <- app_assoc.
    + now rewrite <- app_assoc.
    + cbn [members_fuel]. lia.
Qed.

Lemma forallb_Forall_wf l : forallb wf l = true -> Forall (fun x => wf x = true) l.
Proof.
  induction l as [|x r IH]; cbn [forallb]; intros H; constructor;
    apply andb_true_iff in H as [? ?]; auto.
Qed.

Lemma parse_arr_open f x u :
  parse_value (S f) (String "[" (stringify x ++ u))
  = parse_elems f (stringify x ++ u) [].
Proof.
  rewrite parse_value_S.
  destruct (stringify_head x) as (c & t & -> & Hc).
  apply value_start_facts in Hc as (Hw & Hb & _).
  simpl. now rewrite Hw, Hb.
Qed.

Lemma parse_obj_open f k u :
  parse_value (S f) (String "{" (quote k ++ u))
  = parse_members f (quote k ++ u) [].
Proof. rewrite parse_value_S. reflexivity. Qed.

Theorem parse_value_stringify v : parses_back v.
Proof.
  induction v as [ |b|z|s|l IHl|kv IHkv] using json_nested_ind;
    intros Hwf f rest Hf Hr; (destruct f as [|f]; [cbn in Hf; lia|]).
  - reflexivity.
  - destruct b; reflexivity.
  - rewrite parse_value_S.
    destruct (Z_to_string_head z) as (c & t & E & Hc).
    pose proof (parse_number_Z z rest Hr) as Hn. cbn [stringify].
    rewrite E in *. simpl String.append in *. cbn [skip_ws].
    apply num_start_facts in Hc as (-> & -> & -> & -> & -> & -> & ->).
    now rewrite Hn.
  - rewrite parse_value_S. cbn [stringify]. rewrite quote_app.
    cbn [skip_ws]. change (is_ws dq) with false. cbv iota.
    change (Ascii.eqb dq "n") with false. change (Ascii.eqb dq "t") with false.
    change (Ascii.eqb dq "f") with false. change (Ascii.eqb dq dq) with true.
    cbv iota. now rewrite parse_quote_body.
  - rewrite stringify_arr. rewrite size_arr in Hf.
    destruct l as [|x r]; [reflexivity|].
    cbn [stringify_elems comma]. str_norm.
    rewrite parse_arr_open.
    apply (parse_elems_back r x [] f rest IHl); [exact Hwf | lia | exact Hr].
  - rewrite stringify_obj. rewrite size_obj in Hf.
    rewrite wf_obj in Hwf. apply andb_true_iff in Hwf as [Hd Hwf].
    destruct kv as [|[k x] r]; [reflexivity|].
    cbn [stringify_members comma].
    change ("{" ++ ?a) with (String "{" a).
    change ("" ++ ?a) with a.
    change (String "{" ?a ++ rest) with (String "{" (a ++ rest)).
    rewrite !append_assoc.
    rewrite parse_obj_open.
    apply (parse_members_back r k x [] f rest IHkv); [exact Hwf | exact Hd | lia | exact Hr].
Qed.

(** *** The fuel [parse] supplies is enough *)

Lemma elems_length l :
  Forall (fun x => (weight x <= String.length (stringify x))%nat) l ->
  (S (elems_fuel l) <= String.length (stringify_elems false l))%nat.
Proof.
  induction 1 as [|x r Hx _ IH]; cbn [stringify_elems elems_fuel fold_right comma].
  - simpl. lia.
  - fold (elems_fuel r). rewrite !length_append. simpl String.length. lia.
Qed.

Lemma members_length kv :
  Forall (fun p => (weight (snd p) <= String.length (stringify (snd p)))%nat) kv ->
  (S (members_fuel kv) <= String.length (stringify_members false kv))%nat.
Proof.
  induction 1 as [|[k x] r Hx _ IH]; cbn [stringify_members members_fuel comma snd] in *.
  - simpl. lia.
  - rewrite !length_append. simpl String.length. lia.
Qed.

Lemma size_le_length v : (weight v <= String.length (stringify v))%nat.
Proof.
  induction v as [ |b|z|s|l IHl|kv IHkv] using json_nested_ind.
  - simpl. lia.
  - destruct b; simpl; lia.
  - destruct (Z_to_string_head z) as (c & t & E & _). cbn [stringify weight].
    rewrite E. simpl. lia.
  - cbn [stringify weight]. unfold quote. simpl. lia.
  - rewrite stringify_arr, size_arr. destruct l as [|x r]; [simpl; lia|].
    inversion IHl as [|? ? Hx Hr]; subst.
    pose proof (elems_length r Hr).
    cbn [stringify_elems elems_fuel fold_right comma]. fold (elems_fuel r).
    simpl String.append. simpl String.length. rewrite length_append. lia.
  - rewrite stringify_obj, size_obj. destruct kv as [|[k x] r]; [simpl; lia|].
    inversion IHkv as [|? ? Hx Hr]; subst. cbn [snd] in Hx.
    pose proof (members_length r Hr).
    cbn [stringify_members members_fuel comma].
    simpl String.append. simpl String.length. rewrite !length_append.
    simpl String.length. rewrite ?length_append. lia.
Qed.

(** [JSON.parse(JSON.stringify(v))] gives [v] back. *)
Theorem parse_stringify v : wf v = true -> Json.parse (stringify v) = Some v.
Proof.
  intros Hwf. unfold Json.parse.
  pose proof (parse_value_stringify v Hwf (S (String.length (stringify v))) "") as H.
  rewrite append_nil_r in H. rewrite H.
  - reflexivity.
  - pose proof (size_le_length v). lia.
  - exact I.
Qed.

(** A text with escapes, identified by its digest, and its round trip. *)
Example stringify_digest :
  Sha256.hex (stringify
    (JObj [("a", JArr [JNum 1; JNum (-20); JBool true; JNull]);
           ("b", JStr (String "x" (String (ascii_of_nat 10)
                   (String "y" (String dq (String "z" (String bslash "")))))))]))
  = "d97114ba53fc0785eed941754d88b31db187f0d3b094512c22c24de3c8708083".
Proof. vm_compute. reflexivity. Qed.

Example parse_with_spaces :
  Json.parse (String "[" " 1 , [ ] ,
   { } , null ]") = Some (JArr [JNum 1; JArr []; JObj []; JNull]).
Proof. vm_compute. reflexivity. Qed.

End JsonFacts.

(** ** The contract: frame lemmas and the invariant of reachable states *)

Module ContractFacts.

Import DigitalIDContract.
Local Open Scope N_scope.

Lemma identityAt_emit s e j : identityAt (emit s e) j = identityAt s j.
Proof. reflexivity. Qed.

Lemma identityAt_setEmails s em j : identityAt (setEmails s em) j = identityAt s j.
Proof. reflexivity. Qed.

Lemma identityAt_set_eq s i x : identityAt (setIdentity s i x) i = x.
Proof. unfold identityAt, setIdentity. simpl. now rewrite lookup_insert_eq. Qed.

Lemma identityAt_set_ne s i x j :
  i <> j -> identityAt (setIdentity s i x) j = identityAt s j.
Proof.
  intros H. unfold identityAt, setIdentity. simpl. now rewrite lookup_insert_ne.
Qed.

Lemma events_emit s e : events (emit s e) = (events s ++ [e])%list.
Proof. reflexivity. Qed.

(** What a transaction may do to one slot of [identities]: it keeps the
    slot's [id] and owner, and never switches [isActive] back on. *)
Definition slot_step (x x' : Identity) : Prop :=
  id x' = id x /\ walletAddress x' = walletAddress x
  /\ (isActive x = false -> isActive x' = false).

Lemma slot_step_refl x : slot_step x x.
Proof. repeat split; auto. Qed.

(** The owner and existence guards both passed. *)
Definition guards (m : Msg) (i : N) (s : State) : bool :=
  onlyIdentityOwner m i s && identityExists i s.

Ltac pass H :=
  match type of H with
  | (if negb ?b then _ else _) = _ =>
      let E := fresh "G" in destruct b eqn:E; cbn [negb] in H; [|discriminate H]
  end.

(** Either the transaction touched existing slots only, each by a
    [slot_step], or it was a [createIdentity] that filled the next
    fresh slot. *)
Lemma exec_frame m c s s' :
  exec m c s = Success tt s' ->
  (idCounter s' = idCounter s
   /\ forall j, slot_step (identityAt s j) (identityAt s' j))
  \/ (idCounter s' = idCounter s + 1 /\ idCounter s <> uint256_max
      /\ id (identityAt s' (idCounter s')) = idCounter s'
      /\ forall j, j <> idCounter s' -> identityAt s' j = identityAt s j).
Proof.
  destruct c as [n e na a p ec r|i n e na ec|i|i|i r|i k]; cbn [exec]; intros H.
  - right. unfold createIdentity in H.
    repeat pass H.
    destruct (idCounter s =? uint256_max) eqn:Emax; [discriminate|].
    apply N.eqb_neq in Emax.
    injection H as <-. cbn [emit idCounter]. split; [reflexivity|].
    split; [exact Emax|]. split.
    + unfold identityAt. cbn. now rewrite lookup_insert_eq.
    + intros j Hj. unfold identityAt. cbn. now rewrite lookup_insert_ne.
  - left. unfold updateIdentity in H. repeat pass H. cbv zeta in H.
    destruct (negb (String.eqb (email (identityAt s i)) e));
      [destruct (negb (emailId s e =? 0)); [discriminate|] |];
      cbn [andb] in H; injection H as <-; (split; [reflexivity|]);
      intros j; rewrite identityAt_emit;
      (destruct (N.eq_dec i j) as [->|Hij];
       [rewrite identityAt_set_eq; repeat split; auto
       |rewrite identityAt_set_ne by assumption; apply slot_step_refl]).
  - left. unfold verifyIdentity in H. repeat pass H.
    injection H as <-. split; [reflexivity|].
    intros j. rewrite identityAt_emit.
    destruct (N.eq_dec i j) as [->|Hij].
    + rewrite identityAt_set_eq. repeat split; auto.
    + rewrite identityAt_set_ne by assumption. apply slot_step_refl.
  - left. unfold deactivateIdentity in H. repeat pass H.
    injection H as <-. split; [reflexivity|].
    intros j. rewrite identityAt_emit.
    destruct (N.eq_dec i j) as [->|Hij].
    + rewrite identityAt_set_eq. repeat split; auto.
    + rewrite identityAt_set_ne by assumption. apply slot_step_refl.
  - left. unfold addRole in H. repeat pass H.
    injection H as <-. split; [reflexivity|].
    intros j. rewrite identityAt_emit.
    destruct (N.eq_dec i j) as [->|Hij].
    + rewrite identityAt_set_eq. repeat split; auto.
    + rewrite identityAt_set_ne by assumption. apply slot_step_refl.
  - left. unfold removeRole in H. repeat pass H.
    destruct (_ !! _) as [lastRole|] in H; [|discriminate].
    destruct (_ !! _) as [reported|] in H; [|discriminate].
    injection H as <-. split; [reflexivity|].
    intros j. rewrite identityAt_emit.
    destruct (N.eq_dec i j) as [->|Hij].
    + rewrite identityAt_set_eq. repeat split; auto.
    + rewrite identityAt_set_ne by assumption. apply slot_step_refl.
Qed.

(** *** Reachable states *)

(** The states the contract can be in: deployed, then any history of
    transactions. *)
Definition reachable (s : State) : Prop :=
  exists m0 h, s = run h (deploy m0).

(** Every existing identity sits in the slot of its own [id], and ids
    run from 1 to the counter. *)
Definition inv (s : State) : Prop :=
  idCounter s <= uint256_max
  /\ forall j, walletAddress (identityAt s j) <> 0 ->
               id (identityAt s j) = j /\ 1 <= j <= idCounter s.

Lemma inv_deploy m0 : inv (deploy m0).
Proof.
  split.
  - cbn. unfold uint256_max. lia.
  - intros j H. unfold identityAt in H. cbn in H.
    rewrite lookup_empty in H. now cbn in H.
Qed.

Lemma inv_exec m c s s' : inv s -> exec m c s = Success tt s' -> inv s'.
Proof.
  intros [Hmax Hinv] H.
  destruct (exec_frame _ _ _ _ H) as [[Hc Hs] | (Hc & Hne & Hid & Hs)].
  - split; [now rewrite Hc|].
    intros j Hj. destruct (Hs j) as (Ei & Ew & _).
    rewrite Ew in Hj. rewrite Ei, Hc. now apply Hinv.
  - split; [lia|].
    intros j Hj. destruct (N.eq_dec j (idCounter s')) as [->|Hjc].
    + split; [exact Hid | lia].
    + rewrite (Hs j Hjc) in *. destruct (Hinv j Hj). split; [assumption | lia].
Qed.

Lemma inv_after m c s : inv s -> inv (after m c s).
Proof.
  intros H. unfold after. destruct (exec m c s) as [[] s'| |] eqn:E; [|assumption..].
  eapply inv_exec; eauto.
Qed.

Lemma inv_run h : forall s, inv s -> inv (run h s).
Proof.
  induction h as [|[m c] h IH]; intros s H; cbn [run]; [assumption|].
  apply IH, inv_after, H.
Qed.

Lemma reachable_inv s : reachable s -> inv s.
Proof. intros (m0 & h & ->). apply inv_run, inv_deploy. Qed.

Lemma run_app h1 h2 s : run (h1 ++ h2) s = run h2 (run h1 s).
Proof. revert s. induction h1 as [|[m c] h1 IH]; intros s; cbn; auto. Qed.

Lemma reachable_run h s : reachable s -> reachable (run h s).
Proof. intros (m0 & h0 & ->). exists m0, (h0 ++ h)%list. now rewrite run_app. Qed.

(** *** Deactivation *)

Definition is_success {A} (t : tx A) : bool :=
  match t with Success _ _ => true | _ => false end.

(** An existing identity that is inactive stays so, whatever follows. *)
Lemma inactive_after m c s i :
  inv s -> walletAddress (identityAt s i) <> 0 ->
  isActive (identityAt s i) = false ->
  walletAddress (identityAt (after m c s) i) <> 0
  /\ isActive (identityAt (after m c s) i) = false.
Proof.
  intros [Hmax Hinv] Hw Ha. unfold after.
  destruct (exec m c s) as [[] s'| |] eqn:E; [|now split..].
  destruct (exec_frame _ _ _ _ E) as [[Hc Hs] | (Hc & Hne & Hid & Hs)].
  - destruct (Hs i) as (_ & Ew & Hact). rewrite Ew. auto.
  - destruct (Hinv i Hw) as [_ Hi].
    rewrite (Hs i) by lia. auto.
Qed.

Lemma inactive_run h : forall s i,
  inv s -> walletAddress (identityAt s i) <> 0 ->
  isActive (identityAt s i) = false ->
  isActive (identityAt (run h s) i) = false.
Proof.
  induction h as [|[m c] h IH]; intros s i Hinv Hw Ha; cbn [run]; [assumption|].
  destruct (inactive_after m c s i Hinv Hw Ha) as [Hw' Ha'].
  apply IH; auto using inv_after.
Qed.

(** Two states that agree on everything a guard reads. *)
Definition agree (s s1 : State) : Prop :=
  owner s1 = owner s
  /\ idCounter s1 = idCounter s
  /\ walletToIdentity s1 = walletToIdentity s
  /\ emailToIdentity s1 = emailToIdentity s
  /\ forall j, walletAddress (identityAt s1 j) = walletAddress (identityAt s j)
               /\ email (identityAt s1 j) = email (identityAt s j)
               /\ roles (identityAt s1 j) = roles (identityAt s j).

Lemma agree_success m c s s1 :
  agree s s1 -> is_success (exec m c s1) = is_success (exec m c s).
Proof.
  intros (Ho & Hc & Hw & He & Hs).
  assert (Hown : forall j, onlyIdentityOwner m j s1 = onlyIdentityOwner m j s)
    by (intros j; unfold onlyIdentityOwner; now destruct (Hs j) as (-> & _)).
  assert (Hex : forall j, identityExists j s1 = identityExists j s)
    by (intros j; unfold identityExists; now destruct (Hs j) as (-> & _)).
  assert (Hwi : forall a, walletId s1 a = walletId s a)
    by (intros a; unfold walletId; now rewrite Hw).
  assert (Hei : forall e, emailId s1 e = emailId s e)
    by (intros e; unfold emailId; now rewrite He).
  destruct c as [n e na a p ec r|i n e na ec|i|i|i r|i k]; cbn [exec].
  - unfold createIdentity. rewrite Hwi, Hei, Hc. repeat case_match; reflexivity.
  - unfold updateIdentity. rewrite Hown, Hex, Hei.
    destruct (Hs i) as (_ & -> & _). repeat case_match; reflexivity.
  - unfold verifyIdentity, onlyOwner. rewrite Hex, Ho. repeat case_match; reflexivity.
  - unfold deactivateIdentity. rewrite Hown, Hex. repeat case_match; reflexivity.
  - unfold addRole. rewrite Hown, Hex. repeat case_match; reflexivity.
  - unfold removeRole. rewrite Hown, Hex.
    destruct (Hs i) as (_ & _ & ->). repeat case_match; reflexivity.
Qed.

Lemma deactivate_agree m i s s1 :
  deactivateIdentity m i s = Success tt s1 -> agree s s1.
Proof.
  unfold deactivateIdentity. intros H. repeat pass H. injection H as <-.
  repeat split; try reflexivity; rewrite identityAt_emit;
    (destruct (N.eq_dec i j) as [->|Hij];
     [now rewrite identityAt_set_eq | now rewrite identityAt_set_ne]).
Qed.

Lemma deactivate_inactive m i s s1 :
  deactivateIdentity m i s = Success tt s1 ->
  walletAddress (identityAt s1 i) <> 0 /\ isActive (identityAt s1 i) = false.
Proof.
  unfold deactivateIdentity. intros H. repeat pass H. injection H as <-.
  rewrite identityAt_emit, identityAt_set_eq. cbn. split; [|reflexivity].
  unfold identityExists in G0. apply negb_true_iff, N.eqb_neq in G0. exact G0.
Qed.

(** A registry with one identity, used in the examples below. *)
Definition deployer : Msg := {| sender := 1; now := 1000 |}.
Definition asha : Msg := {| sender := 0xAAA1; now := 2000 |}.
Definition registry0 : State := deploy deployer.
Definition registry1 : State :=
  after asha (CreateIdentity "Asha" "asha@x.com" "IN" "" "" "112" ["tourist"; "guide"])
        registry0.
Definition registry1_off : State := after asha (DeactivateIdentity 1) registry1.

Lemma reachable_registry1 : reachable registry1.
Proof.
  exists deployer,
    [(asha, CreateIdentity "Asha" "asha@x.com" "IN" "" "" "112" ["tourist"; "guide"])].
  reflexivity.
Qed.

(** C4 (as stated, refuted): after a successful [deactivateIdentity],
    [updateIdentity] on the same id is not rejected; it succeeds and
    rewrites the record. *)
Lemma C4_update_after_deactivate_succeeds :
  deactivateIdentity asha 1 registry1 = Success tt registry1_off
  /\ exists s3,
       updateIdentity asha 1 "Renamed" "other@x.com" "IN" "112" registry1_off
       = Success tt s3
       /\ name (identityAt registry1_off 1) = "Asha"
       /\ name (identityAt s3 1) = "Renamed".
Proof.
  split; [vm_compute; reflexivity|].
  eexists. split; [vm_compute; reflexivity|]. split; vm_compute; reflexivity.
Qed.

(** C4 (amended): once [deactivateIdentity] has succeeded on an
    identity of a reachable registry, its [isActive] flag is false and
    stays false under every later history of transactions; and no
    operation is rejected because of the deactivation: every call
    succeeds after it exactly when it would have succeeded without it. *)
Theorem C4_deactivation_is_final_but_blocks_nothing m i s s1 :
  reachable s ->
  deactivateIdentity m i s = Success tt s1 ->
  (forall h, isActive (identityAt (run h s1) i) = false)
  /\ (forall m' c, is_success (exec m' c s1) = is_success (exec m' c s)).
Proof.
  intros Hr H. split.
  - intros h. destruct (deactivate_inactive _ _ _ _ H) as [Hw Ha].
    apply inactive_run; auto.
    apply reachable_inv in Hr. eapply (inv_exec m (DeactivateIdentity i)); eauto.
  - intros m' c. apply agree_success. eapply deactivate_agree; eauto.
Qed.

Lemma C4_deactivation_witness :
  (forall h, isActive (identityAt (run h registry1_off) 1) = false)
  /\ (forall m' c, is_success (exec m' c registry1_off)
                   = is_success (exec m' c registry1)).
Proof.
  apply (C4_deactivation_is_final_but_blocks_nothing asha 1 registry1 registry1_off).
  - exact reachable_registry1.
  - vm_compute. reflexivity.
Defined.

(** *** Creation and uniqueness *)

Lemma create_sets_email m n e na a p ec r s s' :
  createIdentity m n e na a p ec r s = Success tt s' ->
  emailId s' e = idCounter s + 1 /\ walletId s' (sender m) = idCounter s + 1.
Proof.
  unfold createIdentity. intros H. repeat pass H.
  destruct (idCounter s =? uint256_max); [discriminate|].
  injection H as <-. unfold emailId, walletId. cbn.
  now rewrite !lookup_insert_eq.
Qed.

Lemma create_dup_wallet m n e na a p ec r s :
  walletId s (sender m) <> 0 ->
  createIdentity m n e na a p ec r s = Revert "Identity already exists".
Proof.
  intros H. unfold createIdentity.
  apply N.eqb_neq in H. now rewrite H.
Qed.

Lemma create_dup_email m n e na a p ec r s :
  walletId s (sender m) = 0 -> emailId s e <> 0 ->
  createIdentity m n e na a p ec r s = Revert "Email already registered".
Proof.
  intros Hw H. unfold createIdentity.
  apply N.eqb_neq in H. now rewrite Hw, H.
Qed.

(** C3 (amended): [createIdentity] reverts with "Identity already
    exists" when the sender's wallet already has an identity, and
    otherwise with "Email already registered" when the e-mail is already
    registered; a revert writes nothing.  In particular, right after a
    successful create, a create with the same e-mail from a wallet
    without an identity reverts with "Email already registered".  No
    content hash is checked. *)
Theorem C3_createIdentity_rejects_taken_wallet_and_email
        m n e na a p ec r s :
  (walletId s (sender m) <> 0 ->
     createIdentity m n e na a p ec r s = Revert "Identity already exists"
     /\ after m (CreateIdentity n e na a p ec r) s = s)
  /\ (walletId s (sender m) = 0 -> emailId s e <> 0 ->
     createIdentity m n e na a p ec r s = Revert "Email already registered"
     /\ after m (CreateIdentity n e na a p ec r) s = s)
  /\ (forall m0 n0 na0 a0 p0 ec0 r0 s0,
        createIdentity m0 n0 e na0 a0 p0 ec0 r0 s0 = Success tt s ->
        walletId s (sender m) = 0 ->
        createIdentity m n e na a p ec r s = Revert "Email already registered").
Proof.
  split; [|split].
  - intros H. unfold after. cbn [exec].
    now rewrite (create_dup_wallet m n e na a p ec r s H).
  - intros Hw H. unfold after. cbn [exec].
    now rewrite (create_dup_email m n e na a p ec r s Hw H).
  - intros m0 n0 na0 a0 p0 ec0 r0 s0 H0 Hw.
    apply create_dup_email; [exact Hw|].
    destruct (create_sets_email _ _ _ _ _ _ _ _ _ _ H0) as [-> _]. lia.
Qed.

Definition bela : Msg := {| sender := 0xBBB2; now := 3000 |}.

Lemma C3_createIdentity_witness :
  createIdentity asha "Asha again" "fresh@x.com" "IN" "" "" "112" [] registry1
  = Revert "Identity already exists"
  /\ createIdentity bela "Bela" "asha@x.com" "IN" "" "" "112" ["tourist"] registry1
     = Revert "Email already registered".
Proof.
  split.
  - apply (proj1 (C3_createIdentity_rejects_taken_wallet_and_email
                    asha "Asha again" "fresh@x.com" "IN" "" "" "112" [] registry1)).
    vm_compute. discriminate.
  - apply (proj2 (proj2 (C3_createIdentity_rejects_taken_wallet_and_email
                    bela "Bela" "asha@x.com" "IN" "" "" "112" ["tourist"] registry1))
             asha "Asha" "IN" "" "" "112" ["tourist"; "guide"] registry0).
    + vm_compute. reflexivity.
    + vm_compute. reflexivity.
Defined.

(** The contract accepts a second identity with the same Aadhaar hash. *)
Lemma create_same_aadhaar_twice :
  exists s1 s2,
    createIdentity asha "Asha" "asha@x.com" "IN" "h1" "" "112" [] registry0
    = Success tt s1
    /\ createIdentity bela "Bela" "bela@x.com" "IN" "h1" "" "112" [] s1
       = Success tt s2
    /\ aadhaarHash (identityAt s2 1) = aadhaarHash (identityAt s2 2).
Proof.
  eexists _, _. split; [vm_compute; reflexivity|].
  split; [vm_compute; reflexivity|]. vm_compute. reflexivity.
Qed.

(** *** Roles *)

Lemma guards_split m i s :
  guards m i s = true ->
  onlyIdentityOwner m i s = true /\ identityExists i s = true.
Proof. unfold guards. intros H. now apply andb_true_iff in H. Qed.

(** C5 (as stated, refuted): adding a role that is already present is
    not a no-op; the role array then holds it twice. *)
Lemma C5_addRole_duplicates_role :
  exists s',
    addRole asha 1 "tourist" registry1 = Success tt s'
    /\ roles (identityAt registry1 1) = ["tourist"; "guide"]
    /\ roles (identityAt s' 1) = ["tourist"; "guide"; "tourist"]
    /\ ~ NoDup (roles (identityAt s' 1)).
Proof.
  eexists. split; [vm_compute; reflexivity|].
  split; [vm_compute; reflexivity|]. split; [vm_compute; reflexivity|].
  intros H. vm_compute in H. apply NoDup_cons_1_1 in H. apply H. set_solver.
Qed.

(** C5 (amended): when the owner and existence checks pass, [addRole]
    always succeeds and appends the role at the end of the role array,
    present or not, so that a role already held appears twice; and
    [removeRole] takes a position, and reverts with "Invalid role
    index" for a position that is not below the array length. *)
Theorem C5_addRole_appends_removeRole_checks_index m i r s :
  guards m i s = true ->
  (exists s',
     addRole m i r s = Success tt s'
     /\ roles (identityAt s' i) = (roles (identityAt s i) ++ [r])%list
     /\ (r ∈ roles (identityAt s i) -> ~ NoDup (roles (identityAt s' i))))
  /\ (forall k, (length (roles (identityAt s i)) <= k)%nat ->
        removeRole m i k s = Revert "Invalid role index").
Proof.
  intros G. apply guards_split in G as [Go Ge]. split.
  - eexists. unfold addRole. rewrite Go, Ge. cbn [negb].
    split; [reflexivity|].
    rewrite identityAt_emit, identityAt_set_eq. cbn [roles withRoles].
    split; [reflexivity|].
    intros Hin Hnd. apply NoDup_app in Hnd as (_ & Hd & _).
    apply (Hd r Hin). set_solver.
  - intros k Hk. unfold removeRole. rewrite Go, Ge. cbn [negb].
    apply Nat.ltb_ge in Hk. now rewrite Hk.
Qed.

Lemma C5_addRole_witness :
  (exists s',
     addRole asha 1 "tourist" registry1 = Success tt s'
     /\ roles (identityAt s' 1) = (roles (identityAt registry1 1) ++ ["tourist"])%list
     /\ ~ NoDup (roles (identityAt s' 1)))
  /\ removeRole asha 1 2 registry1 = Revert "Invalid role index".
Proof.
  destruct (C5_addRole_appends_removeRole_checks_index asha 1 "tourist" registry1)
    as [(s' & Hadd & Hroles & Hdup) Hrem]; [vm_compute; reflexivity|].
  split.
  - exists s'. split; [exact Hadd|]. split; [exact Hroles|].
    apply Hdup. vm_compute. set_solver.
  - apply Hrem. vm_compute. lia.
Defined.

Lemma pop_take (l : list string) : pop l = take (length l - 1) l.
Proof. unfold pop. rewrite removelast_firstn_len. now rewrite Nat.sub_1_r. Qed.





(** On the example registry: removing position 0 ("tourist") leaves
    ["guide"], and the event names "guide". *)
Example removeRole_reports_survivor :
  exists s',
    removeRole asha 1 0 registry1 = Success tt s'
    /\ roles (identityAt s' 1) = ["guide"]
    /\ last (events s') = Some (RoleRemoved 1 "guide" 2000).
Proof. eexists. repeat split; vm_compute; reflexivity. Qed.

End ContractFacts.

(** ** The QR token codec *)

Module QRFacts.

Import QRService.



Lemma toJson_wf x : constructible x -> Json.wf (toJson x) = true.
Proof.
  intros [u w [d|] now0 Hd|w now0|h w now0]; unfold toJson; cbn; try reflexivity.
  now rewrite Hd.
Qed.

Lemma prop_userId x : Service.prop (toJson x) "userId" = Some (JStr (userId x)).
Proof. reflexivity. Qed.

Lemma prop_walletAddress x :
  Service.prop (toJson x) "walletAddress" = Some (JStr (walletAddress x)).
Proof. reflexivity. Qed.

Lemma parseQRCode_encode x :
  constructible x ->
  parseQRCode (encode x) =
  if String.eqb (userId x) "" && String.eqb (walletAddress x) ""
  then None else Some (toJson x).
Proof.
  intros Hc. unfold parseQRCode, encode.
  rewrite (JsonFacts.parse_stringify _ (toJson_wf x Hc)).
  rewrite prop_userId, prop_walletAddress. reflexivity.
Qed.



Definition sampleToken : QRCodeData :=
  digitalIDToken "u1" "0xAAAAAAAAAAAAAAAAAAAAAAAAAAAAAAAAAAAAAAA1"
                 (Some (JObj [("trip", JStr "Kaziranga"); ("days", JNum 3)]))
                 1700000000000.


(** A token whose [userId] and [walletAddress] are both empty is
    rejected. *)
Lemma parseQRCode_both_empty x :
  constructible x -> userId x = "" -> walletAddress x = "" ->
  parseQRCode (encode x) = None.
Proof. intros Hc Hu Hw. rewrite (parseQRCode_encode x Hc), Hu, Hw. reflexivity. Qed.

(** The encoded text of a transaction token, identified by its digest. *)
Example encode_transaction_digest :
  Sha256.hex (encode (transactionToken "0xabc" "0xW" 5))
  = "6f60f94091ed2cba704f9bcc67629a148beb8bd14c29e414f286af4620a8c72c".
Proof. vm_compute. reflexivity. Qed.

End QRFacts.

(** ** The service layer *)

Module ServiceFacts.

Import DigitalIDContract Service ContractFacts.

(** *** Verification *)

Lemma send_done prefix c e s h s1 :
  send prefix c e s = (Done h, s1) ->
  h = receiptHash e
  /\ exists c', exec (msgOf s e) c (contract s) = Success tt c'
                /\ s1 = setContract s c'.
Proof.
  unfold send. destruct (exec _ _ _) as [[] c'| |]; intros H; inversion H.
  split; [reflexivity|]. eauto.
Qed.

Lemma verifyIdentity_success m i c c' :
  verifyIdentity m i c = Success tt c' ->
  onlyOwner m c = true /\ identityExists i c = true
  /\ c' = emit (setIdentity c i (withVerified (identityAt c i) true))
               (IdentityVerified i (sender m) (now m)).
Proof.
  unfold verifyIdentity.
  destruct (onlyOwner m c); [|discriminate].
  destruct (identityExists i c); [|discriminate].
  cbn. intros H. injection H as <-. auto.
Qed.

(** What [verifyDigitalIdentity] does once its transaction went through. *)
Lemma verify_effect i v e s c' :
  exec (msgOf s e) (VerifyIdentity i) (contract s) = Success tt c' ->
  verifyDigitalIdentity i v e s =
  (Done (receiptHash e),
   match verificationQueue s !! i with
   | Some q =>
       setQueue (setContract s c')
         (<[i := {| identityId := identityId q; verifierAddress := v;
                    verificationDate := clock e; status := approved |}]>
            (verificationQueue s))
   | None => setContract s c'
   end).
Proof.
  intros H. unfold verifyDigitalIdentity, send. rewrite H. cbn.
  now destruct (verificationQueue s !! i).
Qed.

Lemma verify_done i v e s h s1 :
  verifyDigitalIdentity i v e s = (Done h, s1) ->
  exists c', exec (msgOf s e) (VerifyIdentity i) (contract s) = Success tt c'.
Proof.
  unfold verifyDigitalIdentity, send.
  destruct (exec _ _ _) as [[] c'| |]; [eauto| |]; cbn; intros H; discriminate H.
Qed.

(** An identity the owner verified once can be verified again. *)
Lemma verify_again i m m' c c' :
  sender m' = sender m ->
  verifyIdentity m i c = Success tt c' ->
  verifyIdentity m' i c'
  = Success tt (emit (setIdentity c' i (withVerified (identityAt c' i) true))
                     (IdentityVerified i (sender m') (now m'))).
Proof.
  intros Hs H. apply verifyIdentity_success in H as (Ho & He & ->).
  unfold verifyIdentity.
  replace (onlyOwner m' _) with true by (unfold onlyOwner in *; now rewrite Hs).
  replace (identityExists i _) with true; [reflexivity|].
  unfold identityExists in *. now rewrite identityAt_emit, identityAt_set_eq.
Qed.

(** A service whose signer deployed the registry, with the identity of
    the signer already created (so that the verification queue holds
    its entry), and the same service after a restart (empty queue). *)
Definition admin : address := 1%N.
Definition adminWallet : string := addressString admin.

Definition service0 : Service.State :=
  {| contract := deploy {| sender := admin; now := 1000 |};
     signer := admin;
     contractAddress := "0xC0FFEE";
     verificationQueue := ∅ |}.

Definition createRequest : CreateIdentityRequest :=
  {| rq_name := "Asha"; rq_email := "asha@x.com"; rq_nationality := "IN";
     rq_aadhaarHash := ""; rq_passportHash := "";
     rq_emergencyContact := "112"; rq_roles := ["tourist"] |}.

Definition service1 : Service.State :=
  snd (createDigitalIdentity createRequest adminWallet
         {| blockTime := 2000; receiptHash := "0xtx1"; clock := 2000500 |} service0).

Definition service1_restarted : Service.State :=
  setQueue service1 ∅.

Definition env2 : Env := {| blockTime := 3000; receiptHash := "0xtx2"; clock := 3000500 |}.
Definition env3 : Env := {| blockTime := 4000; receiptHash := "0xtx3"; clock := 4000500 |}.

Example service1_queue :
  verificationQueue service1 !! 1%N
  = Some {| identityId := 1; verifierAddress := "";
            verificationDate := 2000500; status := pending |}.
Proof. vm_compute. reflexivity. Qed.

(** C6 (as stated, refuted): on a service whose queue has no entry for
    the identity, two successful verifications leave no verifier and no
    verification date anywhere. *)
Lemma C6_verify_twice_records_no_verifier :
  exists s1 s2,
    verifyDigitalIdentity 1 "0xV1" env2 service1_restarted = (Done "0xtx2", s1)
    /\ verifyDigitalIdentity 1 "0xV2" env3 s1 = (Done "0xtx3", s2)
    /\ isVerified (identityAt (contract s2) 1) = true
    /\ getVerificationQueue s2 = [].
Proof.
  eexists _, _. split; [vm_compute; reflexivity|].
  split; [vm_compute; reflexivity|]. split; vm_compute; reflexivity.
Qed.

(** C6 (amended): when a first [verifyDigitalIdentity] on an identity
    has succeeded, a second one succeeds too; each call appends its own
    [IdentityVerified] event to the ledger; the identity is verified;
    and if the service's verification queue held an entry for the
    identity, it holds exactly one afterwards, carrying the verifier and
    date of the second call (without such an entry no verifier or date
    is recorded). *)
Theorem C6_verify_twice i v1 v2 e1 e2 s h1 s1 :
  verifyDigitalIdentity i v1 e1 s = (Done h1, s1) ->
  exists s2,
    verifyDigitalIdentity i v2 e2 s1 = (Done (receiptHash e2), s2)
    /\ events (contract s2)
       = (events (contract s)
            ++ [IdentityVerified i (signer s) (blockTime e1);
                IdentityVerified i (signer s) (blockTime e2)])%list
    /\ isVerified (identityAt (contract s2) i) = true
    /\ (forall q, verificationQueue s !! i = Some q ->
          verificationQueue s2 !! i
          = Some {| identityId := identityId q; verifierAddress := v2;
                    verificationDate := clock e2; status := approved |})
    /\ (verificationQueue s !! i = None -> verificationQueue s2 !! i = None).
Proof.
  intros H. destruct (verify_done _ _ _ _ _ _ H) as [c1 Hc1].
  rewrite (verify_effect _ v1 _ _ _ Hc1) in H. injection H as Hh Hs1.
  cbn [exec] in Hc1.
  assert (Hc : contract s1 = c1 /\ signer s1 = signer s)
    by (subst s1; now destruct (verificationQueue s !! i)).
  destruct Hc as [Hc Hsg].
  pose proof (verify_again i (msgOf s e1) (msgOf s1 e2) (contract s) c1) as H2.
  cbn [msgOf sender] in H2. specialize (H2 Hsg Hc1).
  eexists. split.
  { apply verify_effect. cbn [exec]. rewrite Hc. exact H2. }
  apply verifyIdentity_success in Hc1 as (_ & _ & Hc1).
  destruct (verificationQueue s !! i) as [q|] eqn:Hq; subst s1; cbn in *.
  - rewrite lookup_insert_eq. cbn.
    rewrite Hc1. cbn. rewrite <- app_assoc.
    repeat split; try reflexivity.
    + unfold identityAt. cbn. now rewrite lookup_insert_eq.
    + intros q' [= <-]. now rewrite lookup_insert_eq.
    + discriminate.
  - rewrite Hq. cbn. rewrite Hc1. cbn. rewrite <- app_assoc.
    repeat split; try reflexivity.
    + unfold identityAt. cbn. now rewrite lookup_insert_eq.
    + discriminate.
    + auto.
Qed.

Definition service2 : Service.State := snd (verifyDigitalIdentity 1 "0xV1" env2 service1).

Lemma C6_verify_twice_witness :
  exists s2,
    verifyDigitalIdentity 1 "0xV2" env3 service2 = (Done "0xtx3", s2)
    /\ events (contract s2)
       = (events (contract service1)
            ++ [IdentityVerified 1 admin 3000; IdentityVerified 1 admin 4000])%list
    /\ isVerified (identityAt (contract s2) 1) = true
    /\ verificationQueue s2 !! 1%N
       = Some {| identityId := 1; verifierAddress := "0xV2";
                 verificationDate := 4000500; status := approved |}.
Proof.
  destruct (C6_verify_twice 1 "0xV1" "0xV2" env2 env3 service1 "0xtx2" service2)
    as (s2 & Hsecond & Hevents & Hverified & Hentry & _);
    [vm_compute; reflexivity|].
  exists s2. split; [exact Hsecond|]. split; [exact Hevents|].
  split; [exact Hverified|].
  apply (Hentry {| identityId := 1; verifierAddress := "";
                   verificationDate := 2000500; status := pending |}).
  vm_compute. reflexivity.
Defined.

(** *** Deactivation through the service *)

(** After [deactivateDigitalIdentity], [updateDigitalIdentity] still
    goes through and returns the rewritten, inactive identity. *)
Example update_after_deactivate_through_service :
  exists s1 s2 updated,
    deactivateDigitalIdentity 1 adminWallet env2 service1 = (Done "0xtx2", s1)
    /\ updateDigitalIdentity 1
         {| up_name := "Renamed"; up_email := "asha@x.com";
            up_nationality := "IN"; up_emergencyContact := "112" |}
         adminWallet env3 s1
       = (Done (updated, "0xtx3"), s2)
    /\ d_name updated = "Renamed" /\ d_isActive updated = false.
Proof.
  eexists _, _, _. split; [vm_compute; reflexivity|].
  split; [vm_compute; reflexivity|]. split; vm_compute; reflexivity.
Qed.

(** *** Role removal through the service *)

(** The only role of an identity cannot be removed: its position is the
    last one, the transaction panics, and the service rethrows. *)
Example removeRoleFromIdentity_only_role :
  d_roles (mapContractIdentityToData (identityAt (contract service1) 1)) = ["tourist"]
  /\ removeRoleFromIdentity 1 0 adminWallet env2 service1
     = (Thrown "Failed to remove role: Failed to remove role: execution reverted: Panic",
        service1).
Proof. split; vm_compute; reflexivity. Qed.

(** *** QR data of an identity *)


Lemma forallb_wf_strings l : forallb Json.wf (map JStr l) = true.
Proof. induction l; cbn; auto. Qed.

Lemma qrObject_wf f s iso : Json.wf (qrObject f s iso) = true.
Proof. unfold qrObject. cbn. now rewrite forallb_wf_strings. Qed.

Lemma parse_generate f s iso :
  Json.parse (generateQRCodeData f s iso) = Some (qrObject f s iso).
Proof. apply JsonFacts.parse_stringify, qrObject_wf. Qed.







Lemma reachable_service1 : reachable (contract service1).
Proof.
  exists {| sender := admin; now := 1000 |},
    [({| sender := admin; now := 2000 |},
      CreateIdentity "Asha" "asha@x.com" "IN" "" "" "112" ["tourist"])].
  vm_compute. reflexivity.
Qed.

Definition storedAsha : IdentityData :=
  mapContractIdentityToData (identityAt (contract service1) 1).


End ServiceFacts.

(** ** The hash chain *)

Module ChainFacts.

Import SimpleBlockchain.
Local Open Scope N_scope.

(** The stored hash is the digest of the block's own fields. *)
Definition hashOk (b : Block) : Prop :=
  hash b = calculateHash (index b) (timestamp b) (data b) (previousHash b) (nonce b).

(** A block with its stored hash, or its payload, overwritten in place. *)
Definition setHash (b : Block) (h : string) : Block :=
  {| index := index b; timestamp := timestamp b; data := data b;
     previousHash := previousHash b; hash := h; nonce := nonce b |}.

Definition setData (b : Block) (d : json) : Block :=
  {| index := index b; timestamp := timestamp b; data := d;
     previousHash := previousHash b; hash := hash b; nonce := nonce b |}.

(** The chains [addBlock] can build from a fresh instance. *)
Inductive built : State -> Prop :=
| built_init t1 t2 : built (init t1 t2)
| built_add s fuel now d b s' :
    built s -> addBlock fuel now d s = Done (b, s') -> built s'.

(** *** Mining *)

Lemma rehash_ok b n : hashOk (rehash b n).
Proof. reflexivity. Qed.

Lemma mineBlock_spec f : forall d b b',
  mineBlock f d b = Some b' -> hashOk b ->
  hashOk b' /\ meetsTarget d (hash b') = true
  /\ index b' = index b /\ timestamp b' = timestamp b
  /\ data b' = data b /\ previousHash b' = previousHash b.
Proof.
  induction f as [|f IH]; intros d b b' H Hok; cbn [mineBlock] in H; [discriminate|].
  destruct (meetsTarget d (hash b)) eqn:E.
  - injection H as <-. auto 10.
  - apply IH in H; [|apply rehash_ok]. cbn [rehash index timestamp data previousHash] in H.
    exact H.
Qed.

(** Mining returns as soon as some nonce at or above the block's own
    gives a digest that meets the target. *)
Lemma mineBlock_returns k : forall d b,
  hashOk b ->
  meetsTarget d (calculateHash (index b) (timestamp b) (data b) (previousHash b)
                               (nonce b + N.of_nat k)) = true ->
  exists b', mineBlock (S k) d b = Some b'.
Proof.
  induction k as [|k IH]; intros d b Hok Hk; cbn [mineBlock].
  - rewrite N.add_0_r, <- Hok in Hk. rewrite Hk. eauto.
  - destruct (meetsTarget d (hash b)); [eauto|].
    apply IH; [apply rehash_ok|].
    cbn [rehash index timestamp data previousHash nonce].
    replace (nonce b + 1 + N.of_nat k) with (nonce b + N.of_nat (S k)) by lia.
    exact Hk.
Qed.

Lemma addBlock_spec fuel now d s b s' :
  addBlock fuel now d s = Done (b, s') ->
  exists tip,
    last (chain s) = Some tip
    /\ index b = index tip + 1 /\ previousHash b = hash tip
    /\ timestamp b = now /\ data b = d
    /\ hashOk b /\ meetsTarget (difficulty s) (hash b) = true
    /\ chain s' = (chain s ++ [b])%list
    /\ difficulty s' = difficulty s.
Proof.
  unfold addBlock. destruct (last (chain s)) as [tip|]; [|discriminate].
  destruct (mineBlock _ _ _) as [mined|] eqn:E; [|discriminate].
  intros H. injection H as <- <-.
  apply mineBlock_spec in E; [|apply rehash_ok].
  cbn [rehash index timestamp data previousHash] in E.
  destruct E as (? & ? & ? & ? & ? & ?). exists tip. cbn. auto 10.
Qed.

(** [addBlock] returns when given enough fuel, provided some nonce
    yields a digest that meets the target. *)
Lemma addBlock_returns now d s tip k :
  last (chain s) = Some tip ->
  meetsTarget (difficulty s)
    (calculateHash (index tip + 1) now d (hash tip) (N.of_nat k)) = true ->
  exists b s', addBlock (S k) now d s = Done (b, s').
Proof.
  intros Ht Hk. unfold addBlock. rewrite Ht.
  destruct (mineBlock_returns k (difficulty s)
              (rehash {| index := index tip + 1; timestamp := now; data := d;
                         previousHash := hash tip; hash := ""; nonce := 0 |} 0))
    as [b' Hb]; [apply rehash_ok | exact Hk |].
  rewrite Hb. eauto.
Qed.

(** *** The invariant of built chains *)

Definition linked (c : list Block) : Prop :=
  forall i b, c !! S i = Some b ->
    hashOk b /\ meetsTarget 2 (hash b) = true
    /\ exists p, c !! i = Some p /\ previousHash b = hash p /\ index b = index p + 1.

Definition chain_inv (s : State) : Prop :=
  difficulty s = 2%nat
  /\ (exists g, chain s !! 0%nat = Some g /\ index g = 0 /\ previousHash g = "0"
                /\ nonce g = 0)
  /\ linked (chain s).

Lemma built_inv s : built s -> chain_inv s.
Proof.
  induction 1 as [t1 t2|s fuel now0 d b s' Hb IH Hadd].
  - split; [reflexivity|]. split.
    + eexists. cbn. eauto.
    + intros i b H. cbn in H. now destruct i.
  - destruct IH as (Hd & (g & Hg & Hg0 & Hg1 & Hg2) & Hl).
    apply addBlock_spec in Hadd
      as (tip & Ht & Hi & Hp & _ & _ & Hok & Hm & Hc & Hd').
    rewrite Hd in Hm. unfold chain_inv. rewrite Hc, Hd'.
    split; [exact Hd|]. split.
    + exists g. rewrite lookup_app_l; [auto|]. eapply lookup_lt_Some; eauto.
    + intros i x Hx.
      rewrite last_lookup in Ht.
      destruct (decide (S i < length (chain s))%nat) as [Hlt|Hge].
      * rewrite lookup_app_l in Hx by assumption.
        destruct (Hl i x Hx) as (? & ? & p & Hpl & ? & ?).
        repeat split; auto. exists p. rewrite lookup_app_l; [auto|].
        eapply lookup_lt_Some; eauto.
      * rewrite lookup_app_r in Hx by lia.
        destruct (S i - length (chain s))%nat as [|n] eqn:En; [|now destruct n].
        cbn in Hx. injection Hx as <-.
        assert (Hlen : length (chain s) = S i)
          by (apply lookup_lt_Some in Hg; lia).
        repeat split; auto. exists tip.
        rewrite lookup_app_l by lia.
        rewrite Hlen in Ht. cbn in Ht. auto.
Qed.

(** *** Validation *)

Lemma linkOk_true c j b p :
  c !! S j = Some b -> c !! j = Some p ->
  hashOk b -> previousHash b = hash p -> linkOk c (S j) = true.
Proof.
  intros Hb Hp Hok Hprev. unfold linkOk.
  replace (S j - 1)%nat with j by lia. rewrite Hb, Hp.
  rewrite <- Hok, Hprev, !String.eqb_refl. reflexivity.
Qed.

Lemma validate_linked c : linked c -> validateChainOf c = true.
Proof.
  intros Hl. unfold validateChainOf. apply List.forallb_forall.
  intros i Hi. apply List.in_seq in Hi.
  destruct i as [|j]; [lia|].
  destruct (lookup_lt_is_Some_2 c (S j)) as [b Hb]; [lia|].
  destruct (Hl j b Hb) as (Hok & _ & p & Hp & Hprev & _).
  eapply linkOk_true; eauto.
Qed.

(** One failing position makes the whole validation fail. *)
Lemma validate_fails c i :
  (1 <= i < length c)%nat -> linkOk c i = false -> validateChainOf c = false.
Proof.
  intros Hi Hf. unfold validateChainOf.
  destruct (forallb (linkOk c) (seq 1 (length c - 1))) eqn:E; [|reflexivity].
  rewrite List.forallb_forall in E. rewrite E in Hf; [discriminate|].
  apply List.in_seq. lia.
Qed.

Lemma tampered_hash_fails c i b h :
  linked c -> c !! i = Some b -> h <> hash b ->
  (1 <= i)%nat \/ (2 <= length c)%nat ->
  validateChainOf (<[i := setHash b h]> c) = false.
Proof.
  intros Hl Hb Hh Hpos. pose proof (lookup_lt_Some _ _ _ Hb) as Hlen.
  destruct i as [|j].
  - destruct Hpos as [Hpos|Hpos]; [lia|].
    destruct (lookup_lt_is_Some_2 c 1) as [b1 Hb1]; [lia|].
    destruct (Hl 0%nat b1 Hb1) as (_ & _ & p & Hp & Hprev & _).
    rewrite Hb in Hp. injection Hp as <-.
    apply (validate_fails _ 1); [rewrite length_insert; lia|].
    unfold linkOk. cbn [Nat.sub].
    rewrite list_lookup_insert_ne by lia. rewrite Hb1.
    rewrite list_lookup_insert_eq by lia. cbn [hash setHash].
    rewrite Hprev. apply not_eq_sym, String.eqb_neq in Hh. rewrite Hh.
    apply andb_false_r.
  - apply (validate_fails _ (S j)); [rewrite length_insert; lia|].
    destruct (Hl j b Hb) as (Hok & _).
    unfold linkOk. rewrite list_lookup_insert_eq by lia.
    destruct (<[S j:=setHash b h]> c !! (S j - 1)%nat); [|reflexivity].
    cbn [hash index timestamp data previousHash nonce setHash].
    rewrite <- Hok. apply String.eqb_neq in Hh. now rewrite Hh.
Qed.

Lemma tampered_data_fails c i b d :
  c !! i = Some b -> (1 <= i)%nat ->
  calculateHash (index b) (timestamp b) d (previousHash b) (nonce b) <> hash b ->
  validateChainOf (<[i := setData b d]> c) = false.
Proof.
  intros Hb Hi Hh. pose proof (lookup_lt_Some _ _ _ Hb) as Hlen.
  apply (validate_fails _ i); [rewrite length_insert; lia|].
  unfold linkOk. rewrite list_lookup_insert_eq by lia.
  destruct (<[i:=setData b d]> c !! (i - 1)%nat); [|reflexivity].
  cbn [hash index timestamp data previousHash nonce setData].
  apply not_eq_sym, String.eqb_neq in Hh. now rewrite Hh.
Qed.

(** *** A ledger with three mined blocks *)

Definition stateOf {A} (o : outcome (A * State)) (s : State) : State :=
  match o with
  | Done (_, s') => s'
  | _ => s
  end.

Definition payload (k : Z) : json := JObj [("n", JNum k)].
Definition ledger0 : State := init 1700000000000 1700000000000.
Definition ledger1 : State := stateOf (addBlock 4 1700000001027 (payload 1) ledger0) ledger0.
Definition ledger2 : State := stateOf (addBlock 4 1700000001187 (payload 2) ledger1) ledger1.
Definition ledger3 : State := stateOf (addBlock 4 1700000001279 (payload 3) ledger2) ledger2.

Example ledger3_hashes :
  map hash (chain ledger3)
  = ["ab8a724b5bbe7eef3405b089227d7407f24227a9e30d692e354b0692a99a311e";
     "00a47778cb97a7a049bb118a04c4a1ff600b7d384053825fa932e0d5f17bf1a6";
     "0077641198d7435879f3aadb6a343b6b45d8731e829bf55d71a13ecda956ef08";
     "005e0782f8ef8cc3df34a47c773a1ba096c9504e1b875f6586a3292f45d7c2cb"]
  /\ map nonce (chain ledger3) = [0; 1; 0; 0].
Proof. vm_compute. split; reflexivity. Qed.

Lemma built_ledger1 : built ledger1.
Proof.
  apply (built_add ledger0 4 1700000001027 (payload 1)
           (default (createGenesisBlock 0 0) (last (chain ledger1))));
    [apply built_init | vm_compute; reflexivity].
Qed.

Lemma built_ledger2 : built ledger2.
Proof.
  apply (built_add ledger1 4 1700000001187 (payload 2)
           (default (createGenesisBlock 0 0) (last (chain ledger2))));
    [apply built_ledger1 | vm_compute; reflexivity].
Qed.

Lemma built_ledger3 : built ledger3.
Proof.
  apply (built_add ledger2 4 1700000001279 (payload 3)
           (default (createGenesisBlock 0 0) (last (chain ledger3))));
    [apply built_ledger2 | vm_compute; reflexivity].
Qed.

(** The blocks of the example ledger, by position. *)
Definition blockAt (s : State) (i : nat) : Block :=
  default (createGenesisBlock 0 0) (chain s !! i).

(** C1 (as stated, refuted): the payload of the genesis block of a
    chain with three appended blocks can be overwritten in place and
    [validateChain] still answers [true]. *)
Lemma C1_tampered_genesis_payload_still_validates :
  built ledger3
  /\ exists g,
       chain ledger3 !! 0%nat = Some g
       /\ data (setData g (JStr "forged")) <> data g
       /\ validateChainOf (<[0%nat := setData g (JStr "forged")]> (chain ledger3)) = true.
Proof.
  split; [exact built_ledger3|].
  eexists. split; [vm_compute; reflexivity|].
  split; [vm_compute; discriminate | vm_compute; reflexivity].
Qed.

(** C1 (amended): every chain built by [addBlock] from the genesis
    block validates.  Overwriting in place the stored hash of a block
    with a different string makes [validateChain] answer [false] when
    the block is not the genesis block or the chain has a second block;
    overwriting the payload of a block other than the genesis block
    makes it answer [false] whenever the digest recomputed from the new
    payload differs from the stored hash. *)
Theorem C1_built_chain_validates_and_detects_tampering s :
  built s ->
  validateChain s = true
  /\ (forall i b h,
        chain s !! i = Some b -> h <> hash b ->
        (1 <= i)%nat \/ (2 <= length (chain s))%nat ->
        validateChainOf (<[i := setHash b h]> (chain s)) = false)
  /\ (forall i b d,
        chain s !! i = Some b -> (1 <= i)%nat ->
        calculateHash (index b) (timestamp b) d (previousHash b) (nonce b) <> hash b ->
        validateChainOf (<[i := setData b d]> (chain s)) = false).
Proof.
  intros Hb. destruct (built_inv s Hb) as (_ & _ & Hl).
  split; [apply validate_linked, Hl|]. split.
  - intros i b h. now apply tampered_hash_fails.
  - intros i b d. apply tampered_data_fails.
Qed.

Lemma C1_validation_witness :
  validateChain ledger3 = true
  /\ validateChainOf (<[2%nat := setHash (blockAt ledger3 2) "00ff"]> (chain ledger3))
     = false
  /\ validateChainOf (<[0%nat := setHash (blockAt ledger3 0) "00ff"]> (chain ledger3))
     = false
  /\ validateChainOf (<[2%nat := setData (blockAt ledger3 2) (payload 99)]> (chain ledger3))
     = false.
Proof.
  destruct (C1_built_chain_validates_and_detects_tampering ledger3 built_ledger3)
    as (Hvalid & Hhash & Hdata).
  split; [exact Hvalid|]. split; [|split].
  - apply Hhash; [vm_compute; reflexivity | vm_compute; discriminate | left; lia].
  - apply Hhash; [vm_compute; reflexivity | vm_compute; discriminate
                 | right; vm_compute; lia].
  - apply Hdata; [vm_compute; reflexivity | lia | vm_compute; discriminate].
Defined.

(** C2 (as stated, refuted): the genesis block is in the chain, and its
    hash does not meet the admission policy (it is never mined). *)
Lemma C2_genesis_hash_misses_the_target :
  built ledger0
  /\ exists g,
       chain ledger0 !! 0%nat = Some g
       /\ meetsTarget (difficulty ledger0) (hash g) = false.
Proof.
  split; [apply built_init|].
  eexists. split; vm_compute; reflexivity.
Qed.

(** The genesis hash is computed from a second reading of the clock. *)
Example genesis_hash_of_later_clock_reading :
  ~ hashOk (createGenesisBlock 1700000000000 1700000000001).
Proof. unfold hashOk. vm_compute. discriminate. Qed.

(** C2 (amended): in every chain built by [addBlock] the difficulty is
    2; every block after the genesis block stores the digest of its own
    fields, and that digest starts with two zero digits; the genesis
    block has index 0, previous hash "0" and nonce 0 and is not mined;
    and a block returned by [addBlock] has the index of the previous
    tip plus one, the previous tip's hash as its previous hash, a hash
    that is the digest of its fields and meets the target, and is the
    new last block. *)
Theorem C2_blocks_of_built_chain s :
  built s ->
  difficulty s = 2%nat
  /\ (forall i b, chain s !! i = Some b -> (1 <= i)%nat ->
        hashOk b /\ meetsTarget 2 (hash b) = true)
  /\ (exists g, chain s !! 0%nat = Some g /\ index g = 0 /\ previousHash g = "0"
                /\ nonce g = 0)
  /\ (forall fuel now d b s',
        addBlock fuel now d s = Done (b, s') ->
        exists tip,
          last (chain s) = Some tip
          /\ index b = index tip + 1 /\ previousHash b = hash tip
          /\ hashOk b /\ meetsTarget 2 (hash b) = true
          /\ chain s' = (chain s ++ [b])%list).
Proof.
  intros Hb. destruct (built_inv s Hb) as (Hd & Hg & Hl).
  split; [exact Hd|]. split; [|split; [exact Hg|]].
  - intros [|j] b Hx Hi; [lia|].
    destruct (Hl j b Hx) as (? & ? & _). auto.
  - intros fuel now0 d b s' H.
    apply addBlock_spec in H as (tip & Ht & Hi & Hp & _ & _ & Hok & Hm & Hc & _).
    rewrite Hd in Hm. exists tip. auto 10.
Qed.

Lemma C2_blocks_witness :
  difficulty ledger2 = 2%nat
  /\ (hashOk (blockAt ledger2 1) /\ meetsTarget 2 (hash (blockAt ledger2 1)) = true)
  /\ (exists g, chain ledger2 !! 0%nat = Some g /\ index g = 0 /\ previousHash g = "0"
                /\ nonce g = 0)
  /\ (exists tip,
        last (chain ledger2) = Some tip
        /\ index (blockAt ledger3 3) = index tip + 1
        /\ previousHash (blockAt ledger3 3) = hash tip
        /\ hashOk (blockAt ledger3 3)
        /\ meetsTarget 2 (hash (blockAt ledger3 3)) = true
        /\ chain ledger3 = (chain ledger2 ++ [blockAt ledger3 3])%list).
Proof.
  destruct (C2_blocks_of_built_chain ledger2 built_ledger2)
    as (Hdiff & Hblocks & Hgenesis & Hadd).
  split; [exact Hdiff|]. split; [|split; [exact Hgenesis|]].
  - apply (Hblocks 1%nat); [vm_compute; reflexivity | lia].
  - apply (Hadd 4%nat 1700000001279 (payload 3)). vm_compute. reflexivity.
Defined.

End ChainFacts.

(** ** The digital-ID store of [simpleBlockchain.ts] *)

Module StoreFacts.

Import SimpleBlockchain ChainFacts.






Definition ashaData : UserData :=
  {| userId := "u1"; name := "Asha"; email := "asha@x.com"; role := "tourist";
     walletAddress := "0xAAAAAAAAAAAAAAAAAAAAAAAAAAAAAAAAAAAAAAA1";
     additionalData := None |}.

Definition ashaOtherWallet : UserData :=
  {| userId := "u2"; name := "Asha B"; email := "asha@x.com"; role := "tourist";
     walletAddress := "0xBBBBBBBBBBBBBBBBBBBBBBBBBBBBBBBBBBBBBBB2";
     additionalData := None |}.

Definition call1 : CallEnv :=
  {| connected := false; nowHash := 1700000001000; nowRecord := 1700000001000;
     nowBlock := 1700000001007; freshId := "id-1"; fuel := 2 |}.

Definition call2 : CallEnv :=
  {| connected := false; nowHash := 1700000002000; nowRecord := 1700000002000;
     nowBlock := 1700000002340; freshId := "id-2"; fuel := 2 |}.

Definition store1 : State := stateOf (createDigitalID call1 ashaData ledger0) ledger0.

(** C3 (as stated, refuted): on the in-memory store, after a
    successful create, a second create with the same e-mail and another
    wallet succeeds and inserts a second record. *)
Lemma C3_second_create_with_same_email_succeeds :
  exists r1 r2 s2,
    createDigitalID call1 ashaData ledger0 = Done (r1, store1)
    /\ createDigitalID call2 ashaOtherWallet store1 = Done (r2, s2)
    /\ did_email r1 = did_email r2
    /\ did_walletAddress r1 <> did_walletAddress r2
    /\ digitalIDs s2 = [r1; r2].
Proof.
  eexists _, _, _. split; [vm_compute; reflexivity|].
  split; [vm_compute; reflexivity|].
  split; [vm_compute; reflexivity|].
  split; [vm_compute; discriminate | vm_compute; reflexivity].
Qed.

(** *** The two backends *)





Definition call4 : CallEnv :=
  {| connected := true; nowHash := 1700000001000; nowRecord := 1700000001000;
     nowBlock := 1700000001007; freshId := "id-1"; fuel := 2 |}.


(** The durable branch lower-cases the e-mail it stores; the in-memory
    branch keeps it as given. *)
Example durable_branch_normalises_email :
  doc_email (applySetters (docOf
     {| userId := "u1"; name := " Asha "; email := "Asha@X.com"; role := "tourist";
        walletAddress := "0xAAAAAAAAAAAAAAAAAAAAAAAAAAAAAAAAAAAAAAA1";
        additionalData := None |} call4 "h")) = "asha@x.com"
  /\ doc_name (applySetters (docOf
     {| userId := "u1"; name := " Asha "; email := "Asha@X.com"; role := "tourist";
        walletAddress := "0xAAAAAAAAAAAAAAAAAAAAAAAAAAAAAAAAAAAAAAA1";
        additionalData := None |} call4 "h")) = "Asha".
Proof. split; vm_compute; reflexivity. Qed.

(** [InMemoryStorage.createDigitalID] replaces an entry stored under the
    same hash, where the durable collection answers a duplicate-key
    error. *)
Lemma in_memory_storage_overwrites_same_hash d1 d2 t1 t2 m :
  InMemoryStorage._id d1 = "" -> InMemoryStorage._id d2 = "" ->
  InMemoryStorage.hash d1 = InMemoryStorage.hash d2 ->
  let m1 := snd (InMemoryStorage.createDigitalID d1 t1 m) in
  let m2 := snd (InMemoryStorage.createDigitalID d2 t2 m1) in
  InMemoryStorage.getDigitalIDCount m2 = InMemoryStorage.getDigitalIDCount m1
  /\ m2 !! InMemoryStorage.hash d1 = Some (fst (InMemoryStorage.createDigitalID d2 t2 m1)).
Proof.
  intros H1 H2 Hh. unfold InMemoryStorage.createDigitalID, InMemoryStorage.getDigitalIDCount.
  rewrite H1, H2, Hh. cbn. split.
  - rewrite map_size_insert, lookup_insert_eq. reflexivity.
  - now rewrite lookup_insert_eq.
Qed.

Lemma durable_store_rejects_same_hash d docs d1 docs1 :
  modelCreate d docs = Done (d1, docs1) ->
  forall d', doc_hash d' = doc_hash d ->
  exists msg, modelCreate d' docs1 = Thrown msg.
Proof.
  unfold modelCreate. destruct (validators (applySetters d)); cbn [negb]; [|discriminate].
  destruct (hashTaken _ docs); [discriminate|].
  intros H d' Hd. injection H as <- <-.
  destruct (validators (applySetters d')); cbn [negb]; [|eauto].
  change (doc_hash (applySetters d')) with (doc_hash d'). rewrite Hd.
  unfold hashTaken. rewrite existsb_app. cbn [existsb].
  change (doc_hash (applySetters d)) with (doc_hash d).
  rewrite String.eqb_refl, orb_true_r. cbn [orb]. eauto.
Qed.

(** *** Verification on the in-memory store *)

(** [verifyDigitalID] marks the record and mints no block. *)
Lemma verifyDigitalID_mints_no_block h s :
  chain (snd (verifyDigitalID h s)) = chain s.
Proof. unfold verifyDigitalID. now destruct (markVerified h (digitalIDs s)) as [[d l]|]. Qed.

End StoreFacts.

(** ** The contract: uniqueness, access control, the event log *)

Module RegistryFacts.

Import DigitalIDContract ContractFacts.
Local Open Scope N_scope.

Lemma setEmails_same s : setEmails s (emailToIdentity s) = s.
Proof. now destruct s. Qed.

Definition exists_at (s : State) (i : N) : Prop :=
  walletAddress (identityAt s i) <> 0.

Lemma identityExists_true i s : identityExists i s = true <-> exists_at s i.
Proof.
  unfold identityExists, exists_at. rewrite negb_true_iff. apply N.eqb_neq.
Qed.

(** *** The shape of a successful transaction *)

(** What a successful [createIdentity] checked and wrote. *)
Lemma createIdentity_success m n e na a p ec r s s' :
  createIdentity m n e na a p ec r s = Success tt s' ->
  walletId s (sender m) = 0 /\ emailId s e = 0 /\ n <> "" /\ e <> ""
  /\ idCounter s <> uint256_max
  /\ idCounter s' = idCounter s + 1
  /\ walletToIdentity s' = <[sender m := idCounter s + 1]> (walletToIdentity s)
  /\ emailToIdentity s' = <[e := idCounter s + 1]> (emailToIdentity s)
  /\ identities s'
     = <[idCounter s + 1 :=
           {| id := idCounter s + 1; name := n; email := e; nationality := na;
              aadhaarHash := a; passportHash := p; emergencyContact := ec;
              createdAt := now m; updatedAt := now m; isActive := true;
              isVerified := false; walletAddress := sender m;
              roles := roles (identityAt s (idCounter s + 1)) ++ r |}]>
         (identities s)
  /\ owner s' = owner s
  /\ events s' = (events s ++ [IdentityCreated (idCounter s + 1) (sender m) n e (now m)])%list.
Proof.
  unfold createIdentity. intros H. repeat pass H.
  destruct (idCounter s =? uint256_max) eqn:Emax; [discriminate|].
  injection H as <-. cbn.
  apply N.eqb_eq in G, G0. apply N.eqb_neq in Emax.
  unfold nonempty in G1, G2. apply negb_true_iff, String.eqb_neq in G1, G2.
  repeat split; auto.
Qed.

(** When [createIdentity] goes through. *)
Lemma createIdentity_ok m n e na a p ec r s :
  walletId s (sender m) = 0 -> emailId s e = 0 -> n <> "" -> e <> "" ->
  idCounter s <> uint256_max ->
  exists s', createIdentity m n e na a p ec r s = Success tt s'.
Proof.
  intros Hw He Hn Hne Hmax. unfold createIdentity.
  rewrite Hw, He. cbn [N.eqb negb].
  apply String.eqb_neq in Hn, Hne. unfold nonempty. rewrite Hn, Hne. cbn [negb].
  apply N.eqb_neq in Hmax. rewrite Hmax. eauto.
Qed.

(** The transactions other than [createIdentity] rewrite one existing
    slot, keep its id, owner and creation date, leave the wallet index
    and the counter alone, and append one event. *)
Definition touches (m : Msg) (c : Call) (s s' : State) (i : N) (x' : Identity) : Prop :=
  exists_at s i
  /\ id x' = id (identityAt s i)
  /\ walletAddress x' = walletAddress (identityAt s i)
  /\ createdAt x' = createdAt (identityAt s i)
  /\ (isVerified (identityAt s i) = true -> isVerified x' = true)
  /\ identities s' = <[i := x']> (identities s)
  /\ idCounter s' = idCounter s
  /\ owner s' = owner s
  /\ walletToIdentity s' = walletToIdentity s
  /\ (exists ev, events s' = (events s ++ [ev])%list)
  /\ ((onlyIdentityOwner m i s = true /\ isVerified x' = isVerified (identityAt s i))
      \/ (onlyOwner m s = true /\ x' = withVerified (identityAt s i) true))
  /\ ((emailToIdentity s' = emailToIdentity s /\ email x' = email (identityAt s i))
      \/ (email x' <> email (identityAt s i) /\ emailId s (email x') = 0
          /\ emailToIdentity s'
             = <[email x' := i]> (<[email (identityAt s i) := 0]> (emailToIdentity s)))).

Lemma exec_shape m c s s' :
  exec m c s = Success tt s' ->
  (exists n e na a p ec r, c = CreateIdentity n e na a p ec r)
  \/ exists i x', touches m c s s' i x'.
Proof.
  destruct c as [n e na a p ec r|i n e na ec|i|i|i r|i k]; cbn [exec]; intros H.
  - left. eauto 10.
  - right. unfold updateIdentity in H. repeat pass H. cbv zeta in H.
    apply identityExists_true in G0.
    exists i, (withEmail (identityAt s i) n e na ec (now m)).
    destruct (negb (String.eqb (email (identityAt s i)) e)) eqn:Ech.
    + destruct (negb (emailId s e =? 0)) eqn:Efree; [discriminate|].
      cbn [andb] in H. injection H as <-.
      apply negb_true_iff, String.eqb_neq in Ech.
      apply negb_false_iff, N.eqb_eq in Efree.
      unfold touches. cbn. split_and!; eauto.
    + cbn [andb] in H. injection H as <-.
      apply negb_false_iff, String.eqb_eq in Ech.
      unfold touches. cbn. split_and!; eauto.
  - right. unfold verifyIdentity in H. repeat pass H. injection H as <-.
    apply identityExists_true in G0.
    exists i, (withVerified (identityAt s i) true).
    unfold touches. cbn. split_and!; eauto.
  - right. unfold deactivateIdentity in H. repeat pass H. injection H as <-.
    apply identityExists_true in G0.
    exists i, (withActive (identityAt s i) false).
    unfold touches. cbn. split_and!; eauto.
  - right. unfold addRole in H. repeat pass H. injection H as <-.
    apply identityExists_true in G0.
    exists i, (withRoles (identityAt s i) (roles (identityAt s i) ++ [r])).
    unfold touches. cbn. split_and!; eauto.
  - right. unfold removeRole in H. repeat pass H.
    destruct (roles (identityAt s i) !! _) as [lastRole|] in H; [|discriminate].
    destruct (pop _ !! k) as [reported|] in H; [|discriminate].
    injection H as <-. apply identityExists_true in G0.
    exists i, (withRoles (identityAt s i)
                 (pop (<[k := lastRole]> (roles (identityAt s i))))).
    unfold touches. cbn. split_and!; eauto.
Qed.

(** *** The invariant of the three indexes *)

Lemma identityAt_insert s s' i x j :
  identities s' = <[i := x]> (identities s) ->
  identityAt s' j = if decide (i = j) then x else identityAt s j.
Proof.
  intros H. unfold identityAt. rewrite H.
  destruct (decide (i = j)) as [->|Hne];
    [now rewrite lookup_insert_eq | now rewrite lookup_insert_ne].
Qed.

Lemma walletId_insert s s' w i v :
  walletToIdentity s' = <[w := i]> (walletToIdentity s) ->
  walletId s' v = if decide (w = v) then i else walletId s v.
Proof.
  intros H. unfold walletId. rewrite H.
  destruct (decide (w = v)) as [->|Hne];
    [now rewrite lookup_insert_eq | now rewrite lookup_insert_ne].
Qed.

Lemma walletId_same s s' v :
  walletToIdentity s' = walletToIdentity s -> walletId s' v = walletId s v.
Proof. intros H. unfold walletId. now rewrite H. Qed.

Lemma emailId_insert s s' e i v :
  emailToIdentity s' = <[e := i]> (emailToIdentity s) ->
  emailId s' v = if decide (e = v) then i else emailId s v.
Proof.
  intros H. unfold emailId. rewrite H.
  destruct (decide (e = v)) as [->|Hne];
    [now rewrite lookup_insert_eq | now rewrite lookup_insert_ne].
Qed.

Lemma emailId_insert2 s s' e1 i1 e2 i2 v :
  emailToIdentity s' = <[e1 := i1]> (<[e2 := i2]> (emailToIdentity s)) ->
  emailId s' v = if decide (e1 = v) then i1
                 else if decide (e2 = v) then i2 else emailId s v.
Proof.
  intros H. unfold emailId. rewrite H.
  destruct (decide (e1 = v)) as [->|Hne]; [now rewrite lookup_insert_eq|].
  rewrite lookup_insert_ne by assumption.
  destruct (decide (e2 = v)) as [->|Hne2];
    [now rewrite lookup_insert_eq | now rewrite lookup_insert_ne].
Qed.

Lemma emailId_same s s' v :
  emailToIdentity s' = emailToIdentity s -> emailId s' v = emailId s v.
Proof. intros H. unfold emailId. now rewrite H. Qed.

Lemma exists_at_stored s j :
  exists_at s j -> exists x, identities s !! j = Some x /\ identityAt s j = x.
Proof.
  unfold exists_at, identityAt. destruct (identities s !! j) as [x|]; cbn; eauto.
  intros H. now contradiction H.
Qed.

(** The registry is consistent: stored identities sit under their own
    id, between 1 and the counter; the wallet index and the e-mail index
    point at the identity that carries the wallet and the e-mail. *)
Definition registry_ok (s : State) : Prop :=
  idCounter s <= uint256_max
  /\ (forall j x, identities s !! j = Some x -> id x = j /\ 1 <= j <= idCounter s)
  /\ (forall w, walletId s w <> 0 ->
        walletAddress (identityAt s (walletId s w)) = w
        /\ 1 <= walletId s w <= idCounter s)
  /\ (forall j, exists_at s j -> walletId s (walletAddress (identityAt s j)) = j)
  /\ (forall j, exists_at s j -> emailId s (email (identityAt s j)) = j).

Lemma registry_ok_deploy m0 : registry_ok (deploy m0).
Proof.
  unfold registry_ok, exists_at, walletId, identityAt. cbn. split_and!.
  - unfold uint256_max. lia.
  - intros j x H. now rewrite lookup_empty in H.
  - intros w H. now rewrite lookup_empty in H.
  - intros j H. now rewrite lookup_empty in H.
  - intros j H. now rewrite lookup_empty in H.
Qed.

Lemma registry_ok_create m n e na a p ec r s s' :
  registry_ok s ->
  createIdentity m n e na a p ec r s = Success tt s' -> registry_ok s'.
Proof.
  intros (Hmax & K1 & K2 & K3 & K4) H.
  apply createIdentity_success in H
    as (Hw & He & _ & _ & Hne & Hc & Hwi & Hei & Hid & _ & _).
  assert (Hold : forall j, exists_at s j -> j <> idCounter s + 1).
  { intros j Hj. apply exists_at_stored in Hj as (x & Hx & _).
    destruct (K1 j x Hx). lia. }
  unfold registry_ok. rewrite Hc. split_and!.
  - lia.
  - intros j x. rewrite Hid.
    destruct (decide (idCounter s + 1 = j)) as [<-|Hj].
    + rewrite lookup_insert_eq. intros [= <-]. cbn. lia.
    + rewrite lookup_insert_ne by assumption. intros Hx.
      destruct (K1 j x Hx). lia.
  - intros w. rewrite (walletId_insert _ _ _ _ w Hwi).
    destruct (decide (sender m = w)) as [<-|Hne'].
    + intros _. rewrite (identityAt_insert _ _ _ _ _ Hid).
      rewrite decide_True by reflexivity. cbn. lia.
    + intros Hnz. destruct (K2 w Hnz) as [Hwa Hr].
      rewrite (identityAt_insert _ _ _ _ _ Hid).
      rewrite decide_False by lia. split; [exact Hwa | lia].
  - intros j. unfold exists_at. rewrite (identityAt_insert _ _ _ _ j Hid).
    destruct (decide (idCounter s + 1 = j)) as [<-|Hj].
    + cbn. intros _. rewrite (walletId_insert _ _ _ _ _ Hwi).
      now rewrite decide_True.
    + intros Hex. rewrite (walletId_insert _ _ _ _ _ Hwi).
      destruct (decide (sender m = walletAddress (identityAt s j))) as [Heq|_].
      * pose proof (K3 j Hex) as Hk. rewrite <- Heq, Hw in Hk.
        apply exists_at_stored in Hex as (x & Hx & _). destruct (K1 j x Hx). lia.
      * now apply K3.
  - intros j. unfold exists_at. rewrite (identityAt_insert _ _ _ _ j Hid).
    destruct (decide (idCounter s + 1 = j)) as [<-|Hj].
    + cbn. intros _. rewrite (emailId_insert _ _ _ _ _ Hei).
      now rewrite decide_True.
    + intros Hex. rewrite (emailId_insert _ _ _ _ _ Hei).
      destruct (decide (e = email (identityAt s j))) as [Heq|_].
      * pose proof (K4 j Hex) as Hk. rewrite <- Heq, He in Hk.
        apply exists_at_stored in Hex as (x & Hx & _). destruct (K1 j x Hx). lia.
      * now apply K4.
Qed.

Lemma registry_ok_touch m c s s' i x' :
  registry_ok s -> touches m c s s' i x' -> registry_ok s'.
Proof.
  intros (Hmax & K1 & K2 & K3 & K4)
         (Hex & Hid' & Hw' & _ & _ & Hid & Hc & _ & Hwi & _ & _ & Hem).
  destruct (exists_at_stored s i Hex) as (x & Hx & Hxi).
  destruct (K1 i x Hx) as [Hxid Hrange].
  unfold registry_ok. rewrite Hc. split_and!.
  - exact Hmax.
  - intros j y. rewrite Hid.
    destruct (decide (i = j)) as [<-|Hj].
    + rewrite lookup_insert_eq. intros [= <-]. rewrite Hid', Hxi. auto.
    + rewrite lookup_insert_ne by assumption. apply K1.
  - intros w. rewrite (walletId_same _ _ w Hwi). intros Hnz.
    destruct (K2 w Hnz) as [Hwa Hr]. split; [|exact Hr].
    rewrite (identityAt_insert _ _ _ _ _ Hid).
    destruct (decide (i = walletId s w)) as [Heq|_]; [|exact Hwa].
    rewrite Hw', Heq. exact Hwa.
  - intros j. unfold exists_at. rewrite (identityAt_insert _ _ _ _ j Hid).
    rewrite (walletId_same _ _ _ Hwi).
    destruct (decide (i = j)) as [<-|Hj].
    + intros _. rewrite Hw'. now apply K3.
    + apply K3.
  - intros j. unfold exists_at. rewrite (identityAt_insert _ _ _ _ j Hid).
    destruct (decide (i = j)) as [<-|Hj].
    + intros _. destruct Hem as [[Hsame Hmail]|(Hdiff & Hfree & Hnew)].
      * rewrite (emailId_same _ _ _ Hsame), Hmail. now apply K4.
      * rewrite (emailId_insert2 _ _ _ _ _ _ _ Hnew). now rewrite decide_True.
    + intros Hj'. destruct Hem as [[Hsame Hmail]|(Hdiff & Hfree & Hnew)].
      * rewrite (emailId_same _ _ _ Hsame). now apply K4.
      * rewrite (emailId_insert2 _ _ _ _ _ _ _ Hnew).
        pose proof (K4 j Hj') as Hkj. pose proof (K4 i Hex) as Hki.
        apply exists_at_stored in Hj' as (y & Hy & _). destruct (K1 j y Hy).
        destruct (decide (email x' = email (identityAt s j))) as [Heq|_];
          [rewrite Heq in Hfree; lia|].
        destruct (decide (email (identityAt s i) = email (identityAt s j))) as [Heq|_];
          [rewrite Heq in Hki; lia | exact Hkj].
Qed.

Lemma registry_ok_exec m c s s' :
  registry_ok s -> exec m c s = Success tt s' -> registry_ok s'.
Proof.
  intros Hok H. destruct (exec_shape _ _ _ _ H) as [(n & e & na & a & p & ec & r & ->)|(i & x' & Ht)].
  - eapply registry_ok_create; eauto.
  - eapply registry_ok_touch; eauto.
Qed.

Lemma registry_ok_run h : forall s, registry_ok s -> registry_ok (run h s).
Proof.
  induction h as [|[m c] h IH]; intros s H; cbn [run]; [assumption|].
  apply IH. unfold after. destruct (exec m c s) as [[] s'| |] eqn:E; [|assumption..].
  eapply registry_ok_exec; eauto.
Qed.

Lemma reachable_registry_ok s : reachable s -> registry_ok s.
Proof. intros (m0 & h & ->). apply registry_ok_run, registry_ok_deploy. Qed.

(** *** Example registries *)

Definition registry2 : State :=
  after bela (CreateIdentity "Bela" "bela@x.com" "IN" "" "" "100" ["police"]) registry1.

Lemma reachable_registry2 : reachable registry2.
Proof.
  exists deployer,
    [(asha, CreateIdentity "Asha" "asha@x.com" "IN" "" "" "112" ["tourist"; "guide"]);
     (bela, CreateIdentity "Bela" "bela@x.com" "IN" "" "" "100" ["police"])].
  reflexivity.
Qed.

(** *** Lookups by wallet *)

(** X1: in every reachable registry, [getIdentityByWallet] answers with
    an identity that carries the wallet asked for; an existing identity
    is the one found under its own wallet; and no two existing
    identities share a wallet. *)
Theorem X1_wallet_index_is_exact s :
  reachable s ->
  (forall w x s', getIdentityByWallet w s = Success x s' -> walletAddress x = w)
  /\ (forall i, exists_at s i ->
        getIdentityByWallet (walletAddress (identityAt s i)) s
        = Success (identityAt s i) s)
  /\ (forall i j, exists_at s i -> exists_at s j -> i <> j ->
        walletAddress (identityAt s i) <> walletAddress (identityAt s j)).
Proof.
  intros Hr. apply reachable_registry_ok in Hr as (Hmax & K1 & K2 & K3 & K4).
  split_and!.
  - intros w x s'. unfold getIdentityByWallet.
    destruct (walletId s w =? 0) eqn:E; [discriminate|].
    apply N.eqb_neq in E. intros H. injection H as <- _. now apply K2.
  - intros i Hi. unfold getIdentityByWallet. rewrite (K3 i Hi).
    apply exists_at_stored in Hi as (x & Hx & _). destruct (K1 i x Hx) as [_ Hrange].
    replace (i =? 0) with false by (symmetry; apply N.eqb_neq; lia). reflexivity.
  - intros i j Hi Hj Hne Heq. apply Hne.
    rewrite <- (K3 i Hi), <- (K3 j Hj). now rewrite Heq.
Qed.

Lemma X1_wallet_index_witness :
  getIdentityByWallet 0xBBB2 registry2 = Success (identityAt registry2 2) registry2
  /\ walletAddress (identityAt registry2 1) <> walletAddress (identityAt registry2 2).
Proof.
  destruct (X1_wallet_index_is_exact registry2 reachable_registry2) as (_ & Hfind & Huniq).
  split.
  - apply (Hfind 2). vm_compute. discriminate.
  - apply Huniq; vm_compute; discriminate.
Defined.

(** *** E-mails *)

(** X2: in every reachable registry no two existing identities carry
    the same e-mail, and the e-mail index maps the e-mail of an existing
    identity to that identity. *)
Theorem X2_emails_are_unique s :
  reachable s ->
  (forall i j, exists_at s i -> exists_at s j -> i <> j ->
     email (identityAt s i) <> email (identityAt s j))
  /\ (forall i, exists_at s i -> emailId s (email (identityAt s i)) = i).
Proof.
  intros Hr. apply reachable_registry_ok in Hr as (Hmax & K1 & K2 & K3 & K4).
  split; [|exact K4].
  intros i j Hi Hj Hne Heq. apply Hne.
  rewrite <- (K4 i Hi), <- (K4 j Hj). now rewrite Heq.
Qed.

Lemma X2_emails_witness :
  email (identityAt registry2 1) <> email (identityAt registry2 2)
  /\ emailId registry2 "bela@x.com" = 2.
Proof.
  destruct (X2_emails_are_unique registry2 reachable_registry2) as (Huniq & Hidx).
  split.
  - apply Huniq; vm_compute; discriminate.
  - apply (Hidx 2). vm_compute. discriminate.
Defined.

(** *** Who may change an identity *)

Lemma create_leaves_existing m n e na a p ec r s s' i :
  registry_ok s -> exists_at s i ->
  createIdentity m n e na a p ec r s = Success tt s' ->
  identityAt s' i = identityAt s i.
Proof.
  intros (_ & K1 & _) Hi H.
  apply createIdentity_success in H as (_ & _ & _ & _ & _ & _ & _ & _ & Hid & _).
  rewrite (identityAt_insert _ _ _ _ i Hid).
  apply exists_at_stored in Hi as (x & Hx & _). destruct (K1 i x Hx).
  rewrite decide_False by lia. reflexivity.
Qed.

(** X3: in a reachable registry, a successful transaction sent by a
    wallet other than an identity's own leaves that identity as it was,
    with one exception: the contract owner may set its verified flag. *)
Theorem X3_only_the_wallet_changes_its_identity m c s s' i :
  reachable s ->
  exec m c s = Success tt s' ->
  exists_at s i ->
  sender m <> walletAddress (identityAt s i) ->
  identityAt s' i = identityAt s i
  \/ (sender m = owner s /\ identityAt s' i = withVerified (identityAt s i) true).
Proof.
  intros Hr H Hi Hne. apply reachable_registry_ok in Hr.
  destruct (exec_shape _ _ _ _ H)
    as [(n & e & na & a & p & ec & r & ->)|(i' & x' & Ht)].
  - left. eapply create_leaves_existing; eauto.
  - destruct Ht as (_ & _ & _ & _ & _ & Hid & _ & _ & _ & _ & Hauth & _).
    rewrite (identityAt_insert _ _ _ _ i Hid).
    destruct (decide (i' = i)) as [->|_]; [|now left].
    destruct Hauth as [[Hown _]|[Hown ->]].
    + unfold onlyIdentityOwner in Hown. apply N.eqb_eq in Hown. congruence.
    + right. unfold onlyOwner in Hown. apply N.eqb_eq in Hown. auto.
Qed.

Lemma X3_access_witness :
  identityAt (after bela (UpdateIdentity 2 "Bela B" "bela@x.com" "IN" "100") registry2) 1
  = identityAt registry2 1.
Proof.
  destruct (X3_only_the_wallet_changes_its_identity bela
              (UpdateIdentity 2 "Bela B" "bela@x.com" "IN" "100") registry2
              (after bela (UpdateIdentity 2 "Bela B" "bela@x.com" "IN" "100") registry2) 1)
    as [Hsame|[Howner _]].
  - exact reachable_registry2.
  - vm_compute. reflexivity.
  - vm_compute. discriminate.
  - vm_compute. discriminate.
  - exact Hsame.
  - vm_compute in Howner. discriminate Howner.
Defined.

(** *** Verification *)

Lemma verified_after m c s i :
  registry_ok s -> exists_at s i -> isVerified (identityAt s i) = true ->
  exists_at (after m c s) i /\ isVerified (identityAt (after m c s) i) = true.
Proof.
  intros Hok Hi Hv. unfold after.
  destruct (exec m c s) as [[] s'| |] eqn:E; [|now split..].
  destruct (exec_shape _ _ _ _ E)
    as [(n & e & na & a & p & ec & r & ->)|(i' & x' & Ht)].
  - cbn [exec] in E. unfold exists_at.
    rewrite (create_leaves_existing _ _ _ _ _ _ _ _ _ _ i Hok Hi E). auto.
  - destruct Ht as (_ & _ & Hw & _ & Hver & Hid & _).
    unfold exists_at. rewrite (identityAt_insert _ _ _ _ i Hid).
    destruct (decide (i' = i)) as [->|_]; [|auto].
    rewrite Hw. auto.
Qed.

(** X4: a verified identity of a reachable registry stays verified
    under every later history of transactions; renaming it, changing
    its e-mail or deactivating it does not take the flag away. *)
Theorem X4_verified_is_permanent s i :
  reachable s -> exists_at s i -> isVerified (identityAt s i) = true ->
  forall h, isVerified (identityAt (run h s) i) = true.
Proof.
  intros Hr Hi Hv h. apply reachable_registry_ok in Hr.
  revert s Hr Hi Hv. induction h as [|[m c] h IH]; intros s Hr Hi Hv; cbn [run].
  - exact Hv.
  - destruct (verified_after m c s i Hr Hi Hv) as [Hi' Hv'].
    apply IH; auto. unfold after.
    destruct (exec m c s) as [[] s'| |] eqn:E; [|assumption..].
    eapply registry_ok_exec; eauto.
Qed.

Definition registry2_verified : State :=
  after deployer (VerifyIdentity 2) registry2.

Lemma X4_verified_witness :
  isVerified
    (identityAt
       (run [(bela, UpdateIdentity 2 "Renamed" "new@x.com" "IN" "100");
             (bela, DeactivateIdentity 2)] registry2_verified) 2) = true.
Proof.
  apply (X4_verified_is_permanent registry2_verified 2).
  - apply (reachable_run [(deployer, VerifyIdentity 2)] registry2 reachable_registry2).
  - vm_compute. discriminate.
  - vm_compute. reflexivity.
Defined.

(** *** A wallet has one identity, for good *)

Lemma walletId_stays m c s w :
  walletId s w <> 0 -> walletId (after m c s) w <> 0.
Proof.
  intros Hw. unfold after.
  destruct (exec m c s) as [[] s'| |] eqn:E; [|assumption..].
  destruct (exec_shape _ _ _ _ E)
    as [(n & e & na & a & p & ec & r & ->)|(i' & x' & Ht)].
  - cbn [exec] in E.
    apply createIdentity_success in E as (_ & _ & _ & _ & _ & _ & Hwi & _).
    rewrite (walletId_insert _ _ _ _ w Hwi).
    destruct (decide (sender m = w)); [lia | exact Hw].
  - destruct Ht as (_ & _ & _ & _ & _ & _ & _ & _ & Hwi & _).
    now rewrite (walletId_same _ _ w Hwi).
Qed.

(** X5: once a wallet has an identity, [createIdentity] from that wallet
    reverts with "Identity already exists" after every later history of
    transactions, deactivation of the identity included. *)
Theorem X5_one_identity_per_wallet_forever s m h n e na a p ec r :
  walletId s (sender m) <> 0 ->
  createIdentity m n e na a p ec r (run h s) = Revert "Identity already exists".
Proof.
  intros Hw. apply create_dup_wallet.
  revert s Hw. induction h as [|[m' c] h IH]; intros s Hw; cbn [run]; [exact Hw|].
  apply IH, walletId_stays, Hw.
Qed.

Lemma X5_one_identity_witness :
  createIdentity asha "Asha again" "again@x.com" "IN" "" "" "112" []
    (run [(asha, DeactivateIdentity 1)] registry1)
  = Revert "Identity already exists".
Proof.
  apply (X5_one_identity_per_wallet_forever registry1 asha [(asha, DeactivateIdentity 1)]).
  vm_compute. discriminate.
Defined.

(** *** The event log and the counter *)

Definition is_created (ev : Event) : bool :=
  match ev with IdentityCreated _ _ _ _ _ => true | _ => false end.

Definition created_count (l : list Event) : N :=
  N.of_nat (length (filter (fun ev => is_created ev = true) l)).

Lemma exec_event m c s s' :
  exec m c s = Success tt s' ->
  exists ev, events s' = (events s ++ [ev])%list
             /\ idCounter s' = idCounter s + (if is_created ev then 1 else 0).
Proof.
  destruct c as [n e na a p ec r|i n e na ec|i|i|i r|i k]; cbn [exec]; intros H.
  - apply createIdentity_success in H
      as (_ & _ & _ & _ & _ & Hc & _ & _ & _ & _ & Hev).
    eexists. split; [exact Hev|]. exact Hc.
  - unfold updateIdentity in H. repeat pass H. cbv zeta in H.
    destruct (negb (String.eqb (email (identityAt s i)) e));
      [destruct (negb (emailId s e =? 0)); [discriminate|] |];
      cbn [andb] in H; injection H as <-; eexists; (split; [reflexivity|]); cbn; lia.
  - unfold verifyIdentity in H. repeat pass H. injection H as <-.
    eexists. split; [reflexivity|]. cbn. lia.
  - unfold deactivateIdentity in H. repeat pass H. injection H as <-.
    eexists. split; [reflexivity|]. cbn. lia.
  - unfold addRole in H. repeat pass H. injection H as <-.
    eexists. split; [reflexivity|]. cbn. lia.
  - unfold removeRole in H. repeat pass H.
    destruct (roles (identityAt s i) !! _) as [lastRole|] in H; [|discriminate].
    destruct (pop _ !! k) as [reported|] in H; [|discriminate].
    injection H as <-. eexists. split; [reflexivity|]. cbn. lia.
Qed.

Lemma after_event m c s :
  exists l, events (after m c s) = (events s ++ l)%list
            /\ (length l <= 1)%nat
            /\ idCounter (after m c s) = idCounter s + created_count l.
Proof.
  unfold after. destruct (exec m c s) as [[] s'| |] eqn:E.
  - destruct (exec_event _ _ _ _ E) as (ev & Hev & Hc).
    exists [ev]. split; [exact Hev|]. split; [cbn; lia|].
    rewrite Hc. unfold created_count. destruct (is_created ev) eqn:Eev; cbn.
    + rewrite decide_True by assumption. reflexivity.
    + rewrite decide_False by congruence. reflexivity.
  - exists []. rewrite app_nil_r. cbn. split; [reflexivity|]. split; [lia|].
    unfold created_count. cbn. lia.
  - exists []. rewrite app_nil_r. cbn. split; [reflexivity|]. split; [lia|].
    unfold created_count. cbn. lia.
Qed.

Lemma created_count_app_list l1 l2 :
  created_count (l1 ++ l2) = created_count l1 + created_count l2.
Proof. unfold created_count. rewrite filter_app, length_app. lia. Qed.

Lemma run_events h : forall s,
  exists l, events (run h s) = (events s ++ l)%list
            /\ (length l <= length h)%nat
            /\ idCounter (run h s) = idCounter s + created_count l.
Proof.
  induction h as [|[m c] h IH]; intros s; cbn [run].
  - exists []. rewrite app_nil_r. unfold created_count. cbn.
    split; [reflexivity|]. split; lia.
  - destruct (after_event m c s) as (l1 & H1 & Hl1 & Hc1).
    destruct (IH (after m c s)) as (l2 & H2 & Hl2 & Hc2).
    exists (l1 ++ l2)%list. rewrite H2, H1, <- app_assoc.
    split; [reflexivity|]. split.
    + rewrite length_app. cbn. lia.
    + rewrite Hc2, Hc1, created_count_app_list. lia.
Qed.

(** X6: the event log only grows, by at most one event per transaction
    (none for a reverted one), and in every reachable registry
    [getTotalIdentities] is the number of [IdentityCreated] events
    logged. *)
Theorem X6_event_log_is_append_only s :
  (forall h, exists l,
      events (run h s) = (events s ++ l)%list /\ (length l <= length h)%nat)
  /\ (reachable s -> getTotalIdentities s = created_count (events s)).
Proof.
  split.
  - intros h. destruct (run_events h s) as (l & H & Hl & _). eauto.
  - intros (m0 & h & ->). destruct (run_events h (deploy m0)) as (l & H & _ & Hc).
    unfold getTotalIdentities. rewrite Hc, H. cbn. reflexivity.
Qed.

Lemma X6_event_log_witness :
  getTotalIdentities registry2_verified = created_count (events registry2_verified).
Proof.
  apply (proj2 (X6_event_log_is_append_only registry2_verified)).
  apply (reachable_run [(deployer, VerifyIdentity 2)] registry2 reachable_registry2).
Defined.

(** *** Ids are dense *)

(** A history in which every transaction has a sender other than the
    zero address (as every real transaction has). *)
Definition real_senders (h : list (Msg * Call)) : Prop :=
  Forall (fun mc => sender (fst mc) <> 0) h.

Lemma dense_after m c s :
  sender m <> 0 -> registry_ok s ->
  (forall j, 1 <= j <= idCounter s -> exists_at s j) ->
  forall j, 1 <= j <= idCounter (after m c s) -> exists_at (after m c s) j.
Proof.
  intros Hm Hok Hd j. unfold after.
  destruct (exec m c s) as [[] s'| |] eqn:E; [|apply Hd..].
  destruct (exec_shape _ _ _ _ E)
    as [(n & e & na & a & p & ec & r & ->)|(i' & x' & Ht)].
  - cbn [exec] in E.
    apply createIdentity_success in E
      as (_ & _ & _ & _ & _ & Hc & _ & _ & Hid & _).
    rewrite Hc. intros Hj. unfold exists_at. rewrite (identityAt_insert _ _ _ _ j Hid).
    destruct (decide (idCounter s + 1 = j)) as [_|Hne]; [exact Hm|].
    apply Hd. lia.
  - destruct Ht as (Hi & _ & Hw & _ & _ & Hid & Hc & _).
    rewrite Hc. intros Hj. unfold exists_at. rewrite (identityAt_insert _ _ _ _ j Hid).
    destruct (decide (i' = j)) as [->|_]; [rewrite Hw; exact Hi | now apply Hd].
Qed.

Lemma dense_run h : forall s,
  real_senders h -> registry_ok s ->
  (forall j, 1 <= j <= idCounter s -> exists_at s j) ->
  forall j, 1 <= j <= idCounter (run h s) -> exists_at (run h s) j.
Proof.
  induction h as [|[m c] h IH]; intros s Hh Hok Hd; cbn [run]; [exact Hd|].
  inversion Hh as [|? ? Hm Hh']; subst. cbn [fst] in Hm.
  apply IH; [exact Hh' | |now apply dense_after].
  apply (registry_ok_run [(m, c)] s Hok).
Qed.

(** X7: after any history of transactions with real senders,
    [getIdentityById] succeeds exactly for the ids from 1 to
    [getTotalIdentities]; for any other id it reverts with "Identity
    does not exist". *)
Theorem X7_ids_run_from_one_to_total m0 h i :
  real_senders h ->
  let s := run h (deploy m0) in
  (1 <= i <= getTotalIdentities s ->
     getIdentityById i s = Success (identityAt s i) s /\ id (identityAt s i) = i)
  /\ (~ (1 <= i <= getTotalIdentities s) ->
     getIdentityById i s = Revert "Identity does not exist").
Proof.
  intros Hh s.
  assert (Hok : registry_ok s) by apply registry_ok_run, registry_ok_deploy.
  assert (Hd : forall j, 1 <= j <= idCounter s -> exists_at s j).
  { apply dense_run; [exact Hh | apply registry_ok_deploy |].
    cbn. intros j Hj. lia. }
  destruct Hok as (_ & K1 & _).
  unfold getIdentityById, getTotalIdentities. split.
  - intros Hi. pose proof (Hd i Hi) as Hex.
    rewrite (proj2 (identityExists_true i s) Hex). cbn [negb].
    split; [reflexivity|].
    apply exists_at_stored in Hex as (x & Hx & ->). now destruct (K1 i x Hx).
  - intros Hi. destruct (identityExists i s) eqn:E; [|reflexivity].
    apply identityExists_true, exists_at_stored in E as (x & Hx & _).
    destruct (K1 i x Hx). contradiction.
Qed.

Lemma X7_ids_witness :
  (getIdentityById 2 registry2 = Success (identityAt registry2 2) registry2
   /\ id (identityAt registry2 2) = 2)
  /\ getIdentityById 3 registry2 = Revert "Identity does not exist".
Proof.
  pose proof (X7_ids_run_from_one_to_total deployer
    [(asha, CreateIdentity "Asha" "asha@x.com" "IN" "" "" "112" ["tourist"; "guide"]);
     (bela, CreateIdentity "Bela" "bela@x.com" "IN" "" "" "100" ["police"])]) as H.
  split.
  - apply (H 2); [repeat constructor; vm_compute; discriminate | vm_compute; split; discriminate].
  - apply (H 3); [repeat constructor; vm_compute; discriminate|].
    vm_compute. intros [_ Hle]. now apply Hle.
Defined.

(** *** Roles *)

(** Overwriting position [k] with the last element and dropping the
    last element removes exactly the element that was at [k]. *)
Lemma swap_pop_permutation (l : list string) k x y :
  l !! k = Some x -> l !! (length l - 1)%nat = Some y -> (k + 1 < length l)%nat ->
  l ≡ₚ x :: pop (<[k := y]> l).
Proof.
  intros Hk Hlast Hlt.
  pose proof (take_drop_middle l k x Hk) as Hsplit.
  assert (Hlen : length (take k l) = k) by (rewrite length_take; lia).
  assert (Hd : drop (S k) l <> []).
  { intros E. apply (f_equal length) in E. rewrite length_drop in E. cbn in E. lia. }
  destruct (exists_last Hd) as (d & z & Hdz). rewrite Hdz in Hsplit.
  generalize dependent (take k l). intros a Hlen Hsplit. clear Hd Hdz Hk.
  subst l k.
  assert (Hy : z = y).
  { replace (a ++ x :: d ++ [z])%list with ((a ++ x :: d) ++ [z])%list in Hlast
      by (rewrite <- app_assoc; reflexivity).
    rewrite lookup_app_r in Hlast by (rewrite !length_app; cbn; lia).
    replace (length ((a ++ x :: d) ++ [z]) - 1 - length (a ++ x :: d))%nat with 0%nat
      in Hlast by (rewrite !length_app; cbn; lia).
    cbn in Hlast. congruence. }
  subst z.
  rewrite insert_app_r_alt by lia.
  replace (length a - length a)%nat with 0%nat by lia.
  unfold insert; cbn [list_insert]. unfold pop.
  replace (a ++ y :: d ++ [y])%list with ((a ++ y :: d) ++ [y])%list
    by (rewrite <- app_assoc; reflexivity).
  rewrite removelast_last.
  rewrite <- Permutation_middle. constructor.
  apply Permutation_app_head. symmetry. apply Permutation_cons_append.
Qed.

(** X8: a successful [removeRole] removes exactly one role, the one
    that was at the given position: the roles before are a permutation
    of that role followed by the roles after. *)
Theorem X8_removeRole_removes_exactly_that_role m i k s s' :
  removeRole m i k s = Success tt s' ->
  exists removed,
    roles (identityAt s i) !! k = Some removed
    /\ roles (identityAt s i) ≡ₚ removed :: roles (identityAt s' i)
    /\ length (roles (identityAt s' i)) = (length (roles (identityAt s i)) - 1)%nat.
Proof.
  intros H. unfold removeRole in H. repeat pass H.
  destruct (Nat.ltb k (length (roles (identityAt s i)))) eqn:Hk; [|discriminate].
  cbn [negb] in H. apply Nat.ltb_lt in Hk.
  destruct (roles (identityAt s i) !! (length (roles (identityAt s i)) - 1)%nat)
    as [lastRole|] eqn:Hlast; [|discriminate].
  destruct (pop _ !! k) as [reported|] eqn:Hrep; [|discriminate].
  injection H as <-.
  rewrite identityAt_emit, identityAt_set_eq. cbn [roles withRoles].
  apply lookup_lt_Some in Hrep. rewrite pop_take, length_take, length_insert in Hrep.
  destruct (lookup_lt_is_Some_2 (roles (identityAt s i)) k Hk) as [removed Hrem].
  exists removed. split; [exact Hrem|]. split.
  - apply swap_pop_permutation; auto. lia.
  - rewrite pop_take, length_take, length_insert. lia.
Qed.

Definition registry3 : State :=
  after asha (AddRole 1 "admin") registry1.

Lemma X8_removeRole_witness :
  exists s' removed,
    removeRole asha 1 0 registry3 = Success tt s'
    /\ roles (identityAt registry3 1) = ["tourist"; "guide"; "admin"]
    /\ roles (identityAt s' 1) = ["admin"; "guide"]
    /\ roles (identityAt registry3 1) !! 0%nat = Some removed
    /\ roles (identityAt registry3 1) ≡ₚ removed :: roles (identityAt s' 1).
Proof.
  eexists (after asha (RemoveRole 1 0) registry3).
  destruct (X8_removeRole_removes_exactly_that_role asha 1 0%nat registry3
              (after asha (RemoveRole 1 0) registry3))
    as (removed & Hrem & Hperm & _); [vm_compute; reflexivity|].
  exists removed. split; [vm_compute; reflexivity|].
  split; [vm_compute; reflexivity|]. split; [vm_compute; reflexivity|].
  split; [exact Hrem | exact Hperm].
Defined.

(** *** Changing the e-mail *)

(** X9: when [updateIdentity] changes the e-mail of an identity, the
    old e-mail is released and the new one taken: a wallet without an
    identity can then register with the old e-mail, and is refused the
    new one with "Email already registered". *)
Theorem X9_update_releases_the_old_email m i n e na ec s s' :
  updateIdentity m i n e na ec s = Success tt s' ->
  email (identityAt s i) <> e -> i <> 0 ->
  emailId s' (email (identityAt s i)) = 0
  /\ emailId s' e = i
  /\ (forall m2 n2 na2 a2 p2 ec2 r2,
        walletId s' (sender m2) = 0 -> n2 <> "" -> email (identityAt s i) <> "" ->
        idCounter s' <> uint256_max ->
        exists s'', createIdentity m2 n2 (email (identityAt s i)) na2 a2 p2 ec2 r2 s'
                    = Success tt s'')
  /\ (forall m2 n2 na2 a2 p2 ec2 r2,
        walletId s' (sender m2) = 0 ->
        createIdentity m2 n2 e na2 a2 p2 ec2 r2 s' = Revert "Email already registered").
Proof.
  intros H Hne Hi.
  assert (Hmaps : emailId s' (email (identityAt s i)) = 0 /\ emailId s' e = i).
  { unfold updateIdentity in H. repeat pass H. cbv zeta in H.
    apply String.eqb_neq in Hne. rewrite Hne in H. cbn [negb andb] in H.
    destruct (negb (emailId s e =? 0)); [discriminate|].
    injection H as <-. unfold emailId. cbn. apply String.eqb_neq in Hne.
    rewrite lookup_insert_ne by congruence.
    now rewrite !lookup_insert_eq. }
  destruct Hmaps as [Hold Hnew]. split_and!; auto.
  - intros m2 n2 na2 a2 p2 ec2 r2 Hw Hn He Hmax. now apply createIdentity_ok.
  - intros m2 n2 na2 a2 p2 ec2 r2 Hw. apply create_dup_email; [exact Hw|].
    rewrite Hnew. exact Hi.
Qed.

Definition carl : Msg := {| sender := 0xCCC3; now := 5000 |}.

Definition registry1_moved : State :=
  after asha (UpdateIdentity 1 "Asha" "asha@new.org" "IN" "112") registry1.

Lemma X9_update_witness :
  (exists s'', createIdentity carl "Carl" "asha@x.com" "IN" "" "" "1" [] registry1_moved
               = Success tt s'')
  /\ createIdentity carl "Carl" "asha@new.org" "IN" "" "" "1" [] registry1_moved
     = Revert "Email already registered".
Proof.
  destruct (X9_update_releases_the_old_email asha 1 "Asha" "asha@new.org" "IN" "112"
              registry1 registry1_moved)
    as (_ & _ & Hfree & Htaken);
    [vm_compute; reflexivity | vm_compute; discriminate | discriminate |].
  split.
  - apply Hfree; vm_compute; discriminate || reflexivity.
  - apply Htaken. vm_compute. reflexivity.
Defined.

(** *** Creation *)

(** X10: in a reachable registry, [createIdentity] from a real wallet
    without an identity, with a free e-mail and non-empty name and
    e-mail, succeeds; the new identity gets the next id, is active and
    unverified, carries exactly the given fields and roles, and is found
    both by its id and by its wallet; the total grows by one. *)
Theorem X10_createIdentity_stores_the_request m n e na a p ec r s :
  reachable s ->
  sender m <> 0 -> walletId s (sender m) = 0 -> emailId s e = 0 ->
  n <> "" -> e <> "" -> idCounter s <> uint256_max ->
  exists s',
    createIdentity m n e na a p ec r s = Success tt s'
    /\ getTotalIdentities s' = getTotalIdentities s + 1
    /\ let created :=
         {| id := getTotalIdentities s'; name := n; email := e; nationality := na;
            aadhaarHash := a; passportHash := p; emergencyContact := ec;
            createdAt := now m; updatedAt := now m; isActive := true;
            isVerified := false; walletAddress := sender m; roles := r |} in
       getIdentityById (getTotalIdentities s') s' = Success created s'
       /\ getIdentityByWallet (sender m) s' = Success created s'.
Proof.
  intros Hr Hm Hw He Hn Hne Hmax.
  apply reachable_registry_ok in Hr as (_ & K1 & _).
  destruct (createIdentity_ok m n e na a p ec r s Hw He Hn Hne Hmax) as [s' H].
  exists s'. split; [exact H|].
  apply createIdentity_success in H
    as (_ & _ & _ & _ & _ & Hc & Hwi & _ & Hid & _).
  unfold getTotalIdentities. split; [exact Hc|]. cbv zeta.
  assert (Hfresh : roles (identityAt s (idCounter s + 1)) = []).
  { unfold identityAt. destruct (identities s !! (idCounter s + 1)) as [x|] eqn:Hx;
      [|reflexivity]. destruct (K1 _ x Hx). lia. }
  rewrite Hfresh in Hid. cbn [app] in Hid.
  assert (Hat : identityAt s' (idCounter s') =
    {| id := idCounter s'; name := n; email := e; nationality := na;
       aadhaarHash := a; passportHash := p; emergencyContact := ec;
       createdAt := now m; updatedAt := now m; isActive := true;
       isVerified := false; walletAddress := sender m; roles := r |}).
  { rewrite (identityAt_insert _ _ _ _ _ Hid), Hc. now rewrite decide_True. }
  split.
  - unfold getIdentityById, identityExists. rewrite Hat. cbn [walletAddress].
    apply N.eqb_neq in Hm. rewrite Hm. reflexivity.
  - unfold getIdentityByWallet. rewrite (walletId_insert _ _ _ _ _ Hwi).
    rewrite decide_True by reflexivity. rewrite <- Hc.
    replace (idCounter s' =? 0) with false by (symmetry; apply N.eqb_neq; lia).
    now rewrite Hat.
Qed.

Lemma X10_createIdentity_witness :
  exists s',
    createIdentity carl "Carl" "carl@x.com" "NP" "" "" "1" ["tourist"] registry2
    = Success tt s'
    /\ getTotalIdentities s' = 3
    /\ getIdentityByWallet 0xCCC3 s'
       = Success {| id := 3; name := "Carl"; email := "carl@x.com"; nationality := "NP";
                    aadhaarHash := ""; passportHash := ""; emergencyContact := "1";
                    createdAt := 5000; updatedAt := 5000; isActive := true;
                    isVerified := false; walletAddress := 0xCCC3;
                    roles := ["tourist"] |} s'.
Proof.
  destruct (X10_createIdentity_stores_the_request carl "Carl" "carl@x.com" "NP" "" "" "1"
              ["tourist"] registry2)
    as (s' & Hcreate & Htotal & _ & Hwallet);
    [exact reachable_registry2 | vm_compute; discriminate | vm_compute; reflexivity
    | vm_compute; reflexivity | discriminate | discriminate | vm_compute; discriminate |].
  exists s'.
  assert (Ht : getTotalIdentities s' = 3) by (rewrite Htotal; vm_compute; reflexivity).
  split; [exact Hcreate|]. split; [exact Ht|].
  rewrite Ht in Hwallet. exact Hwallet.
Defined.

End RegistryFacts.

(** ** More on the hash chain *)

Module LedgerFacts.

Import SimpleBlockchain ChainFacts.
Local Open Scope N_scope.

(** *** Mining *)

Lemma mineBlock_minimal f : forall d b b',
  mineBlock f d b = Some b' -> hashOk b ->
  nonce b <= nonce b'
  /\ (forall n, nonce b <= n < nonce b' ->
        meetsTarget d (calculateHash (index b) (timestamp b) (data b)
                                     (previousHash b) n) = false)
  /\ (N.to_nat (nonce b' - nonce b) < f)%nat.
Proof.
  induction f as [|f IH]; intros d b b' H Hok; cbn [mineBlock] in H; [discriminate|].
  destruct (meetsTarget d (hash b)) eqn:E.
  - injection H as <-. split; [lia|]. split; [intros n Hn; lia | lia].
  - apply IH in H; [|apply rehash_ok].
    cbn [rehash index timestamp data previousHash nonce] in H.
    destruct H as (Hle & Hmin & Hfuel). split; [lia|]. split; [|lia].
    intros n Hn. destruct (N.eq_dec n (nonce b)) as [->|Hne].
    + rewrite <- Hok. exact E.
    + apply Hmin. lia.
Qed.

(** X11: the block [addBlock] returns carries the smallest nonce whose
    digest meets the target: every smaller nonce, with the same index,
    timestamp, payload and previous hash, gives a digest that misses
    it.  The loop ran once per nonce tried. *)
Theorem X11_addBlock_finds_the_least_nonce fuel now d s b s' :
  addBlock fuel now d s = Done (b, s') ->
  meetsTarget (difficulty s) (hash b) = true
  /\ (forall n, n < nonce b ->
        meetsTarget (difficulty s)
          (calculateHash (index b) (timestamp b) (data b) (previousHash b) n) = false)
  /\ (N.to_nat (nonce b) < fuel)%nat.
Proof.
  unfold addBlock. destruct (last (chain s)) as [tip|]; [|discriminate].
  destruct (mineBlock _ _ _) as [mined|] eqn:E; [|discriminate].
  intros H. injection H as <- _.
  pose proof (mineBlock_spec _ _ _ _ E (rehash_ok _ _)) as (_ & Hm & Hi & Ht & Hd & Hp).
  apply mineBlock_minimal in E as (_ & Hmin & Hfuel); [|apply rehash_ok].
  cbn [rehash index timestamp data previousHash nonce] in *.
  split; [exact Hm|]. split.
  - intros n Hn. rewrite Hi, Ht, Hd, Hp. apply Hmin. lia.
  - rewrite N.sub_0_r in Hfuel. exact Hfuel.
Qed.

Lemma X11_least_nonce_witness :
  nonce (blockAt ledger1 1) = 1
  /\ meetsTarget 2 (hash (blockAt ledger1 1)) = true
  /\ meetsTarget 2 (calculateHash 1 1700000001027 (payload 1)
                      (hash (blockAt ledger0 0)) 0) = false.
Proof.
  destruct (X11_addBlock_finds_the_least_nonce 4 1700000001027 (payload 1) ledger0
              (blockAt ledger1 1) ledger1) as (Hmeets & Hleast & _);
    [vm_compute; reflexivity|].
  split; [vm_compute; reflexivity|]. split; [exact Hmeets|].
  apply (Hleast 0). vm_compute. reflexivity.
Defined.

(** *** Positions *)

Lemma built_index s : built s -> forall i b, chain s !! i = Some b -> index b = N.of_nat i.
Proof.
  intros Hb. destruct (built_inv s Hb) as (_ & (g & Hg & Hg0 & _) & Hl).
  induction i as [|i IH]; intros b Hi.
  - rewrite Hg in Hi. injection Hi as <-. exact Hg0.
  - destruct (Hl i b Hi) as (_ & _ & p & Hp & _ & Hidx).
    rewrite Hidx, (IH p Hp). lia.
Qed.

(** X12: in a chain built by [addBlock], the [index] field of every
    block is its position in the array, so [getBlockByIndex(i)] answers
    the block whose index is [i] or [null], and the last block's index
    is the chain length minus one; the chain is never empty. *)
Theorem X12_index_is_position s :
  built s ->
  (forall i b, getBlockByIndex s i = Some b -> index b = N.of_nat i)
  /\ (forall i, getBlockByIndex s i = None <-> (length (chain s) <= i)%nat)
  /\ exists tip, getLastBlock s = Some tip
                 /\ index tip + 1 = N.of_nat (length (chain s)).
Proof.
  intros Hb. split; [exact (built_index s Hb)|]. split.
  - intros i. unfold getBlockByIndex. apply lookup_ge_None.
  - destruct (built_inv s Hb) as (_ & (g & Hg & _) & _).
    unfold getLastBlock. rewrite last_lookup.
    apply lookup_lt_Some in Hg.
    destruct (lookup_lt_is_Some_2 (chain s) (Nat.pred (length (chain s)))) as [tip Ht];
      [lia|].
    exists tip. split; [exact Ht|]. rewrite (built_index s Hb _ _ Ht). lia.
Qed.

Lemma X12_index_witness :
  index (blockAt ledger3 2) = 2
  /\ getBlockByIndex ledger3 4 = None
  /\ exists tip, getLastBlock ledger3 = Some tip /\ index tip + 1 = 4.
Proof.
  destruct (X12_index_is_position ledger3 built_ledger3) as (Hpos & Hnone & Hlast).
  split; [apply (Hpos 2%nat); vm_compute; reflexivity|].
  split; [apply Hnone; vm_compute; lia | exact Hlast].
Defined.

(** *** What validation looks at *)

(** Every block after the first stores the digest of its own fields and
    the hash of the block before it. *)
Definition consistent (c : list Block) : Prop :=
  forall i b p, c !! S i = Some b -> c !! i = Some p ->
    hashOk b /\ previousHash b = hash p.

Lemma linkOk_inv c j b p :
  c !! S j = Some b -> c !! j = Some p -> linkOk c (S j) = true ->
  hashOk b /\ previousHash b = hash p.
Proof.
  intros Hb Hp. unfold linkOk. replace (S j - 1)%nat with j by lia.
  rewrite Hb, Hp. intros H. apply andb_true_iff in H as [H1 H2].
  apply String.eqb_eq in H1, H2. split; assumption.
Qed.

Lemma validate_consistent c : validateChainOf c = true <-> consistent c.
Proof.
  split.
  - intros H i b p Hb Hp. unfold validateChainOf in H.
    rewrite List.forallb_forall in H.
    apply (linkOk_inv c i b p Hb Hp). apply H. apply List.in_seq.
    apply lookup_lt_Some in Hb. lia.
  - intros H. unfold validateChainOf. apply List.forallb_forall.
    intros i Hi. apply List.in_seq in Hi. destruct i as [|j]; [lia|].
    destruct (lookup_lt_is_Some_2 c (S j)) as [b Hb]; [lia|].
    destruct (lookup_lt_is_Some_2 c j) as [p Hp]; [lia|].
    destruct (H j b p Hb Hp). eapply linkOk_true; eauto.
Qed.

Lemma consistent_snoc c tip b :
  consistent c -> last c = Some tip -> hashOk b -> previousHash b = hash tip ->
  consistent (c ++ [b]).
Proof.
  intros Hc Ht Hok Hprev i x p Hx Hp. rewrite last_lookup in Ht.
  assert (Hlen : (0 < length c)%nat) by (apply lookup_lt_Some in Ht; lia).
  destruct (decide (S i < length c)%nat) as [Hlt|Hge].
  - rewrite lookup_app_l in Hx by assumption. rewrite lookup_app_l in Hp by lia.
    eauto.
  - rewrite lookup_app_r in Hx by lia.
    destruct (S i - length c)%nat as [|n] eqn:En; [|now destruct n].
    cbn in Hx. injection Hx as <-.
    rewrite lookup_app_l in Hp by lia.
    replace (Nat.pred (length c)) with i in Ht by lia.
    rewrite Ht in Hp. injection Hp as <-. auto.
Qed.

(** X13: [validateChain] answers [true] exactly when every block after
    the first stores the digest of its own fields and the hash of the
    block before it.  It looks at nothing else: a block appended by hand
    that was never mined, with any index, is accepted as long as its
    hash is the digest of its fields and it names the last block's hash;
    and of the first block only the [hash] field matters. *)
Theorem X13_validateChain_checks_links_only c :
  (validateChainOf c = true <-> consistent c)
  /\ (forall tip b,
        validateChainOf c = true -> last c = Some tip ->
        hashOk b -> previousHash b = hash tip ->
        validateChainOf (c ++ [b]) = true)
  /\ (forall g g' r,
        c = g :: r -> hash g' = hash g ->
        validateChainOf (g' :: r) = validateChainOf c).
Proof.
  split; [apply validate_consistent|]. split.
  - intros tip b Hv Ht Hok Hprev. apply validate_consistent.
    eapply consistent_snoc; eauto. now apply validate_consistent.
  - intros g g' r -> Hh.
    assert (Hone : forall a a', hash a' = hash a ->
              consistent (a :: r) -> consistent (a' :: r)).
    { intros a a' Ha Hc [|i] b p Hb Hp.
      - cbn in Hp. injection Hp as <-. cbn in Hb.
        destruct (Hc 0%nat b a Hb eq_refl) as [? ?]. split; congruence.
      - exact (Hc (S i) b p Hb Hp). }
    destruct (validateChainOf (g :: r)) eqn:E.
    + apply validate_consistent. apply (Hone g g' Hh). now apply validate_consistent.
    + destruct (validateChainOf (g' :: r)) eqn:E'; [|reflexivity].
      apply validate_consistent in E'. apply (Hone g' g (eq_sym Hh)) in E'.
      apply validate_consistent in E'. congruence.
Qed.

(** A block written by hand after the tip of the example ledger: index
    77, an old timestamp, the nonce left at 0. *)
Definition forged : Block :=
  rehash {| index := 77; timestamp := 5; data := JStr "forged";
            previousHash := hash (blockAt ledger1 1); hash := ""; nonce := 0 |} 0.

Lemma X13_validateChain_witness :
  meetsTarget (difficulty ledger1) (hash forged) = false
  /\ validateChainOf (chain ledger1 ++ [forged]) = true.
Proof.
  destruct (X13_validateChain_checks_links_only (chain ledger1)) as (_ & Happend & _).
  split; [vm_compute; reflexivity|].
  apply (Happend (blockAt ledger1 1)).
  - vm_compute. reflexivity.
  - vm_compute. reflexivity.
  - apply rehash_ok.
  - reflexivity.
Defined.

(** *** The index and the timestamp are hashed as their sum *)

Lemma calculateHash_sum i t i' t' d p n :
  i + t = i' + t' -> calculateHash i t d p n = calculateHash i' t' d p n.
Proof. intros H. unfold calculateHash. now rewrite H. Qed.

Lemma consistent_replace c i b b' :
  consistent c -> c !! i = Some b ->
  hash b' = hash b -> previousHash b' = previousHash b -> (hashOk b -> hashOk b') ->
  consistent (<[i := b']> c).
Proof.
  intros Hc Hb Hh Hp Hok j x p Hx Hpj.
  pose proof (lookup_lt_Some _ _ _ Hb) as Hlen.
  destruct (decide (S j = i)) as [<-|Hne1].
  - rewrite list_lookup_insert_eq in Hx by lia. injection Hx as <-.
    rewrite list_lookup_insert_ne in Hpj by lia.
    destruct (Hc j b p Hb Hpj) as [H1 H2]. split; [auto | congruence].
  - rewrite list_lookup_insert_ne in Hx by lia.
    destruct (decide (j = i)) as [->|Hne2].
    + rewrite list_lookup_insert_eq in Hpj by lia. injection Hpj as <-.
      destruct (Hc i x b Hx Hb) as [H1 H2]. split; [auto | congruence].
    + rewrite list_lookup_insert_ne in Hpj by lia. eauto.
Qed.

(** X14: [calculateHash] adds the index and the timestamp before
    hashing, so it cannot tell apart two blocks with the same sum.
    Rewriting in place the index and the timestamp of any block of a
    valid chain, keeping their sum, leaves [validateChain] answering
    [true]. *)
Theorem X14_index_and_timestamp_are_hashed_as_a_sum c i b i' t' :
  validateChainOf c = true -> c !! i = Some b ->
  i' + t' = index b + timestamp b ->
  calculateHash i' t' (data b) (previousHash b) (nonce b)
  = calculateHash (index b) (timestamp b) (data b) (previousHash b) (nonce b)
  /\ validateChainOf
       (<[i := {| index := i'; timestamp := t'; data := data b;
                  previousHash := previousHash b; hash := hash b;
                  nonce := nonce b |}]> c) = true.
Proof.
  intros Hv Hb Hsum. split; [now apply calculateHash_sum|].
  apply validate_consistent. apply validate_consistent in Hv.
  apply (consistent_replace c i b); auto.
  unfold hashOk. cbn [hash index timestamp data previousHash nonce].
  intros ->. symmetry. now apply calculateHash_sum.
Qed.

Lemma X14_sum_witness :
  validateChainOf
    (<[2%nat := {| index := 1000; timestamp := 1700000000189;
                   data := data (blockAt ledger3 2);
                   previousHash := previousHash (blockAt ledger3 2);
                   hash := hash (blockAt ledger3 2);
                   nonce := nonce (blockAt ledger3 2) |}]> (chain ledger3)) = true.
Proof.
  apply (X14_index_and_timestamp_are_hashed_as_a_sum
           (chain ledger3) 2%nat (blockAt ledger3 2) 1000 1700000000189).
  - vm_compute. reflexivity.
  - vm_compute. reflexivity.
  - vm_compute. reflexivity.
Defined.

End LedgerFacts.

(** ** More on the digital-ID store *)

Module RecordFacts.

Import SimpleBlockchain ChainFacts StoreFacts LedgerFacts.
Local Open Scope N_scope.

(** *** Verification *)

(** A record with its [verified] flag set. *)
Definition asVerified (d : DigitalID) : DigitalID :=
  {| did_id := did_id d; did_userId := did_userId d; did_name := did_name d;
     did_email := did_email d; did_role := did_role d;
     did_walletAddress := did_walletAddress d; did_timestamp := did_timestamp d;
     did_hash := did_hash d; did_verified := true |}.

(** The list with its first record of hash [h] marked. *)
Fixpoint markFirst (h : string) (l : list DigitalID) : list DigitalID :=
  match l with
  | [] => []
  | d :: r => if String.eqb (did_hash d) h then asVerified d :: r
              else d :: markFirst h r
  end.

Definition byHash (h : string) (d : DigitalID) : bool := String.eqb (did_hash d) h.

Lemma markVerified_find h l :
  markVerified h l
  = option_map (fun d => (asVerified d, markFirst h l)) (find (byHash h) l).
Proof.
  induction l as [|d r IH]; [reflexivity|].
  cbn [markVerified markFirst find]. unfold byHash at 1.
  destruct (String.eqb (did_hash d) h); [reflexivity|].
  rewrite IH. now destruct (find (byHash h) r).
Qed.


Lemma asVerified_idem d : asVerified (asVerified d) = asVerified d.
Proof. reflexivity. Qed.




Lemma verifyDigitalID_eq h s :
  verifyDigitalID h s
  = (option_map asVerified (getDigitalIDByHash h s),
     match getDigitalIDByHash h s with
     | Some _ => {| chain := chain s; digitalIDs := markFirst h (digitalIDs s);
                    difficulty := difficulty s; db := db s |}
     | None => s
     end).
Proof.
  unfold verifyDigitalID, getDigitalIDByHash. rewrite markVerified_find.
  fold (byHash h). now destruct (find (byHash h) (digitalIDs s)).
Qed.



(** *** Creation *)

Lemma commit_spec e d s r s' :
  commit e d s = Done (r, s') ->
  r = recordOf d
  /\ digitalIDs s' = (digitalIDs s ++ [r])%list
  /\ db s' = db s /\ difficulty s' = difficulty s
  /\ exists tip b,
       last (chain s) = Some tip
       /\ chain s' = (chain s ++ [b])%list
       /\ data b = blockPayload d /\ timestamp b = nowBlock e
       /\ index b = index tip + 1 /\ previousHash b = hash tip
       /\ hashOk b /\ meetsTarget (difficulty s) (hash b) = true.
Proof.
  unfold commit. destruct (addBlock _ _ _ _) as [[b s2]| |] eqn:E; try discriminate.
  intros H. injection H as <- <-.
  pose proof E as E'. apply addBlock_spec in E'
    as (tip & Ht & Hi & Hp & Hts & Hd & Hok & Hm & Hc & Hdiff).
  cbn [chain difficulty] in *.
  unfold addBlock in E. cbn [chain] in E. rewrite Ht in E.
  destruct (mineBlock _ _ _); [|discriminate]. injection E as _ <-.
  cbn [digitalIDs db difficulty chain].
  split_and!; try reflexivity. exists tip, b. cbn in Hc. auto 10.
Qed.

(** The document a call stores: the request as given on the in-memory
    branch, trimmed and lower-cased on the durable branch. *)
Definition storedDoc (e : CallEnv) (u : UserData) : Doc :=
  let doc := docOf u e (contentHash u (nowHash e)) in
  if connected e then applySetters doc else doc.

Lemma createDigitalID_spec e u s r s' :
  createDigitalID e u s = Done (r, s') ->
  r = recordOf (storedDoc e u)
  /\ digitalIDs s' = (digitalIDs s ++ [r])%list
  /\ db s' = (if connected e then (db s ++ [storedDoc e u])%list else db s)
  /\ (connected e = true ->
      validators (storedDoc e u) = true
      /\ hashTaken (doc_hash (storedDoc e u)) (db s) = false)
  /\ difficulty s' = difficulty s
  /\ exists tip b,
       last (chain s) = Some tip
       /\ chain s' = (chain s ++ [b])%list
       /\ data b = blockPayload (storedDoc e u) /\ timestamp b = nowBlock e
       /\ index b = index tip + 1 /\ previousHash b = hash tip
       /\ hashOk b /\ meetsTarget (difficulty s) (hash b) = true.
Proof.
  unfold createDigitalID, storedDoc. cbv zeta.
  set (doc := docOf u e (contentHash u (nowHash e))).
  destruct (connected e).
  - unfold modelCreate.
    destruct (validators (applySetters doc)) eqn:Hv; cbn [negb]; [|discriminate].
    destruct (hashTaken _ (db s)) eqn:Hh; [discriminate|].
    intros H. apply commit_spec in H as (Hr & Hl & Hdb & Hdiff & Hchain).
    cbn [chain digitalIDs difficulty db] in *. auto 10.
  - intros H. apply commit_spec in H as (Hr & Hl & Hdb & Hdiff & Hchain).
    split_and!; auto. discriminate.
Qed.

Lemma find_snoc_fresh {A} (f : A -> bool) l x :
  find f l = None -> f x = true -> find f (l ++ [x]) = Some x.
Proof.
  induction l as [|a l IH]; cbn [find app]; intros Hn Hx; [now rewrite Hx|].
  destruct (f a); [discriminate|auto].
Qed.

(** X16: what a successful [createDigitalID] leaves behind.  The record
    it returns has the fresh id, the digest of the request as given, the
    flag unset; on the durable branch its name is trimmed and its e-mail
    trimmed and lower-cased, on the in-memory branch they are as given.
    The record is the new last element of the in-memory list, the chain
    has one more block, mined on top of the previous tip, whose payload
    names the record's id and hash; and the record is found by its id
    and by its hash provided no earlier record has them. *)
Theorem X16_createDigitalID_postcondition e u s r s' :
  createDigitalID e u s = Done (r, s') ->
  did_id r = freshId e
  /\ did_hash r = contentHash u (nowHash e)
  /\ did_verified r = false
  /\ did_userId r = userId u /\ did_role r = role u
  /\ did_walletAddress r = walletAddress u /\ did_timestamp r = nowRecord e
  /\ (did_name r, did_email r)
     = (if connected e then (trim (name u), trim (toLowerCase (email u)))
        else (name u, email u))
  /\ getDigitalIDs s' = (getDigitalIDs s ++ [r])%list
  /\ (exists tip b,
        getLastBlock s = Some tip /\ getLastBlock s' = Some b
        /\ getChain s' = (getChain s ++ [b])%list
        /\ index b = index tip + 1 /\ previousHash b = hash tip
        /\ data b = JObj [("type", JStr "digital_id");
                          ("digitalID", JStr (did_id r));
                          ("hash", JStr (did_hash r));
                          ("verified", JBool false)])
  /\ (getDigitalIDById (freshId e) s = None ->
      getDigitalIDById (freshId e) s' = Some r)
  /\ (getDigitalIDByHash (did_hash r) s = None ->
      getDigitalIDByHash (did_hash r) s' = Some r).
Proof.
  intros H. apply createDigitalID_spec in H
    as (Hr & Hl & _ & _ & _ & tip & b & Ht & Hc & Hd & _ & Hi & Hp & _).
  assert (Hfields :
    did_id r = freshId e /\ did_hash r = contentHash u (nowHash e)
    /\ did_verified r = false).
  { subst r. unfold storedDoc. cbv zeta. now destruct (connected e). }
  destruct Hfields as (Hid & Hh & Hv).
  split_and!; auto.
  - subst r. unfold storedDoc. cbv zeta. now destruct (connected e).
  - subst r. unfold storedDoc. cbv zeta. now destruct (connected e).
  - subst r. unfold storedDoc. cbv zeta. now destruct (connected e).
  - subst r. unfold storedDoc. cbv zeta. now destruct (connected e).
  - subst r. unfold storedDoc. cbv zeta. now destruct (connected e).
  - exists tip, b. unfold getLastBlock, getChain. rewrite Hc, last_snoc.
    split_and!; auto.
    rewrite Hd. subst r. unfold storedDoc. cbv zeta.
    now destruct (connected e).
  - intros Hn. unfold getDigitalIDById in *. rewrite Hl.
    apply find_snoc_fresh; [exact Hn|]. rewrite Hid. apply String.eqb_refl.
  - intros Hn. unfold getDigitalIDByHash in *. rewrite Hl.
    apply find_snoc_fresh; [exact Hn|]. apply String.eqb_refl.
Qed.

Definition spaced : UserData :=
  {| userId := "u7"; name := "  Asha Rao "; email := "Asha.Rao@X.com";
     role := "tourist";
     walletAddress := "0xAAAAAAAAAAAAAAAAAAAAAAAAAAAAAAAAAAAAAAA1";
     additionalData := None |}.

Definition call5 : CallEnv :=
  {| connected := true; nowHash := 1700000001000; nowRecord := 1700000001000;
     nowBlock := 1700000001023; freshId := "id-7"; fuel := 2 |}.

Definition store5 : State := stateOf (createDigitalID call5 spaced ledger0) ledger0.

Lemma X16_createDigitalID_witness :
  exists r,
    createDigitalID call5 spaced ledger0 = Done (r, store5)
    /\ did_name r = "Asha Rao" /\ did_email r = "asha.rao@x.com"
    /\ did_hash r = contentHash spaced 1700000001000
    /\ getDigitalIDById "id-7" store5 = Some r.
Proof.
  assert (Hrun : createDigitalID call5 spaced ledger0
                 = Done (recordOf (storedDoc call5 spaced), store5))
    by (vm_compute; reflexivity).
  exists (recordOf (storedDoc call5 spaced)).
  destruct (X16_createDigitalID_postcondition call5 spaced ledger0 _ store5 Hrun)
    as (_ & Hhash & _ & _ & _ & _ & _ & _ & _ & _ & Hbyid & _).
  split; [exact Hrun|]. split; [vm_compute; reflexivity|].
  split; [vm_compute; reflexivity|]. split; [exact Hhash|].
  apply Hbyid. vm_compute. reflexivity.
Defined.




(** *** The store over its whole life *)

(** The states an instance goes through, from construction, by calls of
    [addBlock], [createDigitalID] and [verifyDigitalID]. *)
Inductive store_reachable : State -> Prop :=
| sr_init t1 t2 : store_reachable (init t1 t2)
| sr_add s fuel now d b s' :
    store_reachable s -> addBlock fuel now d s = Done (b, s') -> store_reachable s'
| sr_create s e u r s' :
    store_reachable s -> createDigitalID e u s = Done (r, s') -> store_reachable s'
| sr_verify s h :
    store_reachable s -> store_reachable (snd (verifyDigitalID h s)).

(** The payload of the block minted for a record. *)
Definition mintedFor (r : DigitalID) : json :=
  JObj [("type", JStr "digital_id");
        ("digitalID", JStr (did_id r));
        ("hash", JStr (did_hash r));
        ("verified", JBool false)].

Definition recorded (s : State) : Prop :=
  forall r, In r (digitalIDs s) ->
    exists i b, (1 <= i)%nat /\ chain s !! i = Some b /\ data b = mintedFor r.

Definition persisted (s : State) : Prop :=
  forall d, In d (db s) ->
    validators d = true /\ doc_verified d = false
    /\ exists r, In r (digitalIDs s) /\ did_id r = doc_id d /\ did_hash r = doc_hash d.

Definition store_inv (s : State) : Prop :=
  chain_inv s
  /\ (length (digitalIDs s) < length (chain s))%nat
  /\ recorded s
  /\ persisted s
  /\ NoDup (map doc_hash (db s)).

Lemma chain_inv_snoc s s' tip b :
  chain_inv s -> last (chain s) = Some tip ->
  chain s' = (chain s ++ [b])%list -> difficulty s' = difficulty s ->
  index b = index tip + 1 -> previousHash b = hash tip ->
  hashOk b -> meetsTarget (difficulty s) (hash b) = true ->
  chain_inv s'.
Proof.
  intros (Hd & (g & Hg & Hg0 & Hg1 & Hg2) & Hl) Ht Hc Hd' Hi Hp Hok Hm.
  rewrite Hd in Hm. unfold chain_inv. rewrite Hc, Hd'.
  split; [exact Hd|]. split.
  - exists g. rewrite lookup_app_l; [auto|]. eapply lookup_lt_Some; eauto.
  - intros i x Hx. rewrite last_lookup in Ht.
    destruct (decide (S i < length (chain s))%nat) as [Hlt|Hge].
    + rewrite lookup_app_l in Hx by assumption.
      destruct (Hl i x Hx) as (? & ? & p & Hpl & ? & ?).
      repeat split; auto. exists p. rewrite lookup_app_l; [auto|].
      eapply lookup_lt_Some; eauto.
    + rewrite lookup_app_r in Hx by lia.
      destruct (S i - length (chain s))%nat as [|n] eqn:En; [|now destruct n].
      cbn in Hx. injection Hx as <-.
      assert (Hlen : length (chain s) = S i) by (apply lookup_lt_Some in Hg; lia).
      repeat split; auto. exists tip. rewrite lookup_app_l by lia.
      rewrite Hlen in Ht. cbn in Ht. auto.
Qed.

Lemma recorded_snoc_chain (c : list Block) b (l : list DigitalID) :
  (forall r, In r l -> exists i x, (1 <= i)%nat /\ c !! i = Some x /\ data x = mintedFor r) ->
  forall r, In r l ->
    exists i x, (1 <= i)%nat /\ (c ++ [b])%list !! i = Some x /\ data x = mintedFor r.
Proof.
  intros H r Hr. destruct (H r Hr) as (i & x & Hi & Hx & Hd).
  exists i, x. split_and!; auto. rewrite lookup_app_l; [auto|].
  eapply lookup_lt_Some; eauto.
Qed.

Lemma applySetters_keeps d :
  doc_id (applySetters d) = doc_id d /\ doc_hash (applySetters d) = doc_hash d
  /\ doc_verified (applySetters d) = doc_verified d.
Proof. now destruct d. Qed.

Lemma hashTaken_false h docs : hashTaken h docs = false -> ~ In h (map doc_hash docs).
Proof.
  unfold hashTaken. induction docs as [|d r IH]; cbn [existsb map]; [auto|].
  intros H [Hd|Hr]; apply orb_false_iff in H as [H1 H2].
  - rewrite Hd, String.eqb_refl in H1. discriminate.
  - now apply IH.
Qed.

Lemma store_inv_init t1 t2 : store_inv (init t1 t2).
Proof.
  split; [apply built_inv, built_init|]. cbn. split_and!; [lia| | |constructor].
  - intros r [].
  - intros d [].
Qed.

Lemma store_inv_add s fuel now d b s' :
  store_inv s -> addBlock fuel now d s = Done (b, s') -> store_inv s'.
Proof.
  intros (Hc & Hlen & Hrec & Hper & Hnd) H.
  pose proof H as H'. apply addBlock_spec in H'
    as (tip & Ht & Hi & Hp & _ & _ & Hok & Hm & Hch & Hdiff).
  assert (Hrest : digitalIDs s' = digitalIDs s /\ db s' = db s).
  { unfold addBlock in H. rewrite Ht in H.
    destruct (mineBlock _ _ _); [|discriminate]. injection H as _ <-. auto. }
  destruct Hrest as [Hl Hdb].
  split; [eapply chain_inv_snoc; eauto|].
  unfold recorded, persisted. rewrite Hch, Hl, Hdb, length_app. cbn [length].
  split_and!; [lia | | exact Hper | exact Hnd].
  exact (recorded_snoc_chain (chain s) b (digitalIDs s) Hrec).
Qed.

Lemma store_inv_create s e u r s' :
  store_inv s -> createDigitalID e u s = Done (r, s') -> store_inv s'.
Proof.
  intros (Hc & Hlen & Hrec & Hper & Hnd) H.
  apply createDigitalID_spec in H
    as (Hr & Hl & Hdb & Hvalid & Hdiff & tip & b & Ht & Hch & Hd & _ & Hi & Hp & Hok & Hm).
  assert (Hminted : blockPayload (storedDoc e u) = mintedFor r).
  { subst r. unfold storedDoc. cbv zeta. now destruct (connected e). }
  split; [eapply chain_inv_snoc; eauto|].
  unfold recorded, persisted. rewrite Hch, Hl, !length_app. cbn [length].
  split_and!.
  - lia.
  - intros x Hx. apply in_app_or in Hx as [Hx|[<-|[]]].
    + now apply (recorded_snoc_chain (chain s) b (digitalIDs s) Hrec).
    + exists (length (chain s)), b. split_and!.
      * destruct Hc as (_ & (g & Hg & _) & _). apply lookup_lt_Some in Hg. lia.
      * rewrite lookup_app_r by lia. now rewrite Nat.sub_diag.
      * congruence.
  - rewrite Hdb. intros x Hx.
    assert (Hold : In x (db s) -> validators x = true /\ doc_verified x = false
              /\ exists y, In y (digitalIDs s ++ [r])%list
                           /\ did_id y = doc_id x /\ did_hash y = doc_hash x).
    { intros Hin. destruct (Hper x Hin) as (? & ? & y & ? & ? & ?).
      split_and!; auto. exists y. split_and!; auto. apply in_or_app. auto. }
    destruct (connected e) eqn:Hconn; [|auto].
    apply in_app_or in Hx as [Hx|[<-|[]]]; [auto|].
    destruct (Hvalid eq_refl) as [Hv _]. split; [exact Hv|]. split.
    + unfold storedDoc. cbv zeta. now rewrite Hconn.
    + exists r. split_and!; [apply in_or_app; right; now left | |]; now subst r.
  - rewrite Hdb. destruct (connected e); [|exact Hnd].
    rewrite map_app. cbn [map]. apply NoDup_app. split_and!; auto.
    + intros h Hin Hin'. apply list_elem_of_In in Hin.
      apply list_elem_of_singleton in Hin'. subst h.
      destruct (Hvalid eq_refl) as [_ Hfree].
      now apply hashTaken_false in Hfree.
    + apply NoDup_singleton.
Qed.

Lemma markFirst_length h l : length (markFirst h l) = length l.
Proof.
  induction l as [|d r IH]; [reflexivity|]. cbn [markFirst].
  destruct (String.eqb (did_hash d) h); cbn [length]; auto.
Qed.

Lemma markFirst_in h l r :
  In r (markFirst h l) ->
  exists o, In o l /\ did_id r = did_id o /\ did_hash r = did_hash o.
Proof.
  induction l as [|d t IH]; [intros []|]. cbn [markFirst].
  destruct (String.eqb (did_hash d) h).
  - intros [Hr|Hr]; [exists d; subst r | exists r]; cbn; auto.
  - intros [Hr|Hr]; [exists r; cbn; auto|].
    destruct (IH Hr) as (o & ? & ? & ?). exists o. cbn. auto.
Qed.

Lemma markFirst_in_rev h l o :
  In o l ->
  exists r, In r (markFirst h l) /\ did_id r = did_id o /\ did_hash r = did_hash o.
Proof.
  induction l as [|d t IH]; [intros []|]. cbn [markFirst].
  destruct (String.eqb (did_hash d) h).
  - intros [Ho|Ho]; [exists (asVerified d); subst o | exists o]; cbn; auto.
  - intros [Ho|Ho]; [exists o; cbn; auto|].
    destruct (IH Ho) as (r & ? & ? & ?). exists r. cbn. auto.
Qed.

Lemma store_inv_verify s h : store_inv s -> store_inv (snd (verifyDigitalID h s)).
Proof.
  intros (Hc & Hlen & Hrec & Hper & Hnd).
  rewrite verifyDigitalID_eq. cbn [snd].
  destruct (getDigitalIDByHash h s) as [found|];
    [|exact (conj Hc (conj Hlen (conj Hrec (conj Hper Hnd))))].
  split; [exact Hc|]. unfold recorded, persisted. cbn [chain digitalIDs db].
  split_and!.
  - rewrite markFirst_length. exact Hlen.
  - intros r Hr. apply markFirst_in in Hr as (o & Ho & Hid & Hh).
    destruct (Hrec o Ho) as (i & b & Hi & Hb & Hd).
    exists i, b. split_and!; auto. rewrite Hd. unfold mintedFor. now rewrite Hid, Hh.
  - intros x Hx. destruct (Hper x Hx) as (Hv & Hf & o & Ho & Hid & Hh).
    split_and!; auto.
    destruct (markFirst_in_rev h _ o Ho) as (r & Hr & Hid' & Hh').
    exists r. split_and!; auto; congruence.
  - exact Hnd.
Qed.

Lemma reachable_store_inv s : store_reachable s -> store_inv s.
Proof.
  induction 1 as [t1 t2|s fuel now0 d b s' _ IH H|s e u r s' _ IH H|s h _ IH].
  - apply store_inv_init.
  - eapply store_inv_add; eauto.
  - eapply store_inv_create; eauto.
  - now apply store_inv_verify.
Qed.

(** X18: on an instance that started with an empty collection and went
    through any calls of [addBlock], [createDigitalID] and
    [verifyDigitalID], the chain validates; there are fewer records than
    blocks; every record of the in-memory list has a mined block, after
    the first one, whose payload names its id and its hash, and that
    payload says [verified: false], also for records that were verified
    since. *)
Theorem X18_every_record_has_its_block s :
  store_reachable s ->
  validateChain s = true
  /\ (length (getDigitalIDs s) < length (getChain s))%nat
  /\ (forall r, In r (getDigitalIDs s) ->
        exists i b,
          (1 <= i)%nat /\ getBlockByIndex s i = Some b
          /\ meetsTarget 2 (hash b) = true
          /\ data b = JObj [("type", JStr "digital_id");
                            ("digitalID", JStr (did_id r));
                            ("hash", JStr (did_hash r));
                            ("verified", JBool false)]).
Proof.
  intros Hr. apply reachable_store_inv in Hr as (Hc & Hlen & Hrec & _).
  split; [apply validate_linked; apply Hc|]. split; [exact Hlen|].
  intros r Hin. destruct (Hrec r Hin) as (i & b & Hi & Hb & Hd).
  exists i, b. split_and!; auto.
  destruct Hc as (_ & _ & Hl). destruct i as [|j]; [lia|].
  now destruct (Hl j b Hb) as (_ & ? & _).
Qed.

Definition store1_verified : State :=
  snd (verifyDigitalID (contentHash ashaData 1700000001000) store1).

Lemma reachable_store1_verified : store_reachable store1_verified.
Proof.
  apply sr_verify.
  apply (sr_create ledger0 call1 ashaData (recordOf (storedDoc call1 ashaData)));
    [apply sr_init | vm_compute; reflexivity].
Qed.

Lemma X18_record_block_witness :
  validateChain store1_verified = true
  /\ exists r b,
       getDigitalIDs store1_verified = [r] /\ did_verified r = true
       /\ getBlockByIndex store1_verified 1 = Some b
       /\ Json.assoc "verified" (match data b with JObj kv => kv | _ => [] end)
          = Some (JBool false).
Proof.
  destruct (X18_every_record_has_its_block store1_verified reachable_store1_verified)
    as (Hvalid & _ & _).
  split; [exact Hvalid|].
  eexists _, _. split; [vm_compute; reflexivity|].
  split; [vm_compute; reflexivity|]. split; vm_compute; reflexivity.
Defined.





End RecordFacts.

(** ** More on the service layer *)

Module IdentityServiceFacts.

Import DigitalIDContract Service ContractFacts RegistryFacts ServiceFacts.
Local Open Scope N_scope.

(** *** Creation through the service *)




Lemma getIdentityByWallet_cases w s :
  match parseAddress w with
  | None => exists msg, getIdentityByWallet w s = Thrown msg
  | Some a =>
      if walletId (contract s) a =? 0 then getIdentityByWallet w s = Done None
      else getIdentityByWallet w s
           = Done (Some (mapContractIdentityToData
                           (identityAt (contract s) (walletId (contract s) a))))
  end.
Proof.
  unfold getIdentityByWallet, DigitalIDContract.getIdentityByWallet.
  destruct (parseAddress w) as [a|]; [|eauto].
  now destruct (walletId (contract s) a =? 0).
Qed.



Definition belaWallet : string := addressString (sender bela).


(** *** The methods that change an identity *)

Inductive Mutation : Type :=
| Update (rq : UpdateIdentityRequest)
| Deactivate
| AddRoleTo (r : string)
| RemoveRoleAt (k : nat).

(** The transaction each of them sends. *)
Definition callOf (op : Mutation) (i : N) : Call :=
  match op with
  | Update rq => UpdateIdentity i (up_name rq) (up_email rq) (up_nationality rq)
                                (up_emergencyContact rq)
  | Deactivate => DeactivateIdentity i
  | AddRoleTo r => AddRole i r
  | RemoveRoleAt k => RemoveRole i k
  end.

Definition returned {A} (o : outcome A) : bool :=
  match o with
  | Done _ => true
  | _ => false
  end.

(** The four methods, with what they return reduced to whether they
    returned. *)
Definition perform (op : Mutation) (i : N) (w : string) (e : Env) (s : State)
  : bool * State :=
  match op with
  | Update rq =>
      (returned (fst (updateDigitalIdentity i rq w e s)),
       snd (updateDigitalIdentity i rq w e s))
  | Deactivate =>
      (returned (fst (deactivateDigitalIdentity i w e s)),
       snd (deactivateDigitalIdentity i w e s))
  | AddRoleTo r =>
      (returned (fst (addRoleToIdentity i r w e s)),
       snd (addRoleToIdentity i r w e s))
  | RemoveRoleAt k =>
      (returned (fst (removeRoleFromIdentity i k w e s)),
       snd (removeRoleFromIdentity i k w e s))
  end.

Lemma getIdentityById_cases i s :
  getIdentityById i s
  = if identityExists i (contract s)
    then Done (Some (mapContractIdentityToData (identityAt (contract s) i)))
    else Done None.
Proof.
  unfold getIdentityById, DigitalIDContract.getIdentityById.
  now destruct (identityExists i (contract s)).
Qed.

Lemma checkOwner_cases i w s :
  checkOwner i w s
  = if identityExists i (contract s)
       && String.eqb (addressString (walletAddress (identityAt (contract s) i))) w
    then Done tt else Thrown "Unauthorized: Not the identity owner".
Proof.
  unfold checkOwner. rewrite getIdentityById_cases.
  destruct (identityExists i (contract s)); [|reflexivity].
  cbn [andb mapContractIdentityToData d_walletAddress].
  now destruct (String.eqb _ w).
Qed.

(** A transaction of the identity's owner went through: the sender owns
    the identity, and the identity is still there afterwards. *)
Lemma callOf_success m op i c c' :
  exec m (callOf op i) c = Success tt c' ->
  walletAddress (identityAt c i) = sender m
  /\ identityExists i c' = true.
Proof.
  destruct op as [rq| |r|k]; cbn [callOf exec]; intros H.
  - unfold updateIdentity in H. repeat pass H. cbv zeta in H.
    split; [unfold onlyIdentityOwner in G; now apply N.eqb_eq in G|].
    destruct (negb (String.eqb _ _) && negb (emailId c _ =? 0)); [discriminate|].
    injection H as <-. unfold identityExists in *.
    now rewrite identityAt_emit, identityAt_set_eq.
  - unfold deactivateIdentity in H. repeat pass H. injection H as <-.
    split; [unfold onlyIdentityOwner in G; now apply N.eqb_eq in G|].
    unfold identityExists in *. now rewrite identityAt_emit, identityAt_set_eq.
  - unfold addRole in H. repeat pass H. injection H as <-.
    split; [unfold onlyIdentityOwner in G; now apply N.eqb_eq in G|].
    unfold identityExists in *. now rewrite identityAt_emit, identityAt_set_eq.
  - unfold removeRole in H. repeat pass H.
    destruct (roles (identityAt c i) !! _) as [lastRole|] in H; [|discriminate].
    destruct (pop _ !! k) as [reported|] in H; [|discriminate].
    injection H as <-.
    split; [unfold onlyIdentityOwner in G; now apply N.eqb_eq in G|].
    unfold identityExists in *. now rewrite identityAt_emit, identityAt_set_eq.
Qed.

Lemma perform_eq op i w e s :
  perform op i w e s =
  match checkOwner i w s with
  | Done _ =>
      match exec (msgOf s e) (callOf op i) (contract s) with
      | Success _ c' => (true, setContract s c')
      | _ => (false, s)
      end
  | _ => (false, s)
  end.
Proof.
  destruct op as [rq| |r|k]; cbn [perform callOf];
    unfold updateDigitalIdentity, deactivateDigitalIdentity,
           addRoleToIdentity, removeRoleFromIdentity, send.
  1: { destruct (checkOwner i w s) as [[]|msg|]; try reflexivity.
       destruct (exec _ _ _) as [[] c'| |] eqn:E; try reflexivity.
       destruct (callOf_success _ (Update rq) _ _ _ E) as [_ Hex].
       rewrite getIdentityById_cases. cbn [contract setContract].
       rewrite Hex. reflexivity. }
  all: destruct (checkOwner i w s) as [[]|msg|]; try reflexivity;
    destruct (exec _ _ _) as [[] c'| |]; reflexivity.
Qed.



(** *** Verification through the service *)

(** X25: [verifyDigitalIdentity] returns only when the wallet the
    service signs with deployed the registry and the identity exists.
    The verifier address passed in plays no part in that: the event on
    the ledger names the signer, and the address passed in is kept in
    the queue entry only, if there is one.  When the call throws, the
    service and the registry are as before. *)
Theorem X25_verification_is_authorised_by_the_signer_alone i v e s :
  let r := verifyDigitalIdentity i v e s in
  (returned (fst r) = true ->
     signer s = owner (contract s)
     /\ identityExists i (contract s) = true
     /\ fst r = Done (receiptHash e)
     /\ isVerified (identityAt (contract (snd r)) i) = true
     /\ events (contract (snd r))
        = (events (contract s) ++ [IdentityVerified i (signer s) (blockTime e)])%list
     /\ forall v', fst (verifyDigitalIdentity i v' e s) = fst r
                   /\ contract (snd (verifyDigitalIdentity i v' e s)) = contract (snd r))
  /\ (returned (fst r) = false -> snd r = s).
Proof.
  cbv zeta.
  destruct (exec (msgOf s e) (VerifyIdentity i) (contract s)) as [[] c'|reason|code] eqn:E.
  - assert (Hv : forall v0,
              fst (verifyDigitalIdentity i v0 e s) = Done (receiptHash e)
              /\ contract (snd (verifyDigitalIdentity i v0 e s)) = c').
    { intros v0. rewrite (verify_effect i v0 e s c' E). cbn [fst snd].
      split; [reflexivity|]. now destruct (verificationQueue s !! i). }
    destruct (Hv v) as [Hf Hs]. rewrite Hf, Hs. cbn [returned].
    split; [intros _|discriminate].
    pose proof E as E'. cbn [exec] in E'.
    apply verifyIdentity_success in E' as (Ho & Hex & Hc').
    unfold onlyOwner in Ho. apply N.eqb_eq in Ho. cbn [msgOf sender now] in *.
    split_and!; auto.
    + rewrite Hc'. now rewrite identityAt_emit, identityAt_set_eq.
    + rewrite Hc', events_emit. reflexivity.
  - unfold verifyDigitalIdentity, send. rewrite E. cbn.
    split; [discriminate | reflexivity].
  - unfold verifyDigitalIdentity, send. rewrite E. cbn.
    split; [discriminate | reflexivity].
Qed.

Lemma X25_verification_witness :
  signer service1 = owner (contract service1)
  /\ fst (verifyDigitalIdentity 1 "anyone at all" env2 service1) = Done "0xtx2"
  /\ snd (verifyDigitalIdentity 7 "0xV1" env2 service1) = service1.
Proof.
  destruct (X25_verification_is_authorised_by_the_signer_alone
              1 "anyone at all" env2 service1) as [Hok _].
  destruct (X25_verification_is_authorised_by_the_signer_alone
              7 "0xV1" env2 service1) as [_ Hmissing].
  destruct Hok as (Hsigner & _ & Hdone & _); [vm_compute; reflexivity|].
  split; [exact Hsigner|]. split; [exact Hdone|].
  apply Hmissing. vm_compute. reflexivity.
Defined.

(** *** The read-only methods *)

Lemma existsb_eqb_In r l : existsb (String.eqb r) l = true <-> In r l.
Proof.
  rewrite existsb_exists. split.
  - intros (x & Hx & He). apply String.eqb_eq in He. now subst.
  - intros H. exists r. split; [exact H | apply String.eqb_refl].
Qed.

(** X22: the read-only methods agree with each other.  A wallet has an
    identity exactly when [getDigitalIdentity] finds one.  In a
    reachable registry, an identity found by id carries that id, its
    roles are the ones [getDigitalIdentityRoles] lists, and
    [hasDigitalIdentityRole] answers [true] exactly for those.  For an
    id that is not found the roles are the empty list, every role
    question is answered [false], and none of the four changing methods
    returns. *)
Theorem X22_read_only_methods_agree s :
  reachable (contract s) ->
  (forall w, hasDigitalIdentity w s = true
             <-> exists f, getDigitalIdentity w s = Some f)
  /\ (forall i f,
        getDigitalIdentityById i s = Some f ->
        d_id f = i
        /\ getDigitalIdentityRoles i s = d_roles f
        /\ forall r, hasDigitalIdentityRole i r s = true <-> In r (d_roles f))
  /\ (forall i,
        getDigitalIdentityById i s = None ->
        getDigitalIdentityRoles i s = []
        /\ (forall r, hasDigitalIdentityRole i r s = false)
        /\ forall op w e, perform op i w e s = (false, s)).
Proof.
  intros Hr. apply reachable_inv in Hr as [_ Hinv]. split_and!.
  - intros w. unfold hasDigitalIdentity, getDigitalIdentity.
    pose proof (getIdentityByWallet_cases w s) as Hc.
    destruct (parseAddress w) as [a|].
    + unfold hasIdentity. destruct (walletId (contract s) a =? 0); rewrite Hc; cbn.
      * split; [discriminate | intros [f Hf]; discriminate].
      * split; eauto.
    + destruct Hc as [msg ->]. split; [discriminate | intros [f Hf]; discriminate].
  - intros i f. unfold getDigitalIdentityById, getDigitalIdentityRoles,
      hasDigitalIdentityRole, getIdentityRoles, hasRole.
    rewrite getIdentityById_cases.
    destruct (identityExists i (contract s)) eqn:Ex; [|discriminate].
    intros [= <-]. cbn [negb mapContractIdentityToData d_id d_roles].
    unfold identityExists in Ex. apply negb_true_iff, N.eqb_neq in Ex.
    destruct (Hinv i Ex) as [Hid _].
    split_and!; auto. intros r. apply existsb_eqb_In.
  - intros i. unfold getDigitalIdentityById, getDigitalIdentityRoles,
      hasDigitalIdentityRole, getIdentityRoles, hasRole.
    rewrite getIdentityById_cases.
    destruct (identityExists i (contract s)) eqn:Ex; [discriminate|].
    intros _. cbn [negb]. split_and!; auto.
    intros op w e. rewrite perform_eq, checkOwner_cases, Ex. reflexivity.
Qed.

Lemma X22_read_only_witness :
  hasDigitalIdentity adminWallet service1 = true
  /\ hasDigitalIdentity belaWallet service1 = false
  /\ getDigitalIdentityRoles 1 service1 = ["tourist"]
  /\ hasDigitalIdentityRole 1 "tourist" service1 = true
  /\ getDigitalIdentityRoles 9 service1 = []
  /\ hasDigitalIdentityRole 9 "tourist" service1 = false.
Proof.
  destruct (X22_read_only_methods_agree service1 reachable_service1)
    as (Hhas & Hfound & Hmissing).
  destruct (Hfound 1 storedAsha) as (_ & Hroles & Hrole); [vm_compute; reflexivity|].
  destruct (Hmissing 9) as (Hnone & Hno & _); [vm_compute; reflexivity|].
  split_and!.
  - apply Hhas. exists storedAsha. vm_compute. reflexivity.
  - destruct (hasDigitalIdentity belaWallet service1) eqn:E; [|reflexivity].
    apply Hhas in E as [f Hf]. vm_compute in Hf. discriminate.
  - rewrite Hroles. vm_compute. reflexivity.
  - apply Hrole. vm_compute. auto.
  - exact Hnone.
  - apply Hno.
Defined.

(** *** The two QR formats *)

(** X23: the tokens [qrService.ts] generates carry no [id], so
    [validateQRCodeData] answers [{ valid: false }] to every one of
    them, whatever the registry holds; the QR data [generateQRCodeData]
    builds for an identity carries its wallet address, and
    [parseQRCode] accepts it unchanged although it has no [userId], no
    [type] and no numeric [timestamp]. *)
Theorem X23_the_two_qr_formats x s :
  QRService.constructible x ->
  validateQRCodeData (QRService.encode x) s = invalid
  /\ (forall f iso,
        d_walletAddress f <> "" ->
        QRService.parseQRCode (generateQRCodeData f s iso) = Some (qrObject f s iso)
        /\ prop (qrObject f s iso) "userId" = None
        /\ prop (qrObject f s iso) "type" = None).
Proof.
  intros Hc. split.
  - unfold validateQRCodeData, QRService.encode.
    rewrite (JsonFacts.parse_stringify _ (QRFacts.toJson_wf x Hc)).
    unfold QRService.toJson. cbn [prop Json.assoc String.eqb Ascii.eqb Bool.eqb].
    destruct (QRService.data x); reflexivity.
  - intros f iso Hw. unfold QRService.parseQRCode. rewrite parse_generate.
    unfold qrObject. cbn [prop Json.assoc String.eqb Ascii.eqb Bool.eqb Json.falsy].
    apply String.eqb_neq in Hw. rewrite Hw. cbn [andb]. auto.
Qed.

Lemma X23_qr_formats_witness :
  validateQRCodeData (QRService.encode QRFacts.sampleToken) service1 = invalid
  /\ QRService.parseQRCode
       (generateQRCodeData storedAsha service1 "2023-11-14T22:13:20.000Z")
     = Some (qrObject storedAsha service1 "2023-11-14T22:13:20.000Z").
Proof.
  destruct (X23_the_two_qr_formats QRFacts.sampleToken service1) as [Hinvalid Hparse];
    [apply QRService.c_digital_id; vm_compute; reflexivity|].
  split; [exact Hinvalid|].
  destruct (Hparse storedAsha "2023-11-14T22:13:20.000Z") as (Hsame & _ & _);
    [vm_compute; discriminate | exact Hsame].
Defined.



End IdentityServiceFacts.

(** ** The durable schema and the in-memory storage *)

Module SchemaFacts.

Import SimpleBlockchain.

(** *** Trimming and lower-casing *)

















(** *** The wallet pattern *)

Import Regex.

Lemma test_Void s : test Void s = false.
Proof. induction s as [|c t IH]; [reflexivity | exact IH]. Qed.

Lemma cat_Eps r : cat Eps r = r.
Proof. now destruct r. Qed.

Lemma test_chr_cat a r c t :
  test (Cat (chr a) r) (String c t) = Ascii.eqb a c && test r t.
Proof.
  cbn [test deriv chr nullable].
  destruct (Ascii.eqb a c); cbn [andb]; [now rewrite cat_Eps|].
  cbn [cat]. apply test_Void.
Qed.

Lemma test_rep f n : forall s,
  test (rep n (Cls f)) s
  = Nat.eqb (String.length s) n && forallb f (list_ascii_of_string s).
Proof.
  induction n as [|n IH]; intros [|c t]; cbn [rep]; try reflexivity.
  - cbn [test deriv]. apply test_Void.
  - cbn [test deriv nullable String.length Nat.eqb list_ascii_of_string forallb].
    destruct (f c).
    + rewrite cat_Eps, IH. reflexivity.
    + cbn [cat]. rewrite test_Void. now rewrite andb_false_r.
Qed.

(** X27: the wallet validator of the schema accepts exactly the strings
    made of [0x] followed by forty hexadecimal digits, in either case. *)
Theorem X27_wallet_pattern_accepts_exactly_forty_hex_digits w :
  Regex.test Regex.wallet_re w = true
  <-> exists h,
        w = String "0" (String "x" h)
        /\ String.length h = 40%nat
        /\ forallb Regex.hex_char (list_ascii_of_string h) = true.
Proof.
  unfold wallet_re. split.
  - destruct w as [|c1 [|c2 h]]; [discriminate| |].
    + rewrite test_chr_cat. cbn [test nullable]. rewrite andb_false_r. discriminate.
    + rewrite !test_chr_cat, test_rep. intros H.
      apply andb_true_iff in H as [H1 H]. apply andb_true_iff in H as [H2 H].
      apply andb_true_iff in H as [H3 H4].
      apply Ascii.eqb_eq in H1, H2. apply Nat.eqb_eq in H3. subst. eauto.
  - intros (h & -> & Hlen & Hhex).
    rewrite !test_chr_cat, test_rep, Hlen, Hhex. reflexivity.
Qed.

Lemma X27_wallet_pattern_witness :
  Regex.test Regex.wallet_re "0xAAAAAAAAAAAAAAAAAAAAAAAAAAAAAAAAAAAAAAA1" = true.
Proof.
  apply X27_wallet_pattern_accepts_exactly_forty_hex_digits.
  exists "AAAAAAAAAAAAAAAAAAAAAAAAAAAAAAAAAAAAAAA1".
  split; [reflexivity|]. split; vm_compute; reflexivity.
Defined.

End SchemaFacts.

Module MemoryFacts.

Import InMemoryStorage.

(** The maps [createDigitalID] can build. *)
Inductive filled : gmap string Entry -> Prop :=
| filled_empty : filled ∅
| filled_create d now m : filled m -> filled (snd (createDigitalID d now m)).

Lemma filled_keys m : filled m -> forall k e, m !! k = Some e -> _id (entry e) = k.
Proof.
  induction 1 as [|d now0 m _ IH]; intros k e.
  - now rewrite lookup_empty.
  - unfold createDigitalID. cbn [snd].
    set (key := if String.eqb (_id d) "" then hash d else _id d).
    destruct (decide (key = k)) as [<-|Hne].
    + rewrite lookup_insert_eq. now intros [= <-].
    + rewrite lookup_insert_ne by assumption. apply IH.
Qed.

Lemma find_values_some h (m : gmap string Entry) e :
  findDigitalIDByHash h m = Some e ->
  hash (entry e) = h /\ exists k, m !! k = Some e.
Proof.
  unfold findDigitalIDByHash, findDigitalIDs. intros H.
  apply find_some in H as [Hin Hh]. apply String.eqb_eq in Hh. split; [exact Hh|].
  apply in_map_iff in Hin as ([k e'] & <- & Hin). cbn.
  exists k. apply elem_of_map_to_list. now apply list_elem_of_In.
Qed.

Lemma find_values_none h (m : gmap string Entry) :
  findDigitalIDByHash h m = None <->
  forall k e, m !! k = Some e -> hash (entry e) <> h.
Proof.
  unfold findDigitalIDByHash, findDigitalIDs. split.
  - intros H k e Hk Hh.
    assert (Hin : In e (map snd (map_to_list m))).
    { apply in_map_iff. exists (k, e). split; [reflexivity|].
      apply list_elem_of_In. now apply elem_of_map_to_list. }
    pose proof (find_none _ _ H e Hin) as Hf. cbn beta in Hf.
    rewrite Hh, String.eqb_refl in Hf. discriminate.
  - intros H. destruct (find _ _) as [e|] eqn:E; [|reflexivity].
    apply find_some in E as [Hin Hh]. apply String.eqb_eq in Hh.
    apply in_map_iff in Hin as ([k e'] & <- & Hin).
    apply list_elem_of_In, elem_of_map_to_list in Hin.
    now destruct (H k e' Hin).
Qed.

(** X28: in a map filled by [createDigitalID], every entry sits under
    its own [_id]; [findDigitalIDByHash] answers a stored entry with
    the hash asked for, and [null] exactly when no entry has it.  A
    call stores its entry under the [_id] given, or under the hash when
    none is given, replacing what was there: the entry is found by its
    hash afterwards and the count grows by one at most. *)
Theorem X28_in_memory_digital_ids m :
  filled m ->
  (forall h e, findDigitalIDByHash h m = Some e ->
     hash (entry e) = h /\ m !! _id (entry e) = Some e)
  /\ (forall h, findDigitalIDByHash h m = None
                <-> forall k e, m !! k = Some e -> hash (entry e) <> h)
  /\ (forall d now,
        let r := createDigitalID d now m in
        snd r !! _id (entry (fst r)) = Some (fst r)
        /\ hash (entry (fst r)) = hash d
        /\ _id (entry (fst r)) = (if String.eqb (_id d) "" then hash d else _id d)
        /\ findDigitalIDByHash (hash d) (snd r) <> None
        /\ (getDigitalIDCount m <= getDigitalIDCount (snd r)
            <= S (getDigitalIDCount m))%nat).
Proof.
  intros Hf. split_and!.
  - intros h e H. apply find_values_some in H as [Hh [k Hk]].
    split; [exact Hh|]. now rewrite (filled_keys m Hf k e Hk).
  - intros h. apply find_values_none.
  - intros d now0. cbv zeta. unfold createDigitalID. cbn [fst snd entry _id hash].
    set (key := if String.eqb (_id d) "" then hash d else _id d).
    split_and!; try reflexivity.
    + now rewrite lookup_insert_eq.
    + intros Hnone. rewrite find_values_none in Hnone.
      apply (Hnone key _ (lookup_insert_eq _ _ _)). reflexivity.
    + unfold getDigitalIDCount. destruct (m !! key) as [old|] eqn:Ek.
      * rewrite map_size_insert, Ek. cbn. lia.
      * rewrite map_size_insert, Ek. cbn. lia.
    + unfold getDigitalIDCount. destruct (m !! key) as [old|] eqn:Ek.
      * rewrite map_size_insert, Ek. cbn. lia.
      * rewrite map_size_insert, Ek. cbn. lia.
Qed.

Definition entryA : DigitalIDData := {| _id := ""; userId := "u1"; hash := "h1" |}.
Definition entryB : DigitalIDData := {| _id := ""; userId := "u2"; hash := "h1" |}.

Definition memory1 : gmap string Entry := snd (createDigitalID entryA 10 ∅).

Lemma X28_in_memory_witness :
  getDigitalIDCount memory1 = 1%nat
  /\ getDigitalIDCount (snd (createDigitalID entryB 20 memory1)) = 1%nat
  /\ snd (createDigitalID entryB 20 memory1) !! "h1"
     = Some {| entry := {| _id := "h1"; userId := "u2"; hash := "h1" |};
               createdAt := 20 |}.
Proof.
  destruct (X28_in_memory_digital_ids memory1 (filled_create entryA 10 ∅ filled_empty))
    as (_ & _ & Hcreate).
  destruct (Hcreate entryB 20%N) as (Hstored & _ & _ & _ & Hcount).
  split; [vm_compute; reflexivity|]. split; [vm_compute; reflexivity|].
  exact Hstored.
Defined.

End MemoryFacts.
